(** * CyberBud: concept extraction, quiz parsing, concept store and quiz flow

    A shallow embedding of the Python sources

      - [src/models.py]    (CONCEPT_KEYWORDS, extract_concepts)
      - [src/quiz.py]      (parse_quiz_response, generate_quiz_question,
                            create_initial_quiz_state)
      - [src/database.py]  (save_message, save_concept, record_concept_mention,
                            update_concept_understanding, get_concepts_for_quiz)
      - [app.py]           (the quiz state machine and the chat turn)
      - [components/sidebar.py] (start_quiz_mode)

    Python [str] values are modelled as lists of characters whose code
    points are below 256; Python integers as [Z]; dicts as association
    lists in insertion order; the SQLite tables as lists of rows in rowid
    order. *)

From Stdlib Require Import Ascii String List Sorted ZArith Bool Arith Lia.
Import ListNotations.

Set Implicit Arguments.
Open Scope string_scope.
Open Scope list_scope.
Open Scope nat_scope.

(* ====================================================================== *)
(** ** Python strings *)
(* ====================================================================== *)

Module PyStr.

Definition pystr := list ascii.

(** A string literal of the source. *)
Definition lit (s : string) : pystr := list_ascii_of_string s.

(** [a == b] *)
Fixpoint eqb (a b : pystr) : bool :=
  match a, b with
  | [], [] => true
  | x :: a', y :: b' => Ascii.eqb x y && eqb a' b'
  | _, _ => false
  end.

(** [c.lower()] for one character below U+0100: the ASCII capitals and the
    Latin-1 capitals (U+00C0..U+00DE without the multiplication sign) move
    up by 32, everything else is unchanged. *)
Definition lower_char (c : ascii) : ascii :=
  let n := nat_of_ascii c in
  if ((65 <=? n) && (n <=? 90))
     || ((192 <=? n) && (n <=? 222) && negb (n =? 215))
  then ascii_of_nat (n + 32) else c.

(** [s.lower()] *)
Definition lower (s : pystr) : pystr := map lower_char s.

(** [s.startswith(p)] *)
Fixpoint startswith (p s : pystr) : bool :=
  match p, s with
  | [], _ => true
  | _ :: _, [] => false
  | a :: p', b :: s' => Ascii.eqb a b && startswith p' s'
  end.

(** [sub in s] : substring test. *)
Fixpoint contains (sub s : pystr) : bool :=
  startswith sub s ||
  match s with
  | [] => false
  | _ :: s' => contains sub s'
  end.

(** [Py_UNICODE_ISSPACE] below U+0100; used by [\s] and by [str.strip()]. *)
Definition isspace (c : ascii) : bool :=
  let n := nat_of_ascii c in
  ((9 <=? n) && (n <=? 13)) || ((28 <=? n) && (n <=? 32))
  || (n =? 133) || (n =? 160).

Fixpoint lstrip (s : pystr) : pystr :=
  match s with
  | c :: s' => if isspace c then lstrip s' else s
  | [] => []
  end.

Definition rstrip (s : pystr) : pystr := rev (lstrip (rev s)).

(** [s.strip()] *)
Definition strip (s : pystr) : pystr := rstrip (lstrip s).

Definition newline : ascii := ascii_of_nat 10.

End PyStr.
Import PyStr.

(* ====================================================================== *)
(** ** src/models.py : concept extraction *)
(* ====================================================================== *)

Module Models.

(** The table, as written: category, then its keywords, in source order. *)
Definition CONCEPT_KEYWORDS_src : list (string * list string) :=
  [ ("Threat Intelligence",
     ["IOC"; "indicator of compromise"; "threat feed"; "STIX"; "TAXII";
      "threat actor"; "APT"; "advanced persistent threat"; "TTP";
      "tactics techniques procedures"; "campaign"; "threat hunting"]);
    ("Cryptography",
     ["hash"; "hashing"; "MD5"; "SHA"; "SHA-256"; "SHA-1";
      "encryption"; "decryption"; "AES"; "RSA"; "symmetric"; "asymmetric";
      "public key"; "private key"; "certificate"; "TLS"; "SSL"; "PKI";
      "digital signature"; "cipher"; "plaintext"; "ciphertext"]);
    ("Network Security",
     ["firewall"; "IDS"; "IPS"; "intrusion detection"; "intrusion prevention";
      "VPN"; "proxy"; "DMZ"; "network segmentation"; "VLAN";
      "packet"; "protocol"; "TCP"; "UDP"; "IP address"; "port";
      "DNS"; "DHCP"; "NAT"; "router"; "switch"]);
    ("Malware",
     ["malware"; "virus"; "worm"; "trojan"; "ransomware"; "spyware";
      "adware"; "rootkit"; "botnet"; "backdoor"; "keylogger";
      "payload"; "exploit"; "zero-day"; "0day"]);
    ("Authentication",
     ["authentication"; "authorization"; "MFA"; "2FA"; "multi-factor";
      "password"; "credential"; "SSO"; "single sign-on"; "OAuth";
      "SAML"; "token"; "session"; "identity"; "IAM"; "RBAC"]);
    ("Frameworks & Standards",
     ["NIST"; "MITRE ATT&CK"; "ATT&CK"; "ISO 27001"; "CIS Controls";
      "SOC 2"; "PCI DSS"; "HIPAA"; "GDPR"; "compliance";
      "framework"; "standard"; "policy"; "procedure"; "control"]);
    ("Incident Response",
     ["incident response"; "IR"; "forensics"; "DFIR"; "triage";
      "containment"; "eradication"; "recovery"; "lessons learned";
      "playbook"; "SIEM"; "SOC"; "security operations"; "alert"]);
    ("Vulnerabilities",
     ["vulnerability"; "CVE"; "patch"; "exploit"; "buffer overflow";
      "SQL injection"; "XSS"; "cross-site scripting"; "CSRF";
      "RCE"; "remote code execution"; "privilege escalation";
      "OWASP"; "penetration testing"; "pentest"; "bug bounty"]);
    ("Cloud Security",
     ["cloud security"; "AWS"; "Azure"; "GCP"; "S3 bucket";
      "IAM policy"; "security group"; "container"; "Docker"; "Kubernetes";
      "serverless"; "shared responsibility"; "cloud native"]);
    ("Social Engineering",
     ["phishing"; "spear phishing"; "vishing"; "smishing"; "pretexting";
      "social engineering"; "baiting"; "tailgating"; "impersonation";
      "business email compromise"; "BEC"]) ].

(** [CONCEPT_KEYWORDS.items()] : the dict in insertion order. *)
Definition CONCEPT_KEYWORDS : list (pystr * list pystr) :=
  map (fun '(category, keywords) => (lit category, map lit keywords))
      CONCEPT_KEYWORDS_src.

(** The second loop of [extract_concepts]: one step for one [item]. *)
Definition unique_step (st : list pystr * list (pystr * pystr))
                       (item : pystr * pystr) :=
  let '(seen, unique) := st in
  if existsb (eqb (lower (fst item))) seen then (seen, unique)
  else (lower (fst item) :: seen, unique ++ [item]).

Definition extract_concepts (text : pystr) : list (pystr * pystr) :=
  let text_lower := lower text in
  let found :=
    fold_left
      (fun found '(category, keywords) =>
         fold_left
           (fun found keyword =>
              if contains (lower keyword) text_lower
              then found ++ [(keyword, category)]
              else found)
           keywords found)
      CONCEPT_KEYWORDS [] in
  snd (fold_left unique_step found ([], [])).

End Models.
Import Models.

(* ====================================================================== *)
(** ** Python calls that may raise *)
(* ====================================================================== *)

Module Py.

Inductive exn :=
| ModelHTTPError (status_code : Z) (error_code : option pystr)
| OtherException
| IndexError
| KeyError
| AttributeError.

Inductive outcome (A : Type) :=
| Returned (a : A)
| Raised (e : exn).
Arguments Returned {A} a.
Arguments Raised {A} e.

Definition bind {A B} (c : outcome A) (k : A -> outcome B) : outcome B :=
  match c with
  | Returned a => k a
  | Raised e => Raised e
  end.

(** [try: body except Exception: handler] *)
Definition try_except {A} (body : outcome A) (handler : exn -> outcome A)
  : outcome A :=
  match body with
  | Returned a => Returned a
  | Raised e => handler e
  end.

(** A loop [for x in xs: acc = step(acc, x)] whose body may raise. *)
Fixpoint for_each {A X} (step : A -> X -> outcome A) (xs : list X) (acc : A)
  : outcome A :=
  match xs with
  | [] => Returned acc
  | x :: xs' => bind (step acc x) (for_each step xs')
  end.

(** Dicts with string keys, in insertion order. *)
Definition dict := list (pystr * pystr).

Fixpoint dict_get (k : pystr) (d : dict) : option pystr :=
  match d with
  | [] => None
  | (k', v) :: d' => if eqb k k' then Some v else dict_get k d'
  end.

(** [d[k] = v] *)
Fixpoint dict_set (k v : pystr) (d : dict) : dict :=
  match d with
  | [] => [(k, v)]
  | (k', v') :: d' =>
      if eqb k k' then (k', v) :: d' else (k', v') :: dict_set k v d'
  end.

Definition keys (d : dict) : list pystr := map fst d.

(** [d[k]] *)
Definition dict_item (k : pystr) (d : dict) : outcome pystr :=
  match dict_get k d with
  | Some v => Returned v
  | None => Raised KeyError
  end.

End Py.
Import Py.

Notation "x <- c ;; k" := (bind c (fun x => k))
  (at level 61, c at next level, right associativity).

(* ====================================================================== *)
(** ** The fragment of Python's [re] used by src/quiz.py *)
(* ====================================================================== *)

Module Re.

(** Patterns: literals, one-character classes, [c*] (greedy), [c+?] (lazy)
    over a class, one capturing group, look-ahead, alternation, [$] and
    concatenation. *)
Inductive regex :=
| Lit (s : pystr)
| Cls (p : ascii -> bool)
| StarGreedy (p : ascii -> bool)
| PlusLazy (p : ascii -> bool)
| Group (r : regex)
| Ahead (r : regex)
| Alt (r1 r2 : regex)
| Eos
| Cat (r1 r2 : regex).

(** [c*], longest first, giving characters back one at a time. *)
Fixpoint star_greedy {R} (p : ascii -> bool) (s : pystr)
                     (k : pystr -> option R) : option R :=
  match s with
  | c :: s' =>
      if p c then
        match star_greedy p s' k with
        | Some r => Some r
        | None => k s
        end
      else k s
  | [] => k []
  end.

(** [c+?], shortest first. *)
Fixpoint plus_lazy {R} (p : ascii -> bool) (s : pystr)
                   (k : pystr -> option R) : option R :=
  match s with
  | c :: s' =>
      if p c then
        match k s' with
        | Some r => Some r
        | None => plus_lazy p s' k
        end
      else None
  | [] => None
  end.

(** Backtracking matcher at the head of [s]. [g] is the text of group 1 so
    far; [k] is what remains to be matched. *)
Fixpoint exec (R : Type) (r : regex) (s : pystr) (g : option pystr)
              (k : pystr -> option pystr -> option R) {struct r} : option R :=
  match r with
  | Lit l => if startswith l s then k (skipn (length l) s) g else None
  | Cls p =>
      match s with
      | c :: s' => if p c then k s' g else None
      | [] => None
      end
  | StarGreedy p => star_greedy p s (fun s' => k s' g)
  | PlusLazy p => plus_lazy p s (fun s' => k s' g)
  | Group r1 =>
      exec r1 s g
        (fun s' _ => k s' (Some (firstn (length s - length s') s)))
  | Ahead r1 =>
      match exec r1 s g (fun _ _ => Some tt) with
      | Some _ => k s g
      | None => None
      end
  | Alt r1 r2 =>
      match exec r1 s g k with
      | Some x => Some x
      | None => exec r2 s g k
      end
  | Eos =>
      match s with
      | [] => k s g
      | [c] => if Ascii.eqb c newline then k s g else None
      | _ => None
      end
  | Cat r1 r2 => exec r1 s g (fun s' g' => exec r2 s' g' k)
  end.

(** A match object; only [group(1)] is ever asked of it. *)
Record match_obj := { group1_text : option pystr }.

(** [m.group(1)]; calling a method on the [None] it yields for an unset
    group is an AttributeError in the caller. *)
Definition group1 (m : match_obj) : outcome pystr :=
  match group1_text m with
  | Some g => Returned g
  | None => Raised AttributeError
  end.

(** [re.search(r, s)] : the first start position at which [r] matches. *)
Fixpoint search (r : regex) (s : pystr) : option match_obj :=
  match exec r s None (fun _ g => Some {| group1_text := g |}) with
  | Some m => Some m
  | None =>
      match s with
      | [] => None
      | _ :: s' => search r s'
      end
  end.

(** [.] under [re.DOTALL] *)
Definition dot_all (c : ascii) : bool := true.

(** [[lo-hi]] *)
Definition range (lo hi : string) (c : ascii) : bool :=
  match lit lo, lit hi with
  | [l], [h] =>
      (nat_of_ascii l <=? nat_of_ascii c) && (nat_of_ascii c <=? nat_of_ascii h)
  | _, _ => false
  end.

End Re.
Import Re.

Infix "+++" := Cat (at level 60, right associativity).

(* ====================================================================== *)
(** ** src/quiz.py *)
(* ====================================================================== *)

Module Quiz.

Definition nl : pystr := [newline].

(** [r'QUESTION:\s*(.+?)(?=\n[A-D]\))'] with [re.DOTALL] *)
Definition QUESTION_RE : regex :=
  Lit (lit "QUESTION:") +++ StarGreedy isspace +++ Group (PlusLazy dot_all)
  +++ Ahead (Lit nl +++ Cls (range "A" "D") +++ Lit (lit ")")).

(** [rf'{letter}\)\s*(.+?)(?=\n[B-D]\)|CORRECT:)'] with [re.DOTALL] *)
Definition OPTION_RE (letter : pystr) : regex :=
  Lit (letter ++ lit ")") +++ StarGreedy isspace +++ Group (PlusLazy dot_all)
  +++ Ahead (Alt (Lit nl +++ Cls (range "B" "D") +++ Lit (lit ")"))
                 (Lit (lit "CORRECT:"))).

(** [rf'{letter}\)\s*(.+?)(?=\nCORRECT:)'] with [re.DOTALL] *)
Definition OPTION_LAST_RE (letter : pystr) : regex :=
  Lit (letter ++ lit ")") +++ StarGreedy isspace +++ Group (PlusLazy dot_all)
  +++ Ahead (Lit (nl ++ lit "CORRECT:")).

(** [r'CORRECT:\s*([A-D])'] *)
Definition CORRECT_RE : regex :=
  Lit (lit "CORRECT:") +++ StarGreedy isspace +++ Group (Cls (range "A" "D")).

(** [r'CORRECT_EXPLANATION:\s*(.+?)(?=\n[A-D]_EXPLANATION:)'] with
    [re.DOTALL] *)
Definition CORRECT_EXPLANATION_RE : regex :=
  Lit (lit "CORRECT_EXPLANATION:") +++ StarGreedy isspace
  +++ Group (PlusLazy dot_all)
  +++ Ahead (Lit nl +++ Cls (range "A" "D") +++ Lit (lit "_EXPLANATION:")).

(** [rf'{letter}_EXPLANATION:\s*(.+?)(?=\n[B-D]_EXPLANATION:|$)'] with
    [re.DOTALL] *)
Definition EXPLANATION_RE (letter : pystr) : regex :=
  Lit (letter ++ lit "_EXPLANATION:") +++ StarGreedy isspace
  +++ Group (PlusLazy dot_all)
  +++ Ahead (Alt (Lit nl +++ Cls (range "B" "D") +++ Lit (lit "_EXPLANATION:"))
                 Eos).

(** [['A', 'B', 'C', 'D']] *)
Definition LETTERS : list pystr := [lit "A"; lit "B"; lit "C"; lit "D"].

(** The dict that [parse_quiz_response] returns; [concept_name] is the key
    that [generate_quiz_question] adds afterwards. *)
Record quiz_data := {
  qd_question : pystr;
  qd_options : dict;
  qd_correct : pystr;
  qd_correct_explanation : pystr;
  qd_explanations : dict;
  qd_concept_name : option pystr
}.

(** The first [for letter in ...] loop: one iteration. *)
Definition option_step (response_text : pystr) (options : dict)
                       (letter : pystr) : outcome dict :=
  match search (OPTION_RE letter) response_text with
  | Some m =>
      g <- group1 m ;;
      Returned (dict_set letter (strip g) options)
  | None =>
      match search (OPTION_LAST_RE letter) response_text with
      | Some m =>
          g <- group1 m ;;
          Returned (dict_set letter (strip g) options)
      | None => Returned options
      end
  end.

(** The second [for letter in ...] loop: one iteration. *)
Definition explanation_step (response_text : pystr) (explanations : dict)
                            (letter : pystr) : outcome dict :=
  match search (EXPLANATION_RE letter) response_text with
  | Some m =>
      g <- group1 m ;;
      Returned (dict_set letter (strip g) explanations)
  | None => Returned (dict_set letter [] explanations)
  end.

(** The body of the [try] block. *)
Definition parse_quiz_response_body (response_text : pystr)
  : outcome (option quiz_data) :=
  match search QUESTION_RE response_text with
  | None => Returned None
  | Some question_match =>
    g <- group1 question_match ;;
    let question := strip g in
    options <- for_each (option_step response_text) LETTERS [] ;;
    if negb (length options =? 4) then Returned None else
    match search CORRECT_RE response_text with
    | None => Returned None
    | Some correct_match =>
      correct <- group1 correct_match ;;
      match search CORRECT_EXPLANATION_RE response_text with
      | None => Returned None
      | Some correct_exp_match =>
        g' <- group1 correct_exp_match ;;
        let correct_explanation := strip g' in
        explanations <-
          for_each (explanation_step response_text) LETTERS [] ;;
        Returned (Some {| qd_question := question;
                          qd_options := options;
                          qd_correct := correct;
                          qd_correct_explanation := correct_explanation;
                          qd_explanations := explanations;
                          qd_concept_name := None |})
      end
    end
  end.

Definition parse_quiz_response (response_text : pystr)
  : outcome (option quiz_data) :=
  try_except (parse_quiz_response_body response_text)
             (fun _ => Returned None).

End Quiz.
Import Quiz.

(* ====================================================================== *)
(** ** src/database.py *)
(* ====================================================================== *)

Module Database.

Local Open Scope Z_scope.

(** One row of [concepts] ([first_seen_at] is never read and is left out). *)
Record concept_row := {
  c_id : Z;
  c_name : pystr;
  c_category : option pystr;
  c_times_discussed : Z;
  c_understanding_level : Z;
  c_last_reviewed_at : option Z
}.

Record message_row := {
  m_id : Z;
  m_session_id : Z;
  m_role : pystr;
  m_content : pystr
}.

Record mention_row := {
  cm_id : Z;
  cm_concept_id : Z;
  cm_message_id : Z;
  cm_session_id : Z
}.

(** The tables in rowid order, each with its AUTOINCREMENT counter (the
    largest id handed out so far). *)
Record database := {
  concepts : list concept_row;
  concepts_seq : Z;
  messages : list message_row;
  messages_seq : Z;
  concept_mentions : list mention_row;
  concept_mentions_seq : Z
}.

Definition empty_database : database :=
  {| concepts := []; concepts_seq := 0;
     messages := []; messages_seq := 0;
     concept_mentions := []; concept_mentions_seq := 0 |}.

Definition with_concepts (rows : list concept_row) (seq : Z) (d : database) :=
  {| concepts := rows; concepts_seq := seq;
     messages := messages d; messages_seq := messages_seq d;
     concept_mentions := concept_mentions d;
     concept_mentions_seq := concept_mentions_seq d |}.

(** [INSERT INTO messages (session_id, role, content) VALUES (?, ?, ?)];
    returns [cursor.lastrowid]. *)
Definition save_message (session_id : Z) (role content : pystr) (d : database)
  : database * Z :=
  let message_id := messages_seq d + 1 in
  ({| concepts := concepts d; concepts_seq := concepts_seq d;
      messages := messages d ++ [{| m_id := message_id;
                                    m_session_id := session_id;
                                    m_role := role;
                                    m_content := content |}];
      messages_seq := message_id;
      concept_mentions := concept_mentions d;
      concept_mentions_seq := concept_mentions_seq d |},
   message_id).

(** [SELECT ... FROM concepts WHERE name = ?] then [fetchone()] *)
Definition select_concept_by_name (name : pystr) (d : database)
  : option concept_row :=
  find (fun row => eqb (c_name row) name) (concepts d).

Definition set_times_discussed (n : Z) (row : concept_row) : concept_row :=
  {| c_id := c_id row; c_name := c_name row; c_category := c_category row;
     c_times_discussed := n;
     c_understanding_level := c_understanding_level row;
     c_last_reviewed_at := c_last_reviewed_at row |}.

(** [UPDATE concepts SET ... WHERE id = ?] *)
Definition update_where_id (id : Z) (f : concept_row -> concept_row)
                           (rows : list concept_row) : list concept_row :=
  map (fun row => if c_id row =? id then f row else row) rows.

Definition save_concept (name : pystr) (category : option pystr) (d : database)
  : database * Z :=
  match select_concept_by_name name d with
  | Some row =>
      (with_concepts
         (update_where_id (c_id row)
            (set_times_discussed (c_times_discussed row + 1)) (concepts d))
         (concepts_seq d) d,
       c_id row)
  | None =>
      let concept_id := concepts_seq d + 1 in
      (with_concepts
         (concepts d ++ [{| c_id := concept_id;
                            c_name := name;
                            c_category := category;
                            c_times_discussed := 1;
                            c_understanding_level := 1;
                            c_last_reviewed_at := None |}])
         concept_id d,
       concept_id)
  end.

Definition record_concept_mention (concept_id message_id session_id : Z)
                                  (d : database) : database :=
  let id := concept_mentions_seq d + 1 in
  {| concepts := concepts d; concepts_seq := concepts_seq d;
     messages := messages d; messages_seq := messages_seq d;
     concept_mentions := concept_mentions d
                         ++ [{| cm_id := id;
                                cm_concept_id := concept_id;
                                cm_message_id := message_id;
                                cm_session_id := session_id |}];
     concept_mentions_seq := id |}.

Definition set_understanding (level : Z) (reviewed_at : Z) (row : concept_row)
  : concept_row :=
  {| c_id := c_id row; c_name := c_name row; c_category := c_category row;
     c_times_discussed := c_times_discussed row;
     c_understanding_level := level;
     c_last_reviewed_at := Some reviewed_at |}.

(** [now] is the value [datetime.now()] yields in this call. *)
Definition update_concept_understanding (now : Z) (concept_id level : Z)
                                        (d : database) : database :=
  with_concepts
    (update_where_id concept_id
       (set_understanding (Z.max 1 (Z.min 5 level)) now) (concepts d))
    (concepts_seq d) d.

(** [SELECT * FROM concepts WHERE name = ?] *)
Definition get_concept_by_name (name : pystr) (d : database)
  : option concept_row :=
  select_concept_by_name name d.

End Database.
Import Database.

(* ====================================================================== *)
(** ** The LLM service and src/quiz.py : question generation *)
(* ====================================================================== *)

Module Agent.

(** A prior turn of the conversation, opaque to this program. *)
Definition ModelMessage : Type := pystr.

(** [agent.run(prompt, message_history=...)] : the reply text and the new
    turns, or the exception the client raises. *)
Definition agent := pystr -> list ModelMessage
                    -> outcome (pystr * list ModelMessage).

Definition quote : pystr := [ascii_of_nat 34].

Definition lines (ls : list string) : pystr :=
  flat_map (fun l => lit l ++ nl) ls.

(** [QUIZ_PROMPT_TEMPLATE.format(concept=concept)] *)
Definition QUIZ_PROMPT_TEMPLATE (concept : pystr) : pystr :=
  lit "Generate a multiple choice question about " ++ quote ++ concept
  ++ quote ++ lit " in cybersecurity." ++ nl ++ nl
  ++ lit "The question should test understanding, not just memorization. Make distractors plausible but clearly wrong to someone who understands the concept."
  ++ nl ++ nl
  ++ lines
       [ "Format your response EXACTLY like this (include all sections):";
         "QUESTION: [question text]";
         "A) [option]";
         "B) [option]";
         "C) [option]";
         "D) [option]";
         "CORRECT: [A/B/C/D]";
         "CORRECT_EXPLANATION: [why the correct answer is right - 1-2 sentences]";
         "A_EXPLANATION: [why A is wrong OR why A is correct, depending on the answer]";
         "B_EXPLANATION: [why B is wrong OR why B is correct, depending on the answer]";
         "C_EXPLANATION: [why C is wrong OR why C is correct, depending on the answer]";
         "D_EXPLANATION: [why D is wrong OR why D is correct, depending on the answer]" ].

Definition with_concept_name (name : pystr) (q : quiz_data) : quiz_data :=
  {| qd_question := qd_question q; qd_options := qd_options q;
     qd_correct := qd_correct q;
     qd_correct_explanation := qd_correct_explanation q;
     qd_explanations := qd_explanations q;
     qd_concept_name := Some name |}.

(** src/quiz.py, [generate_quiz_question] with the default (empty)
    [message_history]. *)
Definition generate_quiz_question (a : agent) (concept_name : pystr)
  : outcome (option quiz_data) :=
  let prompt := QUIZ_PROMPT_TEMPLATE concept_name in
  result <- a prompt [] ;;
  parsed <- parse_quiz_response (fst result) ;;
  Returned (option_map (with_concept_name concept_name) parsed).

(** src/agent.py, [run_agent] *)
Definition run_agent (a : agent) (user_input : pystr)
                     (message_history : list ModelMessage)
  : outcome (pystr * list ModelMessage) :=
  a user_input message_history.

End Agent.
Import Agent.

(* ====================================================================== *)
(** ** app.py and components/sidebar.py : session state and the quiz flow *)
(* ====================================================================== *)

Module App.

Inductive letter := LA | LB | LC | LD.

Definition letter_str (l : letter) : pystr :=
  match l with
  | LA => lit "A" | LB => lit "B" | LC => lit "C" | LD => lit "D"
  end.

Record quiz_result := {
  concept_id : Z;
  correct : bool
}.

(** The dict built by [create_initial_quiz_state]. *)
Record QuizState := {
  qs_active : bool;
  qs_concepts : list concept_row;
  qs_current_index : nat;
  qs_question : pystr;
  qs_options : dict;
  qs_correct : pystr;
  qs_explanations : dict;
  qs_correct_explanation : pystr;
  qs_user_answer : option pystr;
  qs_answered : bool;
  qs_results : list quiz_result;
  qs_loading : bool
}.

(** [st.session_state], once [ensure_session] and the initialisers at the
    top of [main] have run. *)
Record session_state := {
  session_id : Z;
  ss_messages : list (pystr * pystr);
  pydantic_messages : list ModelMessage;
  message_count : Z;
  quiz_mode : bool;
  quiz_concepts : list concept_row;
  awaiting_rating : bool;
  quiz_state : option QuizState;
  pending_concept_question : option pystr
}.

(** What one run of the script can touch: the session state, the store and
    the requests sent to the LLM service so far. *)
Record world := {
  ss : session_state;
  db : database;
  requests : list pystr
}.

(** The widget that fired for this run, if any. *)
Inductive widget :=
| NoWidget
| QuizOption (l : letter)
| NextQuestion
| DoneOrEndQuiz
| Rating1
| Rating3
| Rating5
| ChatInput (text : pystr).

(** The surroundings of one run: the widget, the LLM service and the
    successive readings of [datetime.now()]. *)
Record env := {
  fired : widget;
  llm : agent;
  now : nat -> Z
}.

(** How a run ends: it falls off the end of the script, it calls
    [st.rerun()], or an exception escapes. *)
Inductive status :=
| Finished
| Rerun
| Uncaught (e : exn).

Definition MAX_MESSAGES_PER_SESSION : Z := 25.

(** src/quiz.py, [create_initial_quiz_state] *)
Definition create_initial_quiz_state (concepts : list concept_row) : QuizState :=
  {| qs_active := true;
     qs_concepts := concepts;
     qs_current_index := 0;
     qs_question := [];
     qs_options := [];
     qs_correct := [];
     qs_explanations := [];
     qs_correct_explanation := [];
     qs_user_answer := None;
     qs_answered := false;
     qs_results := [];
     qs_loading := true |}.

Definition set_quiz (mode : bool) (concepts : list concept_row)
                    (awaiting : bool) (q : option QuizState)
                    (s : session_state) : session_state :=
  {| session_id := session_id s;
     ss_messages := ss_messages s;
     pydantic_messages := pydantic_messages s;
     message_count := message_count s;
     quiz_mode := mode;
     quiz_concepts := concepts;
     awaiting_rating := awaiting;
     quiz_state := q;
     pending_concept_question := pending_concept_question s |}.

Definition set_chat (msgs : list (pystr * pystr)) (hist : list ModelMessage)
                    (count : Z) (pending : option pystr)
                    (s : session_state) : session_state :=
  {| session_id := session_id s;
     ss_messages := msgs;
     pydantic_messages := hist;
     message_count := count;
     quiz_mode := quiz_mode s;
     quiz_concepts := quiz_concepts s;
     awaiting_rating := awaiting_rating s;
     quiz_state := quiz_state s;
     pending_concept_question := pending |}.

Definition set_ss (s : session_state) (w : world) : world :=
  {| ss := s; db := db w; requests := requests w |}.

Definition set_db (d : database) (w : world) : world :=
  {| ss := ss w; db := d; requests := requests w |}.

(** The request leaves for the LLM service. *)
Definition send (prompt : pystr) (w : world) : world :=
  {| ss := ss w; db := db w; requests := requests w ++ [prompt] |}.

(** components/sidebar.py, [start_quiz_mode]; [from_db] is what
    [db.get_concepts_for_quiz(limit=3)] returned. *)
Definition start_quiz_mode (from_db : list concept_row) (s : session_state)
  : session_state :=
  match from_db with
  | [] => set_quiz false [] (awaiting_rating s) None s
  | _ :: _ =>
      set_quiz true from_db false (Some (create_initial_quiz_state from_db)) s
  end.

Definition check_message_limit (s : session_state) : bool :=
  (MAX_MESSAGES_PER_SESSION <=? message_count s)%Z.

Definition increment_message_count (s : session_state) : session_state :=
  set_chat (ss_messages s) (pydantic_messages s) (message_count s + 1)%Z
           (pending_concept_question s) s.

(** The loop of [save_and_track_message] over the extracted concepts. *)
Definition track_concept (message_id session : Z) (d : database)
                         (item : pystr * pystr) : database :=
  let '(concept_name, category) := item in
  let '(d1, concept_id) := save_concept concept_name (Some category) d in
  record_concept_mention concept_id message_id session d1.

Definition save_and_track_message (role content : pystr) (w : world) : world :=
  let session := session_id (ss w) in
  let '(d1, message_id) := save_message session role content (db w) in
  if eqb role (lit "assistant") then
    set_db (fold_left (track_concept message_id session)
                      (extract_concepts content) d1) w
  else set_db d1 w.

(** The loop of [update_quiz_understanding]; the [k]-th call of
    [db.update_concept_understanding] reads the clock for the [k]-th time. *)
Fixpoint update_each (clock : nat -> Z) (k : nat) (batch : list concept_row)
                     (level : Z) (d : database) : database :=
  match batch with
  | [] => d
  | concept :: rest =>
      update_each clock (S k) rest level
        (update_concept_understanding (clock k) (c_id concept) level d)
  end.

Definition update_quiz_understanding (clock : nat -> Z) (level : Z) (w : world)
  : world :=
  let d := update_each clock 0 (quiz_concepts (ss w)) level (db w) in
  set_db d (set_ss (set_quiz false [] false None (ss w)) w).

Definition render_quiz_header (q : QuizState) : outcome unit :=
  match nth_error (qs_concepts q) (qs_current_index q) with
  | Some _ => Returned tt
  | None => Raised IndexError
  end.

Definition advance (q : QuizState) : QuizState :=
  {| qs_active := qs_active q;
     qs_concepts := qs_concepts q;
     qs_current_index := qs_current_index q + 1;
     qs_question := [];
     qs_options := [];
     qs_correct := [];
     qs_explanations := [];
     qs_correct_explanation := [];
     qs_user_answer := None;
     qs_answered := false;
     qs_results := qs_results q;
     qs_loading := true |}.

Definition set_quiz_state (q : option QuizState) (s : session_state) :=
  set_quiz (quiz_mode s) (quiz_concepts s) (awaiting_rating s) q s.

Definition advance_quiz (s : session_state) : session_state :=
  match quiz_state s with
  | None => s
  | Some q => set_quiz_state (Some (advance q)) s
  end.

Definition finish_quiz (s : session_state) : session_state :=
  set_quiz (quiz_mode s) (quiz_concepts s) true (quiz_state s) s.

(** The two assignments that leave quiz mode in [render_quiz_question]. *)
Definition leave_quiz (s : session_state) : session_state :=
  set_quiz false (quiz_concepts s) (awaiting_rating s) None s.

Definition populate (d : quiz_data) (q : QuizState) : QuizState :=
  {| qs_active := qs_active q;
     qs_concepts := qs_concepts q;
     qs_current_index := qs_current_index q;
     qs_question := qd_question d;
     qs_options := qd_options d;
     qs_correct := qd_correct d;
     qs_explanations := qd_explanations d;
     qs_correct_explanation := qd_correct_explanation d;
     qs_user_answer := qs_user_answer q;
     qs_answered := qs_answered q;
     qs_results := qs_results q;
     qs_loading := false |}.

(** [quiz_state["user_answer"] = letter; quiz_state["answered"] = True] *)
Definition set_answer (l : pystr) (q : QuizState) : QuizState :=
  {| qs_active := qs_active q;
     qs_concepts := qs_concepts q;
     qs_current_index := qs_current_index q;
     qs_question := qs_question q;
     qs_options := qs_options q;
     qs_correct := qs_correct q;
     qs_explanations := qs_explanations q;
     qs_correct_explanation := qs_correct_explanation q;
     qs_user_answer := Some l;
     qs_answered := true;
     qs_results := qs_results q;
     qs_loading := qs_loading q |}.

(** [quiz_state["results"].append(r)] *)
Definition append_result (r : quiz_result) (q : QuizState) : QuizState :=
  {| qs_active := qs_active q;
     qs_concepts := qs_concepts q;
     qs_current_index := qs_current_index q;
     qs_question := qs_question q;
     qs_options := qs_options q;
     qs_correct := qs_correct q;
     qs_explanations := qs_explanations q;
     qs_correct_explanation := qs_correct_explanation q;
     qs_user_answer := qs_user_answer q;
     qs_answered := qs_answered q;
     qs_results := qs_results q ++ [r];
     qs_loading := qs_loading q |}.

Definition render_quiz_question (e : env) (w : world) : world * status :=
  match quiz_state (ss w) with
  | None => (w, Finished)
  | Some q =>
    if check_message_limit (ss w) then
      (set_ss (leave_quiz (ss w)) w, Finished)
    else if qs_loading q then
      match nth_error (qs_concepts q) (qs_current_index q) with
      | None => (w, Uncaught IndexError)
      | Some current_concept =>
        let w1 := send (QUIZ_PROMPT_TEMPLATE (c_name current_concept)) w in
        match generate_quiz_question (llm e) (c_name current_concept) with
        | Raised (ModelHTTPError _ _) =>
            (set_ss (leave_quiz (ss w1)) w1, Finished)
        | Raised _ =>
            (set_ss (leave_quiz (ss w1)) w1, Finished)
        | Returned (Some quiz_data) =>
            (set_ss (set_quiz_state (Some (populate quiz_data q))
                       (increment_message_count (ss w1))) w1,
             Rerun)
        | Returned None =>
            (set_ss (advance_quiz (ss w1)) w1, Rerun)
        end
      end
    else
      match fired e with
      | QuizOption l =>
        let q1 := set_answer (letter_str l) q in
        match nth_error (qs_concepts q1) (qs_current_index q1) with
        | None => (set_ss (set_quiz_state (Some q1) (ss w)) w,
                   Uncaught IndexError)
        | Some current_concept =>
          let r := {| concept_id := c_id current_concept;
                      correct := eqb (letter_str l) (qs_correct q1) |} in
          (set_ss (set_quiz_state (Some (append_result r q1)) (ss w)) w,
           Rerun)
        end
      | _ => (w, Finished)
      end
  end.

(** The lookups [render_quiz_result] makes before it draws its buttons. *)
Definition result_lookups (q : QuizState) : outcome unit :=
  let is_correct :=
    match qs_user_answer q with
    | Some u => eqb u (qs_correct q)
    | None => false
    end in
  if is_correct then
    _ <- dict_item (qs_correct q) (qs_options q) ;;
    Returned tt
  else
    _ <- match qs_user_answer q with
         | Some u => dict_item u (qs_options q)
         | None => Raised KeyError
         end ;;
    _ <- dict_item (qs_correct q) (qs_options q) ;;
    Returned tt.

Definition render_quiz_result (e : env) (w : world) : world * status :=
  match quiz_state (ss w) with
  | None => (w, Finished)
  | Some q =>
    if negb (qs_answered q) then (w, Finished) else
    match result_lookups q with
    | Raised x => (w, Uncaught x)
    | Returned _ =>
      let current_idx := qs_current_index q in
      let total := length (qs_concepts q) in
      let is_last := total - 1 <=? current_idx in
      match fired e with
      | NextQuestion =>
          if negb is_last then (set_ss (advance_quiz (ss w)) w, Rerun)
          else (w, Finished)
      | DoneOrEndQuiz => (set_ss (finish_quiz (ss w)) w, Rerun)
      | _ => (w, Finished)
      end
    end
  end.

Definition render_understanding_rating (e : env) (w : world) : world * status :=
  match fired e with
  | Rating1 => (update_quiz_understanding (now e) 1 w, Rerun)
  | Rating3 => (update_quiz_understanding (now e) 3 w, Rerun)
  | Rating5 => (update_quiz_understanding (now e) 5 w, Rerun)
  | _ => (w, Finished)
  end.

Definition append_message (role content : pystr) (s : session_state) :=
  set_chat (ss_messages s ++ [(role, content)]) (pydantic_messages s)
           (message_count s) (pending_concept_question s) s.

Definition extend_history (new_messages : list ModelMessage)
                          (s : session_state) :=
  set_chat (ss_messages s) (pydantic_messages s ++ new_messages)
           (message_count s) (pending_concept_question s) s.

Definition process_user_input (e : env) (user_input : pystr) (w : world)
  : world :=
  let w1 := set_ss (append_message (lit "user") user_input (ss w)) w in
  let w2 := save_and_track_message (lit "user") user_input w1 in
  let w3 := send user_input w2 in
  match run_agent (llm e) user_input (pydantic_messages (ss w3)) with
  | Raised _ => w3
  | Returned (response_text, new_messages) =>
      let w4 := set_ss (extend_history new_messages (ss w3)) w3 in
      let w5 := set_ss (increment_message_count (ss w4)) w4 in
      let w6 := set_ss (append_message (lit "assistant") response_text (ss w5))
                       w5 in
      save_and_track_message (lit "assistant") response_text w6
  end.

Definition clear_pending (s : session_state) : session_state :=
  set_chat (ss_messages s) (pydantic_messages s) (message_count s) None s.

Definition explain_request (concept_name : pystr) : pystr :=
  lit "Explain " ++ concept_name
  ++ lit " to me. What is it, why does it matter in cybersecurity, and give me an example.".

Definition chat_area (e : env) (w : world) : world * status :=
  if check_message_limit (ss w) then (w, Finished)
  else
    match pending_concept_question (ss w) with
    | Some (c :: rest) =>
        let w1 := set_ss (clear_pending (ss w)) w in
        (process_user_input e (explain_request (c :: rest)) w1, Rerun)
    | _ =>
        match fired e with
        | ChatInput (c :: rest) =>
            (process_user_input e (c :: rest) w, Rerun)
        | _ => (w, Finished)
        end
    end.

(** [main], from the point where the sidebar has been drawn without one
    of its buttons firing (each sidebar handler ends in [st.rerun()]). *)
(** The local [quiz_active] of [main]. *)
Definition quiz_active (s : session_state) : bool :=
  quiz_mode s &&
  match quiz_state s with
  | Some q => qs_active q
  | None => false
  end.

Definition main (e : env) (w : world) : world * status :=
  let s := ss w in
  if quiz_active s && negb (awaiting_rating s) then
    match quiz_state s with
    | None => (w, Finished)
    | Some q =>
      match render_quiz_header q with
      | Raised x => (w, Uncaught x)
      | Returned _ =>
          if qs_answered q then render_quiz_result e w
          else render_quiz_question e w
      end
    end
  else if quiz_mode s && awaiting_rating s then
    render_understanding_rating e w
  else chat_area e w.

(** A sequence of runs, each in its own surroundings. *)
Fixpoint runs (es : list env) (w : world) : world :=
  match es with
  | [] => w
  | e :: es' => runs es' (fst (main e w))
  end.

End App.
Import App.

(* ====================================================================== *)
(** ** Auxiliary definitions used to state the properties *)
(* ====================================================================== *)

(** The table flattened in iteration order: categories as declared, and
    the keywords of a category in list order. *)
Definition TABLE_PAIRS : list (pystr * pystr) :=
  flat_map (fun '(category, keywords) =>
              map (fun keyword => (keyword, category)) keywords)
           CONCEPT_KEYWORDS.

(** The entries of a list of pairs whose name, lower-cased, is not the
    name of an entry before it. *)
Fixpoint first_listed_after (earlier l : list (pystr * pystr))
  : list (pystr * pystr) :=
  match l with
  | [] => []
  | x :: l' =>
      let tl := first_listed_after (earlier ++ [x]) l' in
      if existsb (fun y => eqb (lower (fst y)) (lower (fst x))) earlier
      then tl else x :: tl
  end.

Definition first_listed := first_listed_after [].

(** [keyword.lower() in text.lower()] *)
Definition mentioned (text : pystr) (item : pystr * pystr) : bool :=
  contains (lower (fst item)) (lower text).

(** The categories paired with [name] in a result. *)
Definition categories_of (name : pystr) (l : list (pystr * pystr))
  : list pystr :=
  map snd (filter (fun item => eqb (fst item) name) l).

(** What the second loop leaves in [unique], started with [seen]. *)
Fixpoint keep_first (seen : list pystr) (l : list (pystr * pystr))
  : list (pystr * pystr) :=
  match l with
  | [] => []
  | x :: l' =>
      if existsb (eqb (lower (fst x))) seen then keep_first seen l'
      else x :: keep_first (lower (fst x) :: seen) l'
  end.


(** The row of [concepts] with a given id, as a [SELECT ... WHERE id = ?]
    would read it back. *)
Definition concept_with_id (id : Z) (d : database) : option concept_row :=
  find (fun row => (c_id row =? id)%Z) (concepts d).

(** The number of rows of [concepts] with a given name. *)
Definition count_named (name : pystr) (d : database) : nat :=
  length (filter (fun row => eqb (c_name row) name) (concepts d)).

(** A level brought into the closed range 1..5, in the words of the
    specification: above 5 gives 5, below 1 gives 1, otherwise unchanged. *)
Definition clamped (level : Z) : Z :=
  if (5 <? level)%Z then 5%Z else if (level <? 1)%Z then 1%Z else level.

(** A reply in the format the prompt asks for: each marker on a line of
    its own, followed by a blank and the text of the field. The fields and
    the text before the first marker are arbitrary. *)
Definition well_formed_response
    (preamble question a b c d : pystr) (answer : letter)
    (correct_explanation ea eb ec ed : pystr) : pystr :=
  preamble
  ++ lit "QUESTION: " ++ question ++ nl
  ++ lit "A) " ++ a ++ nl
  ++ lit "B) " ++ b ++ nl
  ++ lit "C) " ++ c ++ nl
  ++ lit "D) " ++ d ++ nl
  ++ lit "CORRECT: " ++ letter_str answer ++ nl
  ++ lit "CORRECT_EXPLANATION: " ++ correct_explanation ++ nl
  ++ lit "A_EXPLANATION: " ++ ea ++ nl
  ++ lit "B_EXPLANATION: " ++ eb ++ nl
  ++ lit "C_EXPLANATION: " ++ ec ++ nl
  ++ lit "D_EXPLANATION: " ++ ed.

(** Whether every match of a pattern leaves group 1 set. *)
Fixpoint captures (r : regex) : bool :=
  match r with
  | Group _ => true
  | Cat r1 r2 => captures r1 || captures r2
  | Alt r1 r2 => captures r1 && captures r2
  | _ => false
  end.

(** The states of the quiz flow, read off the session state the way [main]
    dispatches on it. *)
Inductive phase :=
| Idle
| AwaitingQuestion (i : nat)
| ShowingQuestion (i : nat)
| ShowingAnswer (i : nat)
| AwaitingRating.

Definition phase_of (s : session_state) : phase :=
  if quiz_active s && negb (awaiting_rating s) then
    match quiz_state s with
    | None => Idle
    | Some q =>
        if qs_answered q then ShowingAnswer (qs_current_index q)
        else if qs_loading q then AwaitingQuestion (qs_current_index q)
        else ShowingQuestion (qs_current_index q)
    end
  else if quiz_mode s && awaiting_rating s then AwaitingRating
  else Idle.

(** Whether this run records an answer: a question is on display, within
    the budget, and one of its four buttons fired. *)
Definition answers_question (e : env) (w : world) : bool :=
  match phase_of (ss w), quiz_state (ss w), fired e with
  | ShowingQuestion i, Some q, QuizOption _ =>
      negb (check_message_limit (ss w)) && (i <? length (qs_concepts q))
  | _, _, _ => false
  end.

(** The number of answers recorded along a sequence of runs. *)
Fixpoint answered (es : list env) (w : world) : nat :=
  match es with
  | [] => 0
  | e :: es' =>
      (if answers_question e w then 1 else 0) + answered es' (fst (main e w))
  end.

(** How many questions the quiz has been through: those before the
    current one, and the current one once it is answered. *)
Definition asked (q : QuizState) : nat :=
  qs_current_index q + (if qs_answered q then 1 else 0).

(** The concept ids at the given positions of a batch. *)
Definition ids_at (concepts : list concept_row) (idxs : list nat)
  : list (option Z) :=
  map (fun j => option_map c_id (nth_error concepts j)) idxs.

(** Two concepts, a quiz just started on them. *)
Definition concept_A : concept_row :=
  {| c_id := 1; c_name := lit "firewall"; c_category := None;
     c_times_discussed := 1; c_understanding_level := 1;
     c_last_reviewed_at := None |}.

Definition concept_B : concept_row :=
  {| c_id := 2; c_name := lit "phishing"; c_category := None;
     c_times_discussed := 3; c_understanding_level := 2;
     c_last_reviewed_at := Some 10%Z |}.

Definition fresh_session (count : Z) : session_state :=
  {| session_id := 1; ss_messages := []; pydantic_messages := [];
     message_count := count; quiz_mode := false; quiz_concepts := [];
     awaiting_rating := false; quiz_state := None;
     pending_concept_question := None |}.

Definition quiz_started (count : Z) : world :=
  {| ss := start_quiz_mode [concept_A; concept_B] (fresh_session count);
     db := with_concepts [concept_A; concept_B] 2 empty_database;
     requests := [] |}.

(** A finished quiz on the batch of two concepts, waiting for the rating. *)
Definition two_concept_world : world :=
  {| ss := {| session_id := 1; ss_messages := []; pydantic_messages := [];
              message_count := 2; quiz_mode := true;
              quiz_concepts := [concept_A; concept_B];
              awaiting_rating := true;
              quiz_state :=
                Some (create_initial_quiz_state [concept_A; concept_B]);
              pending_concept_question := None |};
     db := with_concepts [concept_A; concept_B] 2 empty_database;
     requests := [] |}.

(** Replies of the LLM service: an HTTP error, text that is no quiz, and
    a reply in the requested format. *)
Definition llm_down : agent :=
  fun _ _ => Raised (ModelHTTPError 500 None).

Definition llm_rambling : agent :=
  fun _ _ => Returned (lit "I would rather talk about something else.", []).

Definition llm_quiz : agent :=
  fun _ _ =>
    Returned (well_formed_response [] (lit "What does it do?")
                (lit "one") (lit "two") (lit "three") (lit "four") LB
                (lit "because") (lit "no") (lit "yes") (lit "no") (lit "no"),
              []).

Definition run_with (widget_fired : widget) (a : agent) : env :=
  {| fired := widget_fired; llm := a; now := fun k => Z.of_nat k |}.

(** What holds of a quiz in progress on [concepts]: its results carry the
    ids of the concepts at the positions [idxs], which increase strictly
    and lie among the questions asked so far. *)
Definition quiz_inv (concepts : list concept_row) (q : QuizState)
                    (idxs : list nat) : Prop :=
  qs_concepts q = concepts /\
  map (fun r => Some (concept_id r)) (qs_results q) = ids_at concepts idxs /\
  StronglySorted lt idxs /\
  Forall (fun j => j < asked q) idxs /\
  Forall (fun j => j < length concepts) idxs.

(* ====================================================================== *)
(** ** Further code of src/database.py and components/sidebar.py *)
(* ====================================================================== *)

From Stdlib Require Import Permutation.

Module Store.

Local Open Scope Z_scope.

Definition set_last_reviewed (reviewed_at : Z) (row : concept_row)
  : concept_row :=
  {| c_id := c_id row; c_name := c_name row; c_category := c_category row;
     c_times_discussed := c_times_discussed row;
     c_understanding_level := c_understanding_level row;
     c_last_reviewed_at := Some reviewed_at |}.

(** [now] is the value [datetime.now()] yields in this call. *)
Definition mark_concept_reviewed (now : Z) (concept_id : Z) (d : database)
  : database :=
  with_concepts
    (update_where_id concept_id (set_last_reviewed now) (concepts d))
    (concepts_seq d) d.

(** [last_reviewed_at IS NULL OR last_reviewed_at < datetime('now', '-7
    days')]; [cutoff] is the value of that [datetime] call. *)
Definition review_is_due (cutoff : Z) (row : concept_row) : bool :=
  match c_last_reviewed_at row with
  | None => true
  | Some t => t <? cutoff
  end.

(** The WHERE clause of [get_concepts_needing_review]. *)
Definition needs_review_where (cutoff : Z) (row : concept_row) : bool :=
  (c_understanding_level row <? 3) || review_is_due cutoff row.

(** The WHERE clause of [get_concepts_for_quiz]. *)
Definition for_quiz_where (cutoff : Z) (row : concept_row) : bool :=
  (c_understanding_level row <? 4) || review_is_due cutoff row.

(** [CASE WHEN last_reviewed_at IS NULL THEN 0 ELSE 1 END] *)
Definition reviewed_flag (row : concept_row) : Z :=
  match c_last_reviewed_at row with
  | None => 0
  | Some _ => 1
  end.

(** [last_reviewed_at ASC] between two rows; NULL sorts first. *)
Definition reviewed_le (a b : concept_row) : bool :=
  match c_last_reviewed_at a, c_last_reviewed_at b with
  | None, _ => true
  | Some _, None => false
  | Some x, Some y => x <=? y
  end.

Definition reviewed_eq (a b : concept_row) : bool :=
  match c_last_reviewed_at a, c_last_reviewed_at b with
  | None, None => true
  | Some x, Some y => x =? y
  | _, _ => false
  end.

(** [ORDER BY understanding_level ASC, CASE ... END, last_reviewed_at ASC]:
    whether [a] may come before [b]. *)
Definition quiz_order (a b : concept_row) : bool :=
  (c_understanding_level a <? c_understanding_level b)
  || ((c_understanding_level a =? c_understanding_level b)
      && ((reviewed_flag a <? reviewed_flag b)
          || ((reviewed_flag a =? reviewed_flag b) && reviewed_le a b))).

(** [ORDER BY CASE ... END, understanding_level ASC, last_reviewed_at ASC] *)
Definition review_order (a b : concept_row) : bool :=
  (reviewed_flag a <? reviewed_flag b)
  || ((reviewed_flag a =? reviewed_flag b)
      && ((c_understanding_level a <? c_understanding_level b)
          || ((c_understanding_level a =? c_understanding_level b)
              && reviewed_le a b))).

(** What [get_concepts_for_quiz(limit)] may return, for a [limit] that is
    not negative: the first [limit] rows of the selected rows put in the
    order of the ORDER BY clause. SQL leaves the order of rows with equal
    keys open, so this is a relation. *)
Definition get_concepts_for_quiz_returns
    (cutoff : Z) (limit : nat) (d : database) (result : list concept_row)
  : Prop :=
  exists ordered,
    Permutation ordered (filter (for_quiz_where cutoff) (concepts d)) /\
    StronglySorted (fun a b => quiz_order a b = true) ordered /\
    result = firstn limit ordered.

(** What [get_concepts_needing_review()] may return. *)
Definition get_concepts_needing_review_returns
    (cutoff : Z) (d : database) (result : list concept_row) : Prop :=
  Permutation result (filter (needs_review_where cutoff) (concepts d)) /\
  StronglySorted (fun a b => review_order a b = true) result.

(** [concept["category"] or "Uncategorized"] *)
Definition category_or_default (row : concept_row) : pystr :=
  match c_category row with
  | Some (c :: s) => c :: s
  | _ => lit "Uncategorized"
  end.

(** [grouped[category].append(concept)] on a dict of lists. *)
Fixpoint group_append (category : pystr) (row : concept_row)
                      (grouped : list (pystr * list concept_row))
  : list (pystr * list concept_row) :=
  match grouped with
  | [] => []
  | (k, rows) :: rest =>
      if eqb category k then (k, rows ++ [row]) :: rest
      else (k, rows) :: group_append category row rest
  end.

(** [category in grouped] *)
Definition group_has (category : pystr)
                     (grouped : list (pystr * list concept_row)) : bool :=
  existsb (fun kv => eqb category (fst kv)) grouped.

(** [grouped[category]] as [dict.get] would give it. *)
Fixpoint group_get (category : pystr)
                   (grouped : list (pystr * list concept_row))
  : option (list concept_row) :=
  match grouped with
  | [] => None
  | (k, rows) :: rest =>
      if eqb category k then Some rows else group_get category rest
  end.

(** One iteration of the loop of [get_concepts_by_category]. *)
Definition group_step (grouped : list (pystr * list concept_row))
                      (concept : concept_row) :=
  let category := category_or_default concept in
  let grouped1 :=
    if group_has category grouped then grouped
    else grouped ++ [(category, [])] in
  group_append category concept grouped1.

(** [get_concepts_by_category]; [all_concepts] is what
    [get_all_concepts()] returned. *)
Definition get_concepts_by_category (all_concepts : list concept_row)
  : list (pystr * list concept_row) :=
  fold_left group_step all_concepts [].

(** [content[:n]] for any integer [n]. *)
Definition slice_to (n : Z) (s : pystr) : pystr :=
  if 0 <=? n then firstn (Z.to_nat n) s
  else firstn (Z.to_nat (Z.of_nat (length s) + n)) s.

(** [get_session_title]; [session_messages] is what
    [get_session_messages(session_id)] returned. *)
Fixpoint get_session_title (session_messages : list message_row)
                           (max_length : Z) : pystr :=
  match session_messages with
  | [] => lit "New session"
  | msg :: rest =>
      if eqb (m_role msg) (lit "user") then
        let content := m_content msg in
        if max_length <? Z.of_nat (length content)
        then strip (slice_to max_length content) ++ lit "..."
        else content
      else get_session_title rest max_length
  end.

End Store.
Import Store.

Module Sidebar.

(** components/sidebar.py, [load_session]; [from_db] is what
    [db.get_session_messages(session_id)] returned. *)
Definition load_session (id : Z) (from_db : list message_row)
                        (s : session_state) : session_state :=
  {| session_id := id;
     ss_messages := map (fun msg => (m_role msg, m_content msg)) from_db;
     pydantic_messages := [];
     message_count := 0;
     quiz_mode := false;
     quiz_concepts := [];
     awaiting_rating := false;
     quiz_state := None;
     pending_concept_question := pending_concept_question s |}.

End Sidebar.
Import Sidebar.

(* ====================================================================== *)
(** ** Further definitions used to state properties *)
(* ====================================================================== *)

(** A string without white space at either end. *)
Definition stripped (s : pystr) : Prop :=
  lstrip s = s /\ lstrip (rev s) = rev s.

(** The markers a reply cannot do without. *)
Definition REQUIRED_MARKERS : list pystr :=
  [lit "QUESTION:"; lit "A)"; lit "B)"; lit "C)"; lit "D)";
   lit "CORRECT:"; lit "CORRECT_EXPLANATION:"].

(** The constraints of the [concepts] table and of its data: ids and names
    are unique, no id is above the AUTOINCREMENT counter, every level lies
    in 1..5 and every count is at least 1. *)
Definition store_ok (d : database) : Prop :=
  NoDup (map c_id (concepts d)) /\
  NoDup (map c_name (concepts d)) /\
  Forall (fun row => (c_id row <= concepts_seq d)%Z) (concepts d) /\
  Forall (fun row => (1 <= c_understanding_level row <= 5)%Z) (concepts d) /\
  Forall (fun row => (1 <= c_times_discussed row)%Z) (concepts d).

(** The discussion count stored under a name, 0 when there is no row. *)
Definition times_discussed_of (name : pystr) (d : database) : Z :=
  match get_concept_by_name name d with
  | Some row => c_times_discussed row
  | None => 0%Z
  end.

(** A quiz state as the flow keeps it: the index is within the batch or
    just past it; a question on display belongs to a concept of the batch
    and has its four options and a correct letter; an answered question is
    on display and was answered with one of the four letters. *)
Definition quiz_shape (q : QuizState) : Prop :=
  qs_current_index q <= length (qs_concepts q) /\
  (qs_loading q = false ->
   qs_current_index q < length (qs_concepts q) /\
   keys (qs_options q) = LETTERS /\ In (qs_correct q) LETTERS) /\
  (qs_answered q = true ->
   qs_loading q = false /\
   exists l, qs_user_answer q = Some (letter_str l)).

(** A reply in the requested format, and what it parses to. *)
Definition sample_reply : pystr :=
  well_formed_response [] (lit "What does it do?")
    (lit "one") (lit "two") (lit "three") (lit "four") LB
    (lit "because") (lit "no") (lit "yes") (lit "no") (lit "no").

Definition sample_question : quiz_data :=
  Eval vm_compute in
    match parse_quiz_response sample_reply with
    | Returned (Some q) => q
    | _ => {| qd_question := []; qd_options := []; qd_correct := [];
              qd_correct_explanation := []; qd_explanations := [];
              qd_concept_name := None |}
    end.

(** An LLM service that answers every prompt with the same explanation. *)
Definition llm_teacher : agent :=
  fun _ _ =>
    Returned (lit "A firewall filters packets; a good Firewall also logs them.",
              [lit "turn"]).

Definition empty_world : world :=
  {| ss := fresh_session 0; db := empty_database; requests := [] |}.

(** The first-listed entries of the table, written out. *)
Definition FIRST_LISTED : list (pystr * pystr) :=
  Eval vm_compute in first_listed TABLE_PAIRS.

(** The moves of the quiz flow from one run of [main] to the next, for a
    batch of [n] concepts. *)
Definition quiz_move (n : nat) (p p' : phase) : bool :=
  match p, p' with
  | Idle, Idle => true
  | AwaitingQuestion i, AwaitingQuestion j => (j =? i) || (j =? S i)
  | AwaitingQuestion i, ShowingQuestion j => j =? i
  | AwaitingQuestion _, Idle => true
  | ShowingQuestion i, ShowingQuestion j => j =? i
  | ShowingQuestion i, ShowingAnswer j => j =? i
  | ShowingQuestion _, Idle => true
  | ShowingAnswer i, ShowingAnswer j => j =? i
  | ShowingAnswer i, AwaitingQuestion j => (j =? S i) && (j <? n)
  | ShowingAnswer _, AwaitingRating => true
  | AwaitingRating, AwaitingRating => true
  | AwaitingRating, Idle => true
  | _, _ => false
  end.

(** The size of the batch of the quiz in progress, 0 without one. *)
Definition batch_size (s : session_state) : nat :=
  match quiz_state s with
  | Some q => length (qs_concepts q)
  | None => 0
  end.

(** The stored messages of a session, in the order of their insertion. *)
Definition session_rows (id : Z) (d : database) : list message_row :=
  filter (fun msg => (m_session_id msg =? id)%Z) (messages d).

(** The transcript on display is the one the store holds for the session. *)
Definition transcript_ok (w : world) : Prop :=
  ss_messages (ss w)
  = map (fun msg => (m_role msg, m_content msg))
        (session_rows (session_id (ss w)) (db w)).

(** Insertion sort by a boolean order, to exhibit an answer of a query with
    an ORDER BY clause. *)
Fixpoint insert_by {A} (le : A -> A -> bool) (x : A) (l : list A) : list A :=
  match l with
  | [] => [x]
  | y :: l' => if le x y then x :: l else y :: insert_by le x l'
  end.

Definition sort_by {A} (le : A -> A -> bool) (l : list A) : list A :=
  fold_right (insert_by le) [] l.

(** A third concept, well understood and reviewed at time 100, and a store
    of three concepts. *)
Definition concept_C : concept_row :=
  {| c_id := 3; c_name := lit "vpn";
     c_category := Some (lit "Network Security");
     c_times_discussed := 2; c_understanding_level := 5;
     c_last_reviewed_at := Some 100%Z |}.

Definition three_concepts : database :=
  with_concepts [concept_A; concept_B; concept_C] 3 empty_database.

(** The questions the quiz in progress may still ask for. *)
Definition quiz_left (s : session_state) : nat :=
  match phase_of s with
  | AwaitingQuestion i => batch_size s - i
  | ShowingQuestion i => batch_size s - S i
  | ShowingAnswer i => batch_size s - S i
  | _ => 0
  end.

(** Whether the run is made while the quiz is on. *)
Definition in_quiz (s : session_state) : bool :=
  quiz_active s && negb (awaiting_rating s).

(** The number of requests sent by those runs of a sequence that are made
    while the quiz is on. *)
Fixpoint quiz_requests (es : list env) (w : world) : nat :=
  match es with
  | [] => 0
  | e :: es' =>
      (if in_quiz (ss w)
       then length (requests (fst (main e w))) - length (requests w)
       else 0)
      + quiz_requests es' (fst (main e w))
  end.

(* ====================================================================== *)
(** ** Replies without a CORRECT: line *)
(* ====================================================================== *)

(** The lines of a text. *)
Fixpoint split_lines (s : pystr) : list pystr :=
  match s with
  | [] => [[]]
  | c :: s' =>
      if Ascii.eqb c newline then [] :: split_lines s'
      else match split_lines s' with
           | line :: more => (c :: line) :: more
           | [] => [[c]]
           end
  end.

(** A CORRECT: line, in the words of the specification: a line that
    begins, after any white space, with the marker CORRECT:. *)
Definition is_correct_line (line : pystr) : bool :=
  startswith (lit "CORRECT:") (lstrip line).

Definition has_correct_line (text : pystr) : bool :=
  existsb is_correct_line (split_lines text).

(** What the pattern for the answer looks for: the text CORRECT: anywhere,
    also inside a line or a word, followed after any white space by one of
    the letters A to D. *)
Fixpoint names_answer (s : pystr) : bool :=
  (startswith (lit "CORRECT:") s
   && match lstrip (skipn 8 s) with
      | c :: _ => range "A" "D" c
      | [] => false
      end)
  || match s with
     | [] => false
     | _ :: s' => names_answer s'
     end.

(** A reply with no CORRECT: line, in which an explanation calls option A
    INCORRECT. *)
Definition reply_without_correct_line : pystr :=
  lines [ "QUESTION: What does a firewall do?";
          "A) It encrypts files";
          "B) It filters traffic";
          "C) It cracks passwords";
          "D) It sends spam";
          "CORRECT_EXPLANATION: A firewall filters traffic.";
          "A_EXPLANATION: INCORRECT: A firewall does not encrypt.";
          "B_EXPLANATION: This is what it does.";
          "C_EXPLANATION: That is an attack.";
          "D_EXPLANATION: That is abuse." ].
(* ====================================================================== *)
(** * Properties *)
(* ====================================================================== *)

(** ** Python strings *)

Lemma pystr_eqb_eq (a b : pystr) : eqb a b = true <-> a = b.
Proof.
  revert b. induction a as [|x a IH]; intros [|y b]; simpl;
    try (split; [discriminate | discriminate]); [tauto|].
  rewrite andb_true_iff, Ascii.eqb_eq, IH. split.
  - intros [-> ->]. reflexivity.
  - intros E. inversion E. tauto.
Qed.

Lemma pystr_eqb_refl (a : pystr) : eqb a a = true.
Proof. now apply pystr_eqb_eq. Qed.

(** ** Concept extraction *)

Example extract_demo :
  extract_concepts (lit "An Exploit kit drops malware") =
  [(lit "malware", lit "Malware"); (lit "exploit", lit "Malware")].
Proof. vm_compute. reflexivity. Qed.

Section Dedup.

Lemma unique_loop_keep_first l : forall seen unique,
  snd (fold_left unique_step l (seen, unique))
  = unique ++ keep_first seen l.
Proof.
  induction l as [|x l IH]; intros seen unique; simpl.
  - now rewrite app_nil_r.
  - destruct (existsb (eqb (lower (fst x))) seen).
    + apply IH.
    + rewrite IH, <- app_assoc. reflexivity.
Qed.

Lemma keep_first_incl l : forall seen x,
  In x (keep_first seen l) -> In x l.
Proof.
  induction l as [|y l IH]; intros seen x; simpl; [tauto|].
  destruct (existsb (eqb (lower (fst y))) seen).
  - intro H. right. eauto.
  - intros [H|H]; [now left | right; eauto].
Qed.

Lemma keep_first_avoids_seen l : forall seen x,
  In x (keep_first seen l) -> ~ In (lower (fst x)) seen.
Proof.
  induction l as [|y l IH]; intros seen x; simpl; [tauto|].
  destruct (existsb (eqb (lower (fst y))) seen) eqn:E.
  - apply IH.
  - intros [H|H].
    + subst y. intro Hin.
      assert (existsb (eqb (lower (fst x))) seen = true) as E'.
      { apply existsb_exists. exists (lower (fst x)). split; trivial.
        apply pystr_eqb_refl. }
      congruence.
    + intro Hin. apply (IH _ _ H). now right.
Qed.

Lemma keep_first_NoDup l : forall seen,
  NoDup (map (fun p => lower (fst p)) (keep_first seen l)).
Proof.
  induction l as [|y l IH]; intros seen; simpl; [constructor|].
  destruct (existsb (eqb (lower (fst y))) seen); [apply IH|].
  simpl. constructor; [|apply IH].
  intro Hin. apply in_map_iff in Hin. destruct Hin as [x [Hx Hin]].
  apply keep_first_avoids_seen in Hin. apply Hin. left. now symmetry.
Qed.

Lemma keep_first_ext l : forall s1 s2,
  (forall x, In x l ->
     existsb (eqb (lower (fst x))) s1 = existsb (eqb (lower (fst x))) s2) ->
  keep_first s1 l = keep_first s2 l.
Proof.
  induction l as [|y l IH]; intros s1 s2 H; simpl; [reflexivity|].
  rewrite <- (H y (or_introl eq_refl)).
  destruct (existsb (eqb (lower (fst y))) s1).
  - apply IH. intros x Hx. apply H. now right.
  - f_equal. apply IH. intros x Hx. simpl.
    now rewrite (H x (or_intror Hx)).
Qed.

Variable wanted : pystr -> bool.

(** Dropping the unwanted names before or after the loop is the same. *)
Lemma keep_first_filter l : forall seen,
  keep_first seen (filter (fun x => wanted (lower (fst x))) l)
  = filter (fun x => wanted (lower (fst x))) (keep_first seen l).
Proof.
  induction l as [|y l IH]; intros seen; simpl; [reflexivity|].
  destruct (wanted (lower (fst y))) eqn:Py; simpl.
  - destruct (existsb (eqb (lower (fst y))) seen); simpl.
    + apply IH.
    + rewrite Py. f_equal. apply IH.
  - destruct (existsb (eqb (lower (fst y))) seen) eqn:E; simpl.
    + apply IH.
    + rewrite Py, <- IH. apply keep_first_ext.
      intros x Hx. apply filter_In in Hx. destruct Hx as [_ Px].
      simpl. destruct (eqb (lower (fst x)) (lower (fst y))) eqn:Exy.
      * apply pystr_eqb_eq in Exy. congruence.
      * reflexivity.
Qed.

End Dedup.

Section Found.

Variable hit : pystr -> bool.

Lemma found_inner (category : pystr) keywords : forall found,
  fold_left (fun found keyword =>
               if hit keyword then found ++ [(keyword, category)]
               else found) keywords found
  = found ++ filter (fun item => hit (fst item))
                    (map (fun keyword => (keyword, category)) keywords).
Proof.
  induction keywords as [|k ks IH]; intros found; simpl.
  - now rewrite app_nil_r.
  - rewrite IH. destruct (hit k); simpl.
    + now rewrite <- app_assoc.
    + reflexivity.
Qed.

Lemma found_outer (table : list (pystr * list pystr)) : forall found,
  fold_left (fun found '(category, keywords) =>
               fold_left (fun found keyword =>
                            if hit keyword
                            then found ++ [(keyword, category)]
                            else found) keywords found)
            table found
  = found ++ filter (fun item => hit (fst item))
               (flat_map (fun '(category, keywords) =>
                            map (fun keyword => (keyword, category)) keywords)
                         table).
Proof.
  induction table as [|[category keywords] t IH]; intros found; simpl.
  - now rewrite app_nil_r.
  - rewrite IH, found_inner, filter_app, app_assoc. reflexivity.
Qed.

End Found.

(** The result of [extract_concepts] in closed form. *)
Lemma extract_concepts_eq text :
  extract_concepts text = keep_first [] (filter (mentioned text) TABLE_PAIRS).
Proof.
  unfold extract_concepts.
  rewrite unique_loop_keep_first, app_nil_l.
  rewrite (found_outer (fun keyword => contains (lower keyword) (lower text))
                       CONCEPT_KEYWORDS []).
  reflexivity.
Qed.

Lemma TABLE_PAIRS_in name category :
  In (name, category) TABLE_PAIRS ->
  exists keywords, In (category, keywords) CONCEPT_KEYWORDS /\ In name keywords.
Proof.
  unfold TABLE_PAIRS. intro H. apply in_flat_map in H.
  destruct H as [[c ks] [Hin H]]. apply in_map_iff in H.
  destruct H as [k [E Hk]]. inversion E; subst. eauto.
Qed.

Lemma first_listed_table : keep_first [] TABLE_PAIRS = first_listed TABLE_PAIRS.
Proof. vm_compute. reflexivity. Qed.

(** C8: for every text, no two names returned by [extract_concepts] are
    equal once lower-cased, and every returned pair is, character for
    character, a keyword of CONCEPT_KEYWORDS with the category it is listed
    under. *)
Theorem extract_concepts_unique_and_verbatim (text : pystr) :
  NoDup (map (fun item => lower (fst item)) (extract_concepts text)) /\
  Forall (fun item =>
            exists keywords,
              In (snd item, keywords) CONCEPT_KEYWORDS /\
              In (fst item) keywords)
         (extract_concepts text).
Proof.
  rewrite extract_concepts_eq. split.
  - apply keep_first_NoDup.
  - apply Forall_forall. intros [name category] Hin.
    apply keep_first_incl in Hin. apply filter_In in Hin.
    destruct Hin as [Hin _]. now apply TABLE_PAIRS_in.
Qed.

(** C10: the pairs come out in the table's iteration order whatever the
    text: the result is the fixed list of first-listed table entries,
    thinned to the keywords the text mentions. A keyword listed twice comes
    with its first category: "exploit" is returned under Malware only. *)
Theorem extract_concepts_table_order (text : pystr) :
  extract_concepts text
  = filter (mentioned text) (first_listed TABLE_PAIRS) /\
  categories_of (lit "exploit") (extract_concepts text)
  = if contains (lit "exploit") (lower text) then [lit "Malware"] else [].
Proof.
  assert (extract_concepts text
          = filter (mentioned text) (first_listed TABLE_PAIRS)) as E.
  { rewrite extract_concepts_eq, <- first_listed_table.
    apply (keep_first_filter (fun k => contains k (lower text))). }
  split; [exact E|].
  rewrite E. unfold categories_of.
  assert (forall (A : Type) (f g : A -> bool) l,
             filter f (filter g l) = filter g (filter f l)) as comm.
  { intros A f g l. induction l as [|a l IH]; simpl; [reflexivity|].
    destruct (f a) eqn:Fa, (g a) eqn:Ga; simpl;
      rewrite ?Fa, ?Ga, IH; reflexivity. }
  rewrite comm.
  assert (filter (fun item => eqb (fst item) (lit "exploit"))
                 (first_listed TABLE_PAIRS)
          = [(lit "exploit", lit "Malware")]) as T
      by (vm_compute; reflexivity).
  rewrite T. cbn [filter map snd]. unfold mentioned.
  change (lower (fst (lit "exploit", lit "Malware"))) with (lit "exploit").
  destruct (contains (lit "exploit") (lower text)); reflexivity.
Qed.

(** ** The concept store *)

Section ConceptRows.

Local Open Scope Z_scope.

Variable f : concept_row -> concept_row.
Hypothesis f_id : forall row, c_id (f row) = c_id row.
Hypothesis f_name : forall row, c_name (f row) = c_name row.

Lemma find_id_update (id id' : Z) rows :
  find (fun row => c_id row =? id) (update_where_id id' f rows)
  = if id' =? id
    then option_map f (find (fun row => c_id row =? id) rows)
    else find (fun row => c_id row =? id) rows.
Proof.
  unfold update_where_id.
  induction rows as [|r rows IH]; simpl.
  - destruct (id' =? id); reflexivity.
  - rewrite IH. clear IH.
    destruct (Z.eqb_spec (c_id r) id') as [E1|E1].
    + rewrite f_id. subst id'.
      destruct (c_id r =? id); reflexivity.
    + destruct (Z.eqb_spec (c_id r) id) as [E3|E3].
      * subst id. destruct (Z.eqb_spec id' (c_id r)); [congruence|].
        reflexivity.
      * destruct (id' =? id); reflexivity.
Qed.

Lemma find_name_update (name : pystr) (id : Z) rows :
  find (fun row => eqb (c_name row) name) (update_where_id id f rows)
  = option_map (fun row => if c_id row =? id then f row else row)
               (find (fun row => eqb (c_name row) name) rows).
Proof.
  unfold update_where_id.
  induction rows as [|r rows IH]; simpl; [reflexivity|].
  assert (c_name (if c_id r =? id then f r else r) = c_name r) as ->
      by (destruct (c_id r =? id); [apply f_name | reflexivity]).
  destruct (eqb (c_name r) name); [reflexivity | apply IH].
Qed.

Lemma filter_name_update (name : pystr) (id : Z) rows :
  length (filter (fun row => eqb (c_name row) name)
                 (update_where_id id f rows))
  = length (filter (fun row => eqb (c_name row) name) rows).
Proof.
  unfold update_where_id.
  induction rows as [|r rows IH]; simpl; [reflexivity|].
  assert (c_name (if c_id r =? id then f r else r) = c_name r) as ->
      by (destruct (c_id r =? id); [apply f_name | reflexivity]).
  destruct (eqb (c_name r) name); simpl; rewrite IH; reflexivity.
Qed.

End ConceptRows.

Lemma find_none_filter_nil (A : Type) (p : A -> bool) l :
  find p l = None -> filter p l = [].
Proof.
  induction l as [|a l IH]; simpl; [reflexivity|].
  destruct (p a); [discriminate | exact IH].
Qed.

Lemma find_some_filter_pos (A : Type) (p : A -> bool) l x :
  find p l = Some x -> 1 <= length (filter p l).
Proof.
  induction l as [|a l IH]; simpl; [discriminate|].
  destruct (p a); simpl; [lia | exact IH].
Qed.

Lemma find_app_none (A : Type) (p : A -> bool) l x :
  find p l = None -> find p (l ++ [x]) = if p x then Some x else None.
Proof.
  induction l as [|a l IH]; simpl; [reflexivity|].
  destruct (p a); [discriminate | exact IH].
Qed.

(** C7: whatever integer is passed, the level read back for the concept
    after [update_concept_understanding] is the input brought into 1..5:
    above 5 it is 5 (9 gives 5), below 1 it is 1 (-3 gives 1), and a level
    within the range is stored as it is. *)
Theorem update_concept_understanding_clamps (now id level : Z) (d : database) :
  option_map c_understanding_level
    (concept_with_id id (update_concept_understanding now id level d))
  = option_map (fun _ => clamped level) (concept_with_id id d).
Proof.
  unfold concept_with_id, update_concept_understanding. simpl.
  rewrite find_id_update by reflexivity. rewrite Z.eqb_refl.
  destruct (find (fun row => (c_id row =? id)%Z) (concepts d)); simpl;
    [|reflexivity].
  f_equal. unfold clamped.
  destruct (Z.ltb_spec 5 level), (Z.ltb_spec level 1); lia.
Qed.

Example clamp_examples :
  let row := {| c_id := 7; c_name := lit "firewall"; c_category := None;
                c_times_discussed := 1; c_understanding_level := 2;
                c_last_reviewed_at := None |} in
  let d := with_concepts [row] 7 empty_database in
  map c_understanding_level (concepts (update_concept_understanding 100 7 9 d))
  = [5%Z] /\
  map c_understanding_level
      (concepts (update_concept_understanding 100 7 (-3) d))
  = [1%Z] /\
  map c_understanding_level (concepts (update_concept_understanding 100 7 4 d))
  = [4%Z].
Proof. repeat split. Qed.

(** C9: [save_concept] is an upsert keyed by name. If a row with the name
    exists, the table keeps its length, that row's times_discussed goes up
    by one and its id is returned; otherwise exactly one row is appended,
    with times_discussed 1. Either way the number of rows with that name
    only changes from none to one, and after a second save of the same name
    the count read back is two more than before (2 for a new name). *)
Theorem save_concept_upsert (name : pystr) (category category' : option pystr)
                            (d : database) :
  let d1 := fst (save_concept name category d) in
  let d2 := fst (save_concept name category' d1) in
  match get_concept_by_name name d with
  | Some row =>
      length (concepts d1) = length (concepts d) /\
      snd (save_concept name category d) = c_id row /\
      get_concept_by_name name d1
      = Some (set_times_discussed (c_times_discussed row + 1) row)
  | None =>
      concepts d1
      = concepts d ++ [{| c_id := snd (save_concept name category d);
                          c_name := name;
                          c_category := category;
                          c_times_discussed := 1;
                          c_understanding_level := 1;
                          c_last_reviewed_at := None |}]
  end /\
  count_named name d1 = Nat.max 1 (count_named name d) /\
  count_named name d2 = count_named name d1 /\
  option_map c_times_discussed (get_concept_by_name name d2)
  = Some (match get_concept_by_name name d with
          | Some row => c_times_discussed row + 2
          | None => 2
          end)%Z.
Proof.
  assert (forall c (e : database),
    match get_concept_by_name name e with
    | Some row =>
        length (concepts (fst (save_concept name c e))) = length (concepts e) /\
        snd (save_concept name c e) = c_id row /\
        get_concept_by_name name (fst (save_concept name c e))
        = Some (set_times_discussed (c_times_discussed row + 1) row) /\
        count_named name (fst (save_concept name c e)) = count_named name e /\
        1 <= count_named name e
    | None =>
        concepts (fst (save_concept name c e))
        = concepts e ++ [{| c_id := snd (save_concept name c e);
                            c_name := name;
                            c_category := c;
                            c_times_discussed := 1;
                            c_understanding_level := 1;
                            c_last_reviewed_at := None |}] /\
        count_named name (fst (save_concept name c e)) = 1 /\
        count_named name e = 0 /\
        option_map c_times_discussed
          (get_concept_by_name name (fst (save_concept name c e))) = Some 1%Z
    end) as one.
  { intros c e. unfold get_concept_by_name, save_concept, count_named.
    destruct (select_concept_by_name name e) as [row|] eqn:E;
      unfold select_concept_by_name in *; simpl.
    - unfold update_where_id at 1. rewrite length_map.
      rewrite find_name_update, filter_name_update by reflexivity.
      rewrite E. simpl. rewrite Z.eqb_refl.
      repeat split. eapply find_some_filter_pos; eauto.
    - rewrite filter_app, length_app, (find_none_filter_nil _ _ E).
      rewrite (find_app_none _ _ _ E). simpl. rewrite pystr_eqb_refl.
      repeat split. }
  intros d1 d2.
  pose proof (one category d) as H1. pose proof (one category' d1) as H2.
  fold d1 in H1. fold d2 in H2.
  destruct (get_concept_by_name name d) as [row|] eqn:E.
  - destruct H1 as (L & I & G & C & P). rewrite G in H2.
    destruct H2 as (_ & _ & G2 & C2 & _).
    repeat split; trivial; try lia.
    rewrite G2. simpl. f_equal. lia.
  - destruct H1 as (A & C & Z0 & T).
    destruct (get_concept_by_name name d1) as [row1|] eqn:E1;
      [|discriminate T].
    destruct H2 as (_ & _ & G2 & C2 & _).
    repeat split; trivial; try lia.
    rewrite G2. simpl in *. inversion T. f_equal. lia.
Qed.

(** "firewall" in two assistant messages, starting from an empty store. *)
Example firewall_discussed_twice :
  let w0 := {| ss := fresh_session 0; db := empty_database; requests := [] |} in
  let w1 := save_and_track_message (lit "assistant")
              (lit "A firewall filters traffic between networks.") w0 in
  let w2 := save_and_track_message (lit "assistant")
              (lit "Put the database behind a Firewall.") w1 in
  option_map c_times_discussed (get_concept_by_name (lit "firewall") (db w2))
  = Some 2%Z /\
  count_named (lit "firewall") (db w2) = 1 /\
  length (filter (fun m => Z.eqb (cm_concept_id m) 1) (concept_mentions (db w2)))
  = 2.
Proof. vm_compute. repeat split. Qed.

(** ** The blanket rating *)

(** While the rating is awaited, [main] only draws the rating buttons. *)
Lemma main_awaiting_rating e w :
  phase_of (ss w) = AwaitingRating ->
  main e w = render_understanding_rating e w.
Proof.
  unfold phase_of, main.
  destruct (quiz_active (ss w) && negb (awaiting_rating (ss w))).
  - destruct (quiz_state (ss w)) as [q|]; [|discriminate].
    destruct (qs_answered q); [discriminate|].
    destruct (qs_loading q); discriminate.
  - destruct (quiz_mode (ss w) && awaiting_rating (ss w));
      [reflexivity | discriminate].
Qed.

Lemma set_understanding_twice (l t t' : Z) (o : option concept_row) :
  option_map (set_understanding l t') (option_map (set_understanding l t) o)
  = option_map (set_understanding l t') o.
Proof. destruct o; reflexivity. Qed.

Lemma concept_with_id_update (now id id' level : Z) (d : database) :
  concept_with_id id (update_concept_understanding now id' level d)
  = if (id' =? id)%Z
    then option_map (set_understanding (Z.max 1 (Z.min 5 level)) now)
                    (concept_with_id id d)
    else concept_with_id id d.
Proof.
  unfold concept_with_id, update_concept_understanding. simpl.
  now rewrite find_id_update by reflexivity.
Qed.

(** After the loop, a concept of the batch carries the level and one of
    the clock readings of the loop; any other concept is as before. *)
Lemma update_each_row (clock : nat -> Z) (level id : Z) batch :
  forall k d,
    (In id (map c_id batch) ->
     exists k', k <= k' < k + length batch /\
       concept_with_id id (update_each clock k batch level d)
       = option_map (set_understanding (Z.max 1 (Z.min 5 level)) (clock k'))
                    (concept_with_id id d)) /\
    (~ In id (map c_id batch) ->
     concept_with_id id (update_each clock k batch level d)
     = concept_with_id id d).
Proof.
  induction batch as [|c rest IH]; intros k d; simpl.
  - split; [tauto | reflexivity].
  - destruct (IH (S k)
                (update_concept_understanding (clock k) (c_id c) level d))
      as [IHin IHout].
    destruct (in_dec Z.eq_dec id (map c_id rest)) as [Hin|Hout].
    + split; [intros _ | tauto].
      destruct (IHin Hin) as (k' & Hk & E). exists k'. split; [lia|].
      rewrite E, concept_with_id_update.
      destruct (c_id c =? id)%Z; [apply set_understanding_twice | reflexivity].
    + split.
      * intros [E|Hin]; [|tauto]. exists k. split; [lia|].
        rewrite (IHout Hout), concept_with_id_update.
        subst id. now rewrite Z.eqb_refl.
      * intros Hno. rewrite (IHout Hout), concept_with_id_update.
        destruct (Z.eqb_spec (c_id c) id); [tauto | reflexivity].
Qed.

(** C4: one submitted rating reaches every concept of the quiz batch. For
    each concept of the batch, the row read back afterwards has the
    submitted level (a level of 1..5, as the three rating buttons send) as
    its understanding_level, and its last_reviewed_at is a clock reading
    taken during this submission. *)
Theorem rating_applies_to_every_concept
        (clock : nat -> Z) (level : Z) (w : world) (concept : concept_row) :
  In concept (quiz_concepts (ss w)) ->
  (1 <= level <= 5)%Z ->
  let before := concept_with_id (c_id concept) (db w) in
  let after :=
    concept_with_id (c_id concept) (db (update_quiz_understanding clock level w))
  in
  option_map c_understanding_level after = option_map (fun _ => level) before /\
  exists k, k < length (quiz_concepts (ss w)) /\
    option_map c_last_reviewed_at after
    = option_map (fun _ => Some (clock k)) before.
Proof.
  intros Hin Hlevel before after.
  destruct (update_each_row clock level (c_id concept) (quiz_concepts (ss w))
                            0 (db w)) as [H _].
  destruct (H (in_map c_id _ _ Hin)) as (k & Hk & E).
  assert (after
          = option_map (set_understanding (Z.max 1 (Z.min 5 level)) (clock k))
                       before) as ->
      by exact E.
  replace (Z.max 1 (Z.min 5 level)) with level by lia.
  split.
  - destruct before; reflexivity.
  - exists k. split; [lia|]. destruct before; reflexivity.
Qed.

Lemma rating_applies_to_every_concept_witness :
  let w := two_concept_world in
  let after := concept_with_id 2 (db (update_quiz_understanding
                                        (fun k => 100 + Z.of_nat k)%Z 5 w)) in
  option_map c_understanding_level after
  = option_map (fun _ => 5%Z) (concept_with_id 2 (db w)) /\
  exists k, k < 2 /\
    option_map c_last_reviewed_at after
    = option_map (fun _ => Some (100 + Z.of_nat k)%Z) (concept_with_id 2 (db w)).
Proof.
  apply (@rating_applies_to_every_concept
           (fun k => 100 + Z.of_nat k)%Z 5 two_concept_world
           concept_B).
  - simpl. right. left. reflexivity.
  - lia.
Defined.

(** The "Got it!" button on a finished batch [A; B]. *)
Example rating_5_on_batch_A_B :
  let e := {| fired := Rating5;
              llm := fun _ _ => Raised OtherException;
              now := fun k => (100 + Z.of_nat k)%Z |} in
  let w' := fst (main e two_concept_world) in
  map (fun row => (c_id row, c_understanding_level row, c_last_reviewed_at row))
      (concepts (db w'))
  = [(1, 5, Some 100); (2, 5, Some 101)]%Z /\
  quiz_mode (ss w') = false /\ quiz_state (ss w') = None /\
  requests w' = [].
Proof. vm_compute. repeat split. Qed.

(** ** The matcher *)

Section Matcher.

Context {R : Type}.

(** Whatever holds of all results of the continuation holds of the
    result of the loop. *)
Lemma star_greedy_post (P : R -> Prop) p k :
  (forall s' x, k s' = Some x -> P x) ->
  forall s x, star_greedy p s k = Some x -> P x.
Proof.
  intros H. induction s as [|c s IH]; simpl; intros x E.
  - eauto.
  - destruct (p c); [|eauto].
    destruct (star_greedy p s k) eqn:E'; [inversion E; subst|]; eauto.
Qed.

Lemma plus_lazy_post (P : R -> Prop) p k :
  (forall s' x, k s' = Some x -> P x) ->
  forall s x, plus_lazy p s k = Some x -> P x.
Proof.
  intros H. induction s as [|c s IH]; simpl; intros x E; [discriminate|].
  destruct (p c); [|discriminate].
  destruct (k s) eqn:E'; [inversion E; subst|]; eauto.
Qed.

(** The loop succeeds as soon as the continuation does after some run of
    characters of the class. *)
Lemma star_greedy_ok p (k : pystr -> option R) s :
  k s <> None -> star_greedy p s k <> None.
Proof.
  destruct s as [|c s]; simpl; [tauto|]. intros H.
  destruct (p c); [|exact H].
  destruct (star_greedy p s k); [discriminate | exact H].
Qed.

Lemma plus_lazy_ok (k : pystr -> option R) x : forall c rest,
  k rest <> None -> plus_lazy dot_all (c :: x ++ rest) k <> None.
Proof.
  assert (forall c s, plus_lazy dot_all (c :: s) k
                      = match k s with
                        | Some r => Some r
                        | None => plus_lazy dot_all s k
                        end) as step by reflexivity.
  induction x as [|d x IH]; intros c rest H; rewrite step.
  - simpl. destruct (k rest); [discriminate | tauto].
  - change ((d :: x) ++ rest) with (d :: x ++ rest).
    destruct (k (d :: x ++ rest)); [discriminate|]. now apply IH.
Qed.

End Matcher.

Lemma exec_post (r : regex) :
  forall (R : Type) (P : R -> Prop) s g k,
    (forall s' g' x,
        (g <> None \/ captures r = true -> g' <> None) ->
        k s' g' = Some x -> P x) ->
    forall x, exec r s g k = Some x -> P x.
Proof.
  induction r as [l | p | p | p | r IHr | r IHr | r1 IHr1 r2 IHr2
                 | | r1 IHr1 r2 IHr2];
    intros R P s g k H x E; simpl in E.
  - destruct (startswith l s); [|discriminate].
    eapply H; [|exact E]. simpl. intros [?|?]; [trivial | discriminate].
  - destruct s as [|c s]; [discriminate|].
    destruct (p c); [|discriminate].
    eapply H; [|exact E]. simpl. intros [?|?]; [trivial | discriminate].
  - eapply (@star_greedy_post _ P); [|exact E].
    intros s' y Ey. eapply H; [|exact Ey].
    simpl. intros [?|?]; [trivial | discriminate].
  - eapply (@plus_lazy_post _ P); [|exact E].
    intros s' y Ey. eapply H; [|exact Ey].
    simpl. intros [?|?]; [trivial | discriminate].
  - eapply IHr; [|exact E]. intros s' g' y _ Ey.
    eapply H; [|exact Ey]. discriminate.
  - destruct (exec r s g (fun _ _ => Some tt)); [|discriminate].
    eapply H; [|exact E]. simpl. intros [?|?]; [trivial | discriminate].
  - destruct (exec r1 s g k) eqn:E1.
    + inversion E; subst. eapply IHr1; [|exact E1].
      intros s' g' y Hg Ey. eapply H; [|exact Ey].
      simpl. rewrite andb_true_iff. tauto.
    + eapply IHr2; [|exact E].
      intros s' g' y Hg Ey. eapply H; [|exact Ey].
      simpl. rewrite andb_true_iff. tauto.
  - destruct s as [|c [|c' s]]; try discriminate.
    + eapply H; [|exact E]. simpl. intros [?|?]; [trivial | discriminate].
    + destruct (Ascii.eqb c newline); [|discriminate].
      eapply H; [|exact E]. simpl. intros [?|?]; [trivial | discriminate].
  - eapply IHr1; [|exact E]. intros s' g' y Hg Ey.
    eapply IHr2; [|exact Ey]. intros s'' g'' z Hg' Ez.
    eapply H; [|exact Ez]. simpl. rewrite orb_true_iff. tauto.
Qed.

(** A pattern with a group on every path yields a match whose
    [group(1)] is a string. *)
Lemma search_group r s m :
  captures r = true -> search r s = Some m -> group1_text m <> None.
Proof.
  intros C. induction s as [|c s IH]; simpl;
    destruct (exec r _ None _) eqn:E; intros Em; inversion Em; subst.
  - eapply (@exec_post r _ (fun m => group1_text m <> None)); [|exact E].
    intros s' g' x Hg Ex. inversion Ex. simpl. tauto.
  - eapply (@exec_post r _ (fun m => group1_text m <> None)); [|exact E].
    intros s' g' x Hg Ex. inversion Ex. simpl. tauto.
  - now apply IH.
Qed.

Lemma search_post r (P : match_obj -> Prop) :
  (forall s m, exec r s None (fun _ g => Some {| group1_text := g |}) = Some m
               -> P m) ->
  forall s m, search r s = Some m -> P m.
Proof.
  intros H. induction s as [|c s IH]; simpl; intros m;
    destruct (exec r _ None _) eqn:E; intros Em; inversion Em; subst; eauto.
Qed.

Lemma search_ok r pre s :
  exec r s None (fun _ g => Some {| group1_text := g |}) <> None ->
  search r (pre ++ s) <> None.
Proof.
  intros H. induction pre as [|c pre IH]; simpl.
  - destruct s; simpl;
      destruct (exec r _ None _); solve [discriminate | tauto].
  - destruct (exec r (c :: pre ++ s) None _); [discriminate | exact IH].
Qed.

Lemma startswith_app l s : startswith l (l ++ s) = true.
Proof.
  induction l as [|a l IH]; simpl; [now destruct s|].
  now rewrite Ascii.eqb_refl.
Qed.

Lemma skipn_length_app (l s : pystr) : skipn (length l) (l ++ s) = s.
Proof. induction l; simpl; trivial. Qed.

(** A match of a pattern that opens with a literal shows the literal in
    the text. *)
Lemma search_literal l r s m :
  search (Lit l +++ r) s = Some m -> contains l s = true.
Proof.
  induction s as [|c s IH]; simpl.
  - destruct (startswith l []) eqn:E; [|discriminate]. intros _.
    reflexivity.
  - destruct (startswith l (c :: s)) eqn:E; [reflexivity|].
    intros H. rewrite (IH H). apply orb_true_r.
Qed.

(** The shape shared by the field patterns: a marker, blanks, a lazy group
    and a look-ahead. It is found wherever the marker is followed by at
    least one character and, later, by text the look-ahead accepts. *)
Lemma field_pattern_found (marker : pystr) (A : regex) text pre c x rest :
  text = pre ++ marker ++ c :: x ++ rest ->
  (forall g, exec A rest g (fun _ _ => Some tt) <> None) ->
  search (Lit marker +++ StarGreedy isspace +++ Group (PlusLazy dot_all)
          +++ Ahead A) text <> None.
Proof.
  intros -> HA. apply search_ok. simpl.
  rewrite startswith_app, skipn_length_app.
  apply star_greedy_ok. apply plus_lazy_ok. simpl.
  match goal with
  | |- context [exec A rest ?g ?k] =>
      pose proof (HA g) as H; destruct (exec A rest g k)
  end; [discriminate | tauto].
Qed.

(** ** Parsing the reply *)

Lemma found_group r s :
  captures r = true -> search r s <> None ->
  exists m g, search r s = Some m /\ group1 m = Returned g.
Proof.
  intros C H. destruct (search r s) as [m|] eqn:E; [|tauto].
  pose proof (search_group r s C E) as G.
  destruct (group1_text m) as [g|] eqn:Eg; [|tauto].
  exists m, g. split; [reflexivity|]. unfold group1. now rewrite Eg.
Qed.

Lemma group1_returns r s m :
  captures r = true -> search r s = Some m -> exists g, group1 m = Returned g.
Proof.
  intros C E. pose proof (search_group r s C E) as G. unfold group1.
  destruct (group1_text m) as [g|]; [eauto | tauto].
Qed.

Lemma option_step_returns text options l :
  exists options', option_step text options l = Returned options'.
Proof.
  unfold option_step.
  destruct (search (OPTION_RE l) text) as [m|] eqn:E.
  - destruct (group1_returns (OPTION_RE l) text eq_refl E) as [g ->].
    simpl. eauto.
  - destruct (search (OPTION_LAST_RE l) text) as [m|] eqn:E'; [|eauto].
    destruct (group1_returns (OPTION_LAST_RE l) text eq_refl E') as [g ->].
    simpl. eauto.
Qed.

Lemma option_step_found text l :
  search (OPTION_RE l) text <> None ->
  exists v, forall options,
    option_step text options l = Returned (dict_set l v options).
Proof.
  intros H. destruct (found_group (OPTION_RE l) text eq_refl H)
    as (m & g & E & G).
  exists (strip g). intros options. unfold option_step. rewrite E, G.
  reflexivity.
Qed.

Lemma explanation_step_returns text explanations l :
  exists explanations',
    explanation_step text explanations l = Returned explanations'.
Proof.
  unfold explanation_step.
  destruct (search (EXPLANATION_RE l) text) as [m|] eqn:E; [|eauto].
  destruct (group1_returns (EXPLANATION_RE l) text eq_refl E) as [g ->].
  simpl. eauto.
Qed.

Lemma for_each_returns (A X : Type) (step : A -> X -> outcome A) xs :
  (forall acc x, exists acc', step acc x = Returned acc') ->
  forall acc, exists acc', for_each step xs acc = Returned acc'.
Proof.
  intros H. induction xs as [|x xs IH]; intros acc; simpl; [eauto|].
  destruct (H acc x) as [acc' ->]. simpl. apply IH.
Qed.

(** The handler of [parse_quiz_response] is never entered: its [try]
    block returns on every input. *)
Lemma parse_quiz_response_body_returns text :
  exists r, parse_quiz_response_body text = Returned r.
Proof.
  unfold parse_quiz_response_body.
  destruct (search QUESTION_RE text) as [m|] eqn:E; [|eauto].
  destruct (group1_returns QUESTION_RE text eq_refl E) as [g ->]. cbn [bind].
  destruct (for_each_returns (option_step text) LETTERS
              (option_step_returns text) []) as [options ->]. cbn [bind].
  destruct (negb (length options =? 4)); [eauto|].
  destruct (search CORRECT_RE text) as [m'|] eqn:E'; [|eauto].
  destruct (group1_returns CORRECT_RE text eq_refl E') as [g' ->]. cbn [bind].
  destruct (search CORRECT_EXPLANATION_RE text) as [m''|] eqn:E''; [|eauto].
  destruct (group1_returns CORRECT_EXPLANATION_RE text eq_refl E'')
    as [g'' ->]. cbn [bind].
  destruct (for_each_returns (explanation_step text) LETTERS
              (explanation_step_returns text) []) as [explanations ->].
  cbn [bind]. eauto.
Qed.

Lemma star_greedy_lstrip (R : Type) (k : pystr -> option R) (s : pystr) :
  (forall c s', isspace c = true -> k (c :: s') = None) ->
  star_greedy isspace s k = k (lstrip s).
Proof.
  intros Hk. induction s as [|c s IH]; simpl; [reflexivity|].
  destruct (isspace c) eqn:E; [|reflexivity].
  rewrite IH. destruct (k (lstrip s)); [reflexivity|]. now apply Hk.
Qed.

Lemma isspace_not_letter c : isspace c = true -> range "A" "D" c = false.
Proof.
  destruct c as [[] [] [] [] [] [] [] []]; vm_compute; intros H;
    try discriminate H; reflexivity.
Qed.

(** [CORRECT_RE] is found only where [names_answer] sees it. *)
Lemma search_correct_none s :
  names_answer s = false -> search CORRECT_RE s = None.
Proof.
  assert (forall s,
             (startswith (lit "CORRECT:") s
              && match lstrip (skipn 8 s) with
                 | c :: _ => range "A" "D" c
                 | [] => false
                 end) = false ->
             exec CORRECT_RE s None (fun _ g => Some {| group1_text := g |})
             = None) as Hat.
  { intros t H. unfold CORRECT_RE. cbn [exec].
    destruct (startswith (lit "CORRECT:") t); [|reflexivity].
    cbn [andb] in H. change (length (lit "CORRECT:")) with 8.
    rewrite star_greedy_lstrip.
    - destruct (lstrip (skipn 8 t)) as [|c u]; [reflexivity|]. now rewrite H.
    - intros c u Hc. now rewrite (isspace_not_letter c Hc). }
  induction s as [|c s IH]; intros H.
  - cbn [search]. now rewrite Hat.
  - cbn [names_answer] in H. apply orb_false_iff in H.
    destruct H as [H1 H2]. cbn [search]. rewrite (Hat _ H1). now apply IH.
Qed.

Lemma names_answer_contains s :
  names_answer s = true -> contains (lit "CORRECT:") s = true.
Proof.
  induction s as [|c s IH]; intros H; [discriminate H|].
  cbn [names_answer] in H. cbn [contains].
  apply orb_true_iff in H. destruct H as [H|H].
  - apply andb_true_iff in H. destruct H as [H _]. now rewrite H.
  - rewrite (IH H). apply orb_true_r.
Qed.

(** C6: [parse_quiz_response] returns on every input, never raising; and
    what it returns is None when the text CORRECT: occurs nowhere in the
    input, and more generally when it is nowhere followed, after any white
    space, by one of the letters A to D. The text need not stand at the
    start of a line for the parser to see it. *)
Theorem parse_quiz_response_without_correct (text : pystr) :
  exists r,
    parse_quiz_response text = Returned r /\
    parse_quiz_response_body text = Returned r /\
    (if contains (lit "CORRECT:") text then True else r = None) /\
    (if names_answer text then True else r = None).
Proof.
  destruct (parse_quiz_response_body_returns text) as [r Hr].
  exists r. unfold parse_quiz_response. rewrite Hr. cbn [try_except].
  split; [reflexivity|]. split; [reflexivity|].
  assert (names_answer text = false -> r = None) as Hnone.
  { intros N. apply search_correct_none in N.
    revert Hr. unfold parse_quiz_response_body.
    destruct (search QUESTION_RE text); [|congruence].
    destruct (group1 m); cbn [bind]; [|discriminate].
    destruct (for_each (option_step text) LETTERS []) as [options|];
      cbn [bind]; [|discriminate].
    destruct (negb (length options =? 4)); [congruence|].
    rewrite N. congruence. }
  split.
  - destruct (contains (lit "CORRECT:") text) eqn:C; [trivial|].
    apply Hnone. destruct (names_answer text) eqn:N; [|reflexivity].
    apply names_answer_contains in N. congruence.
  - destruct (names_answer text); [trivial | now apply Hnone].
Qed.

(** A reply with no CORRECT: line is parsed all the same, where C6 has the
    parser return None: the pattern finds CORRECT: inside the word
    INCORRECT: of an explanation and takes the letter after it as the
    answer. *)
Lemma incorrect_word_read_as_answer :
  has_correct_line reply_without_correct_line = false /\
  exists d,
    parse_quiz_response reply_without_correct_line = Returned (Some d) /\
    qd_correct d = lit "A" /\
    keys (qd_options d) = LETTERS.
Proof.
  split; [vm_compute; reflexivity|].
  eexists. split; [vm_compute; reflexivity|]. split; reflexivity.
Qed.

Lemma range_A_D ch : range "A" "D" ch = true -> In [ch] LETTERS.
Proof.
  destruct ch as [[] [] [] [] [] [] [] []]; vm_compute; intros H;
    try discriminate H; tauto.
Qed.

(** What [CORRECT_RE] captures is one of the four letters. *)
Lemma correct_re_group s m :
  search CORRECT_RE s = Some m ->
  exists l, group1 m = Returned l /\ In l LETTERS.
Proof.
  revert s m. apply search_post. intros s m E.
  unfold CORRECT_RE in E. cbn [exec] in E.
  destruct (startswith (lit "CORRECT:") s); [|discriminate].
  revert E.
  apply (@star_greedy_post _
           (fun m => exists l, group1 m = Returned l /\ In l LETTERS)).
  intros [|c s'] x; [discriminate|].
  destruct (range "A" "D" c) eqn:Rg; [|discriminate].
  intros [= <-]. unfold group1. cbn [group1_text].
  assert (forall n, match n with 0 => S n | S l => n - l end = 1) as ->
      by (intros []; lia).
  exists [c]. split; [reflexivity | now apply range_A_D].
Qed.

Section WellFormed.

Variables preamble question a b c d : pystr.
Variable answer : letter.
Variables correct_explanation ea eb ec ed : pystr.

Abbreviation text :=
  (well_formed_response preamble question a b c d answer
                        correct_explanation ea eb ec ed).

(** Splits the reply after the marker and one field, then runs the
    look-ahead on what follows. *)
Ltac found pre x :=
  eapply (@field_pattern_found _ _ _ pre " "%char x);
  [ unfold well_formed_response; rewrite <- ?app_assoc; reflexivity
  | intros g; simpl; discriminate ].

Lemma question_found : search QUESTION_RE text <> None.
Proof. found preamble question. Qed.

Lemma option_A_found : search (OPTION_RE (lit "A")) text <> None.
Proof. found (preamble ++ lit "QUESTION: " ++ question ++ nl) a. Qed.

Lemma option_B_found : search (OPTION_RE (lit "B")) text <> None.
Proof.
  found (preamble ++ lit "QUESTION: " ++ question ++ nl
         ++ lit "A) " ++ a ++ nl) b.
Qed.

Lemma option_C_found : search (OPTION_RE (lit "C")) text <> None.
Proof.
  found (preamble ++ lit "QUESTION: " ++ question ++ nl
         ++ lit "A) " ++ a ++ nl ++ lit "B) " ++ b ++ nl) c.
Qed.

Lemma option_D_found : search (OPTION_RE (lit "D")) text <> None.
Proof.
  found (preamble ++ lit "QUESTION: " ++ question ++ nl
         ++ lit "A) " ++ a ++ nl ++ lit "B) " ++ b ++ nl
         ++ lit "C) " ++ c ++ nl) (d ++ nl).
Qed.

Lemma correct_found : search CORRECT_RE text <> None.
Proof.
  unfold well_formed_response.
  replace (preamble ++ lit "QUESTION: " ++ question ++ nl
           ++ lit "A) " ++ a ++ nl ++ lit "B) " ++ b ++ nl
           ++ lit "C) " ++ c ++ nl ++ lit "D) " ++ d ++ nl
           ++ lit "CORRECT: " ++ letter_str answer ++ nl
           ++ lit "CORRECT_EXPLANATION: " ++ correct_explanation ++ nl
           ++ lit "A_EXPLANATION: " ++ ea ++ nl
           ++ lit "B_EXPLANATION: " ++ eb ++ nl
           ++ lit "C_EXPLANATION: " ++ ec ++ nl
           ++ lit "D_EXPLANATION: " ++ ed)
    with ((preamble ++ lit "QUESTION: " ++ question ++ nl
           ++ lit "A) " ++ a ++ nl ++ lit "B) " ++ b ++ nl
           ++ lit "C) " ++ c ++ nl ++ lit "D) " ++ d ++ nl)
          ++ lit "CORRECT: " ++ letter_str answer ++ nl
          ++ lit "CORRECT_EXPLANATION: " ++ correct_explanation ++ nl
          ++ lit "A_EXPLANATION: " ++ ea ++ nl
          ++ lit "B_EXPLANATION: " ++ eb ++ nl
          ++ lit "C_EXPLANATION: " ++ ec ++ nl
          ++ lit "D_EXPLANATION: " ++ ed)
    by (rewrite <- ?app_assoc; reflexivity).
  apply search_ok. destruct answer; simpl; discriminate.
Qed.

Lemma correct_explanation_found :
  search CORRECT_EXPLANATION_RE text <> None.
Proof.
  found (preamble ++ lit "QUESTION: " ++ question ++ nl
         ++ lit "A) " ++ a ++ nl ++ lit "B) " ++ b ++ nl
         ++ lit "C) " ++ c ++ nl ++ lit "D) " ++ d ++ nl
         ++ lit "CORRECT: " ++ letter_str answer ++ nl)
        correct_explanation.
Qed.

End WellFormed.

(** C5: a reply in the requested format, whatever the text of its fields
    and whatever precedes its QUESTION: line, parses to a result whose
    options have exactly the keys A, B, C, D and whose correct letter is one
    of A, B, C, D. *)
Theorem parse_quiz_response_well_formed
    (preamble question a b c d : pystr) (answer : letter)
    (correct_explanation ea eb ec ed : pystr) :
  exists q,
    parse_quiz_response
      (well_formed_response preamble question a b c d answer
                            correct_explanation ea eb ec ed)
    = Returned (Some q) /\
    keys (qd_options q) = LETTERS /\
    In (qd_correct q) LETTERS.
Proof.
  set (text := well_formed_response preamble question a b c d answer
                                    correct_explanation ea eb ec ed).
  pose proof (question_found preamble question a b c d answer
                correct_explanation ea eb ec ed) as Fq.
  pose proof (option_A_found preamble question a b c d answer
                correct_explanation ea eb ec ed) as Fa.
  pose proof (option_B_found preamble question a b c d answer
                correct_explanation ea eb ec ed) as Fb.
  pose proof (option_C_found preamble question a b c d answer
                correct_explanation ea eb ec ed) as Fc.
  pose proof (option_D_found preamble question a b c d answer
                correct_explanation ea eb ec ed) as Fd.
  pose proof (correct_found preamble question a b c d answer
                correct_explanation ea eb ec ed) as Fk.
  pose proof (correct_explanation_found preamble question a b c d answer
                correct_explanation ea eb ec ed) as Fe.
  fold text in Fq, Fa, Fb, Fc, Fd, Fk, Fe.
  unfold parse_quiz_response, parse_quiz_response_body.
  destruct (found_group QUESTION_RE text eq_refl Fq) as (m & g & -> & ->).
  cbn [bind].
  destruct (option_step_found text (lit "A") Fa) as [va HA].
  destruct (option_step_found text (lit "B") Fb) as [vb HB].
  destruct (option_step_found text (lit "C") Fc) as [vc HC].
  destruct (option_step_found text (lit "D") Fd) as [vd HD].
  unfold LETTERS at 1. cbn [for_each]. rewrite HA. cbn [bind].
  rewrite HB. cbn [bind]. rewrite HC. cbn [bind]. rewrite HD. cbn [bind].
  change (dict_set (lit "D") vd
            (dict_set (lit "C") vc
               (dict_set (lit "B") vb (dict_set (lit "A") va []))))
    with [(lit "A", va); (lit "B", vb); (lit "C", vc); (lit "D", vd)].
  cbn [length Nat.eqb negb].
  destruct (search CORRECT_RE text) as [mc|] eqn:Ec; [|exfalso; now apply Fk].
  destruct (correct_re_group _ Ec) as (l & -> & Hl). cbn [bind].
  destruct (found_group CORRECT_EXPLANATION_RE text eq_refl Fe)
    as (me & ge & -> & ->).
  cbn [bind].
  destruct (for_each_returns (explanation_step text) LETTERS
              (explanation_step_returns text) []) as [explanations ->].
  cbn [bind try_except].
  eexists. split; [reflexivity|]. split; [reflexivity | exact Hl].
Qed.

Example parse_demo :
  option_map (fun q => (keys (qd_options q), qd_correct q,
                        qd_question q, dict_get (lit "C") (qd_options q)))
    match parse_quiz_response
            (well_formed_response [] (lit "What does a firewall do?")
               (lit "Encrypts disks") (lit "Filters traffic")
               (lit "Stores passwords") (lit "Signs code") LB
               (lit "It filters packets.") (lit "no") (lit "yes")
               (lit "no") (lit "no"))
    with
    | Returned r => r
    | Raised _ => None
    end
  = Some (LETTERS, lit "B", lit "What does a firewall do?",
          Some (lit "Stores passwords")).
Proof. vm_compute. reflexivity. Qed.

(** ** The message budget *)

Lemma render_quiz_result_quiet e w :
  requests (fst (render_quiz_result e w)) = requests w /\
  message_count (ss (fst (render_quiz_result e w))) = message_count (ss w).
Proof.
  unfold render_quiz_result, advance_quiz.
  destruct (quiz_state (ss w)) as [q|] eqn:Q; [|split; reflexivity].
  destruct (negb (qs_answered q)); [split; reflexivity|].
  destruct (result_lookups q); [|split; reflexivity].
  destruct (fired e); try (split; reflexivity).
  - destruct (negb _); split; reflexivity.
Qed.

Lemma render_understanding_rating_quiet e w :
  requests (fst (render_understanding_rating e w)) = requests w /\
  message_count (ss (fst (render_understanding_rating e w)))
  = message_count (ss w).
Proof.
  unfold render_understanding_rating.
  destruct (fired e); split; reflexivity.
Qed.

(** C3: once the message count has reached the cap of 25, a run sends
    nothing to the LLM service, and neither does any later sequence of
    runs. A quiz that would ask for its next question is switched off
    instead (quiz mode off, quiz state cleared), and the chat area handles
    neither the chat input nor a pending concept question. *)
Theorem budget_exhausted_contacts_no_llm (e : env) (es : list env) (w : world) :
  (MAX_MESSAGES_PER_SESSION <= message_count (ss w))%Z ->
  requests (fst (main e w)) = requests w /\
  requests (runs es w) = requests w /\
  render_quiz_question e w
  = match quiz_state (ss w) with
    | Some _ => (set_ss (leave_quiz (ss w)) w, Finished)
    | None => (w, Finished)
    end /\
  phase_of (leave_quiz (ss w)) = Idle /\
  chat_area e w = (w, Finished).
Proof.
  intros Hcap.
  assert (forall e w,
             (MAX_MESSAGES_PER_SESSION <= message_count (ss w))%Z ->
             render_quiz_question e w
             = match quiz_state (ss w) with
               | Some _ => (set_ss (leave_quiz (ss w)) w, Finished)
               | None => (w, Finished)
               end /\
             chat_area e w = (w, Finished)) as gate.
  { intros e0 w0 H. unfold render_quiz_question, chat_area, check_message_limit.
    apply Z.leb_le in H. rewrite H. split; reflexivity. }
  assert (forall e w,
             (MAX_MESSAGES_PER_SESSION <= message_count (ss w))%Z ->
             requests (fst (main e w)) = requests w /\
             message_count (ss (fst (main e w))) = message_count (ss w))
    as quiet.
  { intros e0 w0 H. destruct (gate e0 w0 H) as [Gq Gc]. unfold main.
    destruct (quiz_active (ss w0) && negb (awaiting_rating (ss w0))).
    - destruct (quiz_state (ss w0)) as [q|] eqn:Q; [|split; reflexivity].
      destruct (render_quiz_header q); [|split; reflexivity].
      destruct (qs_answered q); [apply render_quiz_result_quiet|].
      rewrite Gq; rewrite ?Q. split; reflexivity.
    - destruct (quiz_mode (ss w0) && awaiting_rating (ss w0)).
      + apply render_understanding_rating_quiet.
      + rewrite Gc. split; reflexivity. }
  split; [apply quiet, Hcap|].
  split; [|split; [apply gate, Hcap | split; [reflexivity | apply gate, Hcap]]].
  revert w Hcap. induction es as [|e1 es IH]; intros w Hcap; simpl.
  - reflexivity.
  - destruct (quiet e1 w Hcap) as [Rq Mc].
    rewrite IH; [exact Rq | rewrite Mc; exact Hcap].
Qed.

Lemma budget_exhausted_contacts_no_llm_witness :
  let w := quiz_started 25 in
  let e := run_with NoWidget llm_quiz in
  requests (fst (main e w)) = requests w /\
  requests (runs [e; run_with (ChatInput (lit "What is a VPN?")) llm_quiz] w)
  = requests w /\
  render_quiz_question e w
  = match quiz_state (ss w) with
    | Some _ => (set_ss (leave_quiz (ss w)) w, Finished)
    | None => (w, Finished)
    end /\
  phase_of (leave_quiz (ss w)) = Idle /\
  chat_area e w = (w, Finished).
Proof.
  apply (@budget_exhausted_contacts_no_llm
           (run_with NoWidget llm_quiz)
           [run_with NoWidget llm_quiz;
            run_with (ChatInput (lit "What is a VPN?")) llm_quiz]
           (quiz_started 25)).
  vm_compute. discriminate.
Defined.

(** Below the cap the same two runs do reach the LLM service. *)
Example within_budget_contacts_llm :
  let w := quiz_started 24 in
  length (requests (fst (main (run_with NoWidget llm_quiz) w))) = 1 /\
  phase_of (ss (fst (main (run_with NoWidget llm_quiz) w))) = ShowingQuestion 0 /\
  message_count (ss (fst (main (run_with NoWidget llm_quiz) w))) = 25%Z /\
  phase_of (ss (runs [run_with NoWidget llm_quiz; run_with NoWidget llm_quiz] w))
  = Idle.
Proof. vm_compute. repeat split. Qed.

(** ** The quiz flow *)

Lemma phase_awaiting_question s i :
  phase_of s = AwaitingQuestion i ->
  quiz_active s && negb (awaiting_rating s) = true /\
  exists q, quiz_state s = Some q /\ qs_answered q = false /\
            qs_loading q = true /\ qs_current_index q = i.
Proof.
  unfold phase_of.
  destruct (quiz_active s && negb (awaiting_rating s)).
  - destruct (quiz_state s) as [q|]; [|discriminate].
    destruct (qs_answered q) eqn:A; [discriminate|].
    destruct (qs_loading q) eqn:L; [|discriminate].
    intros [= <-]. split; [reflexivity|]. exists q. auto.
  - destruct (quiz_mode s && awaiting_rating s); discriminate.
Qed.

(** [parse_quiz_response] returning, the generator fails exactly when the
    service raises or its reply does not parse. *)
Lemma generate_quiz_question_cases (a : agent) name :
  generate_quiz_question a name
  = match a (QUIZ_PROMPT_TEMPLATE name) [] with
    | Raised x => Raised x
    | Returned (text, _) =>
        match parse_quiz_response text with
        | Returned parsed =>
            Returned (option_map (with_concept_name name) parsed)
        | Raised x => Raised x
        end
    end.
Proof.
  unfold generate_quiz_question.
  destruct (a (QUIZ_PROMPT_TEMPLATE name) []) as [[text msgs]|x];
    [|reflexivity].
  cbn [bind fst]. destruct (parse_quiz_response text); reflexivity.
Qed.




(** A reply that does not parse at the last concept: the index runs past
    the batch, the rating is not asked for, and the next run stops with an
    IndexError in [render_quiz_header]. *)
Example unparsable_last_question_overruns :
  let e := run_with NoWidget llm_rambling in
  let w := runs [e; e] (quiz_started 0) in
  phase_of (ss w) = AwaitingQuestion 2 /\
  awaiting_rating (ss w) = false /\
  snd (main e w) = Uncaught IndexError /\
  fst (main e w) = w.
Proof. vm_compute. repeat split. Qed.

(** *** Strictly increasing positions *)

Lemma increasing_length (l : list nat) : forall lo n,
  lo <= n ->
  StronglySorted lt l -> Forall (fun j => lo <= j < n) l ->
  length l + lo <= n.
Proof.
  induction l as [|x l IH]; intros lo n L Hs F; simpl; [exact L|].
  inversion Hs as [|? ? S' Hx]; subst. inversion F as [|? ? Fx F']; subst.
  assert (length l + (x + 1) <= n); [|lia].
  apply IH; [lia | exact S' |]. rewrite Forall_forall in *. intros j Hj.
  specialize (Hx j Hj). specialize (F' j Hj). lia.
Qed.

Lemma increasing_full (l : list nat) : forall lo,
  StronglySorted lt l -> Forall (fun j => lo <= j < lo + length l) l ->
  l = seq lo (length l).
Proof.
  induction l as [|x l IH]; intros lo Hs F; simpl; [reflexivity|].
  inversion Hs as [|? ? S' Hx]; subst. inversion F as [|? ? Fx F']; subst.
  simpl in *.
  assert (length l + (x + 1) <= lo + S (length l)) as B.
  { apply increasing_length; [lia | exact S' |]. rewrite Forall_forall in *.
    intros j Hj. specialize (Hx j Hj). specialize (F' j Hj). lia. }
  assert (x = lo) by lia. subst x. f_equal.
  apply IH; [exact S'|]. rewrite Forall_forall in *. intros j Hj.
  specialize (Hx j Hj). specialize (F' j Hj). lia.
Qed.

Lemma ids_at_seq (concepts : list concept_row) : forall n,
  n <= length concepts ->
  ids_at concepts (seq 0 n) = map Some (map c_id (firstn n concepts)).
Proof.
  assert (forall (cs pre : list concept_row) n,
             n <= length cs ->
             ids_at (pre ++ cs) (seq (length pre) n)
             = map Some (map c_id (firstn n cs))) as G.
  { induction cs as [|x cs IH]; intros pre n Hn.
    - simpl in Hn. assert (n = 0) by lia. subst n. reflexivity.
    - destruct n as [|n]; [reflexivity|]. simpl in Hn.
      cbn [seq firstn map ids_at]. f_equal.
      + rewrite nth_error_app2 by lia. rewrite Nat.sub_diag. reflexivity.
      + specialize (IH (pre ++ [x]) n).
        rewrite <- app_assoc, length_app, Nat.add_1_r in IH.
        apply IH. lia. }
  intros n Hn. apply (G concepts [] n Hn).
Qed.

(** *** One run of [main], seen from the quiz state *)

Lemma save_and_track_message_ss role content w :
  ss (save_and_track_message role content w) = ss w.
Proof.
  unfold save_and_track_message.
  destruct (save_message _ _ _ _) as [d1 message_id].
  destruct (eqb role (lit "assistant")); reflexivity.
Qed.

Lemma process_user_input_quiz e u w :
  quiz_state (ss (process_user_input e u w)) = quiz_state (ss w).
Proof.
  unfold process_user_input.
  destruct (run_agent _ _ _) as [[response_text new_messages]|x];
    cbn [ss send set_ss];
    rewrite !save_and_track_message_ss; reflexivity.
Qed.

Lemma chat_area_quiz e w :
  quiz_state (ss (fst (chat_area e w))) = quiz_state (ss w).
Proof.
  unfold chat_area.
  destruct (check_message_limit (ss w)); [reflexivity|].
  destruct (pending_concept_question (ss w)) as [[|c rest]|].
  - destruct (fired e) as [| | | | | | |[|c rest]]; try reflexivity.
    cbn [fst]. apply process_user_input_quiz.
  - cbn [fst]. rewrite process_user_input_quiz. reflexivity.
  - destruct (fired e) as [| | | | | | |[|c rest]]; try reflexivity.
    cbn [fst]. apply process_user_input_quiz.
Qed.

(** A run leaves the quiz state as it is, advances it, fills in a
    question, or (exactly when it records an answer) appends one result
    for the current concept. It never creates a quiz state. *)
Lemma main_step e w q' :
  quiz_state (ss (fst (main e w))) = Some q' ->
  exists q, quiz_state (ss w) = Some q /\
    ((answers_question e w = false /\
      (q' = q \/ q' = advance q \/ exists d, q' = populate d q)) \/
     (answers_question e w = true /\ qs_answered q = false /\
      exists l c,
        nth_error (qs_concepts q) (qs_current_index q) = Some c /\
        q' = append_result
               {| concept_id := c_id c;
                  correct := eqb (letter_str l) (qs_correct q) |}
               (set_answer (letter_str l) q))).
Proof.
  unfold main, answers_question, phase_of.
  destruct (quiz_active (ss w) && negb (awaiting_rating (ss w))) eqn:Hact.
  - destruct (quiz_state (ss w)) as [q|] eqn:Hq;
      [|cbn [fst]; rewrite Hq; discriminate].
    unfold render_quiz_header.
    destruct (nth_error (qs_concepts q) (qs_current_index q)) as [c|] eqn:Hnth.
    + destruct (qs_answered q) eqn:Hans.
      * unfold render_quiz_result, advance_quiz. rewrite Hq, Hans. cbn [negb].
        destruct (result_lookups q);
          [|cbn; rewrite Hq; intros [= <-]; exists q; split; auto].
        destruct (fired e);
          try destruct (negb (length (qs_concepts q) - 1
                              <=? qs_current_index q));
          cbn; rewrite ?Hq; cbn; intros [= <-]; exists q; split; auto.
      * unfold render_quiz_question, advance_quiz. rewrite Hq.
        destruct (check_message_limit (ss w)) eqn:Hlim; [discriminate|].
        destruct (qs_loading q) eqn:Hload.
        -- rewrite Hnth.
           destruct (generate_quiz_question _ _) as [[d|]|[]];
             cbn; rewrite ?Hq; cbn; try discriminate;
               intros [= <-]; exists q; split; eauto 6.
        -- assert ((qs_current_index q <? length (qs_concepts q)) = true) as Hlt.
           { apply Nat.ltb_lt. apply nth_error_Some. congruence. }
           destruct (fired e) as [| l | | | | | |];
             try (cbn; rewrite ?Hq; intros [= <-]; exists q; split; auto).
           cbn [set_answer qs_concepts qs_current_index qs_correct].
           rewrite Hnth. cbn -[Nat.ltb]. rewrite Hlt. intros [= <-].
           exists q. split; [reflexivity|]. right.
           split; [reflexivity|]. split; [exact Hans|].
           exists l, c. split; [exact Hnth | reflexivity].
    + cbn [fst]. rewrite Hq. intros [= <-]. exists q. split; [reflexivity|].
      left. split; [|auto].
      assert ((qs_current_index q <? length (qs_concepts q)) = false) as Hlt.
      { apply Nat.ltb_ge. apply nth_error_None. exact Hnth. }
      destruct (qs_answered q); [reflexivity|].
      destruct (qs_loading q); [reflexivity|].
      destruct (fired e); try reflexivity. rewrite Hlt. apply andb_false_r.
  - assert (forall x,
               match (if quiz_mode (ss w) && awaiting_rating (ss w)
                      then AwaitingRating else Idle), x, fired e with
               | ShowingQuestion i, Some q, QuizOption _ =>
                   negb (check_message_limit (ss w))
                   && (i <? length (qs_concepts q))
               | _, _, _ => false
               end = false) as Hno
        by (intros x; destruct (quiz_mode (ss w) && awaiting_rating (ss w));
            reflexivity).
    destruct (quiz_mode (ss w) && awaiting_rating (ss w)).
    + unfold render_understanding_rating.
      destruct (fired e); try discriminate;
        cbn [fst]; intros H; exists q'; split; auto.
    + rewrite chat_area_quiz. intros H. exists q'. split; auto.
Qed.

Lemma sorted_snoc (l : list nat) x :
  StronglySorted lt l -> Forall (fun j => j < x) l ->
  StronglySorted lt (l ++ [x]).
Proof.
  induction l as [|y l IH]; intros Hs F; simpl.
  - repeat constructor.
  - inversion Hs as [|? ? Hs' Hy]; subst. inversion F as [|? ? Fy F']; subst.
    constructor; [now apply IH|].
    apply Forall_app. split; [exact Hy | now repeat constructor].
Qed.

(** A run keeps the invariant, adds a result exactly when it records an
    answer, and never moves the index back. *)
Lemma main_preserves concepts e w q idxs q' :
  quiz_state (ss w) = Some q ->
  quiz_inv concepts q idxs ->
  quiz_state (ss (fst (main e w))) = Some q' ->
  exists idxs',
    quiz_inv concepts q' idxs' /\
    length (qs_results q')
    = length (qs_results q) + (if answers_question e w then 1 else 0) /\
    qs_current_index q <= qs_current_index q'.
Proof.
  intros Hq (Hc & Hids & Hsorted & Hasked & Hrange) Hq'.
  destruct (main_step e w Hq') as (q0 & Hq0 & Hstep).
  assert (q0 = q) by congruence. subst q0.
  destruct Hstep as [[-> [-> | [-> | [d ->]]]] | (-> & Hans & l & c & Hnth & ->)].
  - exists idxs. repeat split; trivial; lia.
  - exists idxs. repeat split; trivial; cbn; try lia.
    eapply Forall_impl; [|exact Hasked]. unfold asked. cbn.
    intros j Hj. destruct (qs_answered q); lia.
  - exists idxs. repeat split; trivial; cbn; lia.
  - exists (idxs ++ [qs_current_index q]).
    assert (asked q = qs_current_index q) as Ha
        by (unfold asked; rewrite Hans; lia).
    rewrite Ha in Hasked.
    split; [|split; [cbn; rewrite length_app; reflexivity | cbn; lia]].
    unfold quiz_inv. cbn [append_result set_answer qs_concepts qs_results].
    split; [exact Hc|]. split; [|split; [|split]].
    + unfold ids_at in *. rewrite !map_app, Hids. cbn [map].
      rewrite <- Hc, Hnth. reflexivity.
    + now apply sorted_snoc.
    + unfold asked. cbn. apply Forall_app. split.
      * eapply Forall_impl; [|exact Hasked]. cbn. intros; lia.
      * repeat constructor. lia.
    + apply Forall_app. split; [exact Hrange|]. repeat constructor.
      rewrite <- Hc. apply nth_error_Some. congruence.
Qed.

Lemma runs_app es1 : forall es2 w,
  runs (es1 ++ es2) w = runs es2 (runs es1 w).
Proof. induction es1 as [|e es1 IH]; intros; simpl; [reflexivity | apply IH]. Qed.

Lemma answered_app es1 : forall es2 w,
  answered (es1 ++ es2) w = answered es1 w + answered es2 (runs es1 w).
Proof.
  induction es1 as [|e es1 IH]; intros; simpl; [reflexivity|].
  rewrite IH. lia.
Qed.

(** Without a quiz state there is none later either. *)
Lemma runs_no_quiz es : forall w,
  quiz_state (ss w) = None -> quiz_state (ss (runs es w)) = None.
Proof.
  induction es as [|e es IH]; intros w H; simpl; [exact H|].
  apply IH. destruct (quiz_state (ss (fst (main e w)))) as [q'|] eqn:E;
    [|reflexivity].
  destruct (main_step e w E) as (q & Hq & _). congruence.
Qed.

Lemma runs_preserve concepts es : forall w q idxs q',
  quiz_state (ss w) = Some q ->
  quiz_inv concepts q idxs ->
  quiz_state (ss (runs es w)) = Some q' ->
  exists idxs',
    quiz_inv concepts q' idxs' /\
    length (qs_results q') = length (qs_results q) + answered es w /\
    qs_current_index q <= qs_current_index q'.
Proof.
  induction es as [|e es IH]; intros w q idxs q' Hq Hinv Hq'; simpl in *.
  - assert (q' = q) by congruence. subst q'. exists idxs.
    split; [exact Hinv | split; lia].
  - destruct (quiz_state (ss (fst (main e w)))) as [q1|] eqn:E.
    + destruct (main_preserves e w Hq Hinv E) as (idxs1 & Hinv1 & Hlen1 & Hi1).
      destruct (IH _ _ _ _ E Hinv1 Hq') as (idxs' & Hinv' & Hlen' & Hi').
      exists idxs'. split; [exact Hinv' | split; lia].
    + rewrite (runs_no_quiz es _ E) in Hq'. discriminate.
Qed.

Lemma map_Some_inj (A : Type) (l1 : list A) : forall l2,
  map Some l1 = map Some l2 -> l1 = l2.
Proof.
  induction l1 as [|x l1 IH]; intros [|y l2] H; simpl in H;
    try discriminate; [reflexivity|].
  inversion H. f_equal. now apply IH.
Qed.

(** C2, as the code has it: for a quiz started on any batch, through any
    sequence of runs, as long as the quiz state exists: the batch is the one
    given, [results] is no longer than the batch, its length is the number
    of answers recorded, its concept ids are those of the batch at strictly
    increasing positions, [current_index] is never below an earlier value,
    and when no concept was passed over (as many results as questions
    asked) result i carries the id of concept i. *)
Theorem quiz_results_follow_batch
        (concepts : list concept_row) (w : world) (es1 es2 : list env) :
  let w0 := set_ss (start_quiz_mode concepts (ss w)) w in
  match quiz_state (ss (runs (es1 ++ es2) w0)) with
  | None => True
  | Some q =>
      qs_concepts q = concepts /\
      length (qs_results q) <= length concepts /\
      length (qs_results q) = answered (es1 ++ es2) w0 /\
      (exists idxs,
          StronglySorted lt idxs /\
          Forall (fun j => j < length concepts) idxs /\
          map (fun r => Some (concept_id r)) (qs_results q)
          = ids_at concepts idxs) /\
      (length (qs_results q) = asked q ->
       map concept_id (qs_results q)
       = map c_id (firstn (length (qs_results q)) concepts)) /\
      exists q1,
        quiz_state (ss (runs es1 w0)) = Some q1 /\
        qs_current_index q1 <= qs_current_index q
  end.
Proof.
  intros w0.
  destruct (quiz_state (ss (runs (es1 ++ es2) w0))) as [q|] eqn:E; [|trivial].
  destruct concepts as [|c0 cs].
  { rewrite runs_no_quiz in E; [discriminate | reflexivity]. }
  set (concepts := c0 :: cs) in *.
  assert (quiz_state (ss w0) = Some (create_initial_quiz_state concepts))
    as H0 by reflexivity.
  assert (quiz_inv concepts (create_initial_quiz_state concepts) []) as I0.
  { unfold quiz_inv. cbn. repeat split; constructor. }
  rewrite runs_app in E.
  destruct (quiz_state (ss (runs es1 w0))) as [q1|] eqn:E1;
    [|rewrite runs_no_quiz in E; [discriminate | exact E1]].
  destruct (runs_preserve es1 w0 H0 I0 E1) as (idxs1 & I1 & L1 & _).
  destruct (runs_preserve es2 (runs es1 w0) E1 I1 E) as (idxs & I & L & Hi).
  destruct I as (Hc & Hids & Hsorted & Hasked & Hrange).
  assert (length (qs_results q) = length idxs) as Hlen.
  { apply (f_equal (@length _)) in Hids. unfold ids_at in Hids.
    now rewrite !length_map in Hids. }
  assert (length idxs + 0 <= length concepts) as Hle.
  { apply increasing_length; [lia | exact Hsorted |].
    eapply Forall_impl; [|exact Hrange]. cbn. intros; lia. }
  split; [exact Hc|]. split; [lia|]. split.
  { rewrite answered_app. cbn in L1. lia. }
  split; [exists idxs; auto|]. split; [|exists q1; auto].
  intros Hfull.
  assert (idxs = seq 0 (length idxs)) as Hseq.
  { apply increasing_full; [exact Hsorted|].
    eapply Forall_impl; [|exact Hasked]. cbn. intros; lia. }
  apply map_Some_inj. rewrite map_map, Hids, Hlen. rewrite Hseq at 1.
  apply ids_at_seq. lia.
Qed.

Lemma quiz_results_follow_batch_witness :
  let concepts := [concept_A; concept_B] in
  let w := {| ss := fresh_session 0;
              db := with_concepts concepts 2 empty_database;
              requests := [] |} in
  let es1 := [run_with NoWidget llm_quiz; run_with (QuizOption LB) llm_quiz] in
  let es2 := [run_with NextQuestion llm_quiz; run_with NoWidget llm_quiz;
              run_with (QuizOption LA) llm_quiz] in
  let w0 := set_ss (start_quiz_mode concepts (ss w)) w in
  match quiz_state (ss (runs (es1 ++ es2) w0)) with
  | None => True
  | Some q =>
      qs_concepts q = concepts /\
      length (qs_results q) <= length concepts /\
      length (qs_results q) = answered (es1 ++ es2) w0 /\
      (exists idxs,
          StronglySorted lt idxs /\
          Forall (fun j => j < length concepts) idxs /\
          map (fun r => Some (concept_id r)) (qs_results q)
          = ids_at concepts idxs) /\
      (length (qs_results q) = asked q ->
       map concept_id (qs_results q)
       = map c_id (firstn (length (qs_results q)) concepts)) /\
      exists q1,
        quiz_state (ss (runs es1 w0)) = Some q1 /\
        qs_current_index q1 <= qs_current_index q
  end.
Proof.
  intros concepts w es1 es2.
  exact (quiz_results_follow_batch concepts w es1 es2).
Defined.

(** A full quiz with nothing skipped: the results follow the batch. *)
Example quiz_answered_in_order :
  let es := [run_with NoWidget llm_quiz; run_with (QuizOption LB) llm_quiz;
             run_with NextQuestion llm_quiz;
             run_with NoWidget llm_quiz; run_with (QuizOption LA) llm_quiz;
             run_with DoneOrEndQuiz llm_quiz] in
  let w := runs es (quiz_started 0) in
  phase_of (ss w) = AwaitingRating /\
  option_map qs_results (quiz_state (ss w))
  = Some [ {| concept_id := 1; correct := true |};
           {| concept_id := 2; correct := false |} ] /\
  answered es (quiz_started 0) = 2 /\
  length (requests w) = 2.
Proof. vm_compute. repeat split. Qed.

(** The reply for the first of two concepts does not parse, the second is
    answered and the quiz is closed with Done: one result for two concepts,
    within the budget, and result 0 carries the id of concept 1. *)
Lemma skipped_concept_shifts_results :
  let es := [run_with NoWidget llm_rambling; run_with NoWidget llm_quiz;
             run_with (QuizOption LB) llm_quiz;
             run_with DoneOrEndQuiz llm_quiz] in
  let w := runs es (quiz_started 0) in
  phase_of (ss w) = AwaitingRating /\
  check_message_limit (ss w) = false /\
  exists q r c,
    quiz_state (ss w) = Some q /\
    nth_error (qs_results q) 0 = Some r /\
    nth_error (qs_concepts q) 0 = Some c /\
    concept_id r <> c_id c /\
    length (qs_results q) <> length (qs_concepts q).
Proof.
  vm_compute. split; [reflexivity|]. split; [reflexivity|].
  do 3 eexists. split; [reflexivity|]. split; [reflexivity|].
  split; [reflexivity|]. split; discriminate.
Qed.

(* ====================================================================== *)
(** * Further properties *)
(* ====================================================================== *)

(** ** White space *)

Lemma lstrip_head (s : pystr) :
  match lstrip s with
  | c :: _ => isspace c = false
  | [] => True
  end.
Proof.
  induction s as [|c s IH]; simpl; [trivial|].
  destruct (isspace c) eqn:E; [exact IH | exact E].
Qed.

Lemma lstrip_fixed (s : pystr) :
  match s with
  | c :: _ => isspace c = false
  | [] => True
  end -> lstrip s = s.
Proof. destruct s as [|c s]; simpl; [trivial|]. now intros ->. Qed.

Lemma lstrip_suffix (s : pystr) : exists w, s = w ++ lstrip s.
Proof.
  induction s as [|c s [w IH]]; simpl; [now exists []|].
  destruct (isspace c).
  - exists (c :: w). simpl. now f_equal.
  - now exists [].
Qed.

Lemma strip_stripped (s : pystr) : stripped (strip s).
Proof.
  unfold stripped, strip, rstrip. rewrite rev_involutive. split.
  - apply lstrip_fixed.
    destruct (lstrip_suffix (rev (lstrip s))) as [w Hw].
    pose proof (lstrip_head s) as Hs.
    apply (f_equal (@rev ascii)) in Hw.
    rewrite rev_involutive, rev_app_distr in Hw.
    destruct (rev (lstrip (rev (lstrip s)))) as [|c u]; [trivial|].
    rewrite Hw in Hs. exact Hs.
  - apply lstrip_fixed, lstrip_head.
Qed.

Lemma stripped_nil : stripped [].
Proof. split; reflexivity. Qed.

(** ** More on parsing the reply *)

Lemma option_step_cases text options l :
  option_step text options l = Returned options \/
  exists v, stripped v /\
            option_step text options l = Returned (dict_set l v options).
Proof.
  unfold option_step.
  destruct (search (OPTION_RE l) text) as [m|] eqn:E.
  - destruct (group1_returns (OPTION_RE l) text eq_refl E) as [g ->].
    right. exists (strip g). split; [apply strip_stripped | reflexivity].
  - destruct (search (OPTION_LAST_RE l) text) as [m|] eqn:E'; [|now left].
    destruct (group1_returns (OPTION_LAST_RE l) text eq_refl E') as [g ->].
    right. exists (strip g). split; [apply strip_stripped | reflexivity].
Qed.

Lemma explanation_step_sets text explanations l :
  exists v, stripped v /\
            explanation_step text explanations l
            = Returned (dict_set l v explanations).
Proof.
  unfold explanation_step.
  destruct (search (EXPLANATION_RE l) text) as [m|] eqn:E.
  - destruct (group1_returns (EXPLANATION_RE l) text eq_refl E) as [g ->].
    exists (strip g). split; [apply strip_stripped | reflexivity].
  - exists []. split; [apply stripped_nil | reflexivity].
Qed.

(** The first loop ends with four options only if every letter matched. *)
Lemma options_loop_full text options :
  for_each (option_step text) LETTERS [] = Returned options ->
  length options = 4 ->
  keys options = LETTERS /\ Forall (fun kv => stripped (snd kv)) options.
Proof.
  unfold LETTERS. cbn [for_each].
  destruct (option_step_cases text [] (lit "A")) as [-> | (va & Sa & ->)];
    cbn [bind];
    match goal with
    | |- context [option_step text ?o (lit "B")] =>
        destruct (option_step_cases text o (lit "B")) as [-> | (vb & Sb & ->)]
    end; cbn [bind];
    match goal with
    | |- context [option_step text ?o (lit "C")] =>
        destruct (option_step_cases text o (lit "C")) as [-> | (vc & Sc & ->)]
    end; cbn [bind];
    match goal with
    | |- context [option_step text ?o (lit "D")] =>
        destruct (option_step_cases text o (lit "D")) as [-> | (vd & Sd & ->)]
    end; cbn [bind];
    intros [= <-]; cbn; intros L; try discriminate L.
  split; [reflexivity|].
  repeat (apply Forall_cons; [cbn; assumption|]). apply Forall_nil.
Qed.

Lemma explanations_loop_full text explanations :
  for_each (explanation_step text) LETTERS [] = Returned explanations ->
  keys explanations = LETTERS /\
  Forall (fun kv => stripped (snd kv)) explanations.
Proof.
  unfold LETTERS. cbn [for_each].
  destruct (explanation_step_sets text [] (lit "A")) as (va & Sa & ->).
  cbn [bind].
  match goal with
  | |- context [explanation_step text ?o (lit "B")] =>
      destruct (explanation_step_sets text o (lit "B")) as (vb & Sb & ->)
  end. cbn [bind].
  match goal with
  | |- context [explanation_step text ?o (lit "C")] =>
      destruct (explanation_step_sets text o (lit "C")) as (vc & Sc & ->)
  end. cbn [bind].
  match goal with
  | |- context [explanation_step text ?o (lit "D")] =>
      destruct (explanation_step_sets text o (lit "D")) as (vd & Sd & ->)
  end. cbn [bind].
  intros [= <-]. cbn. split; [reflexivity|].
  repeat (apply Forall_cons; [cbn; assumption|]). apply Forall_nil.
Qed.

(** Everything a successful parse guarantees, on any input. *)
Lemma parse_some_inv text q :
  parse_quiz_response text = Returned (Some q) ->
  (keys (qd_options q) = LETTERS /\
   Forall (fun kv => stripped (snd kv)) (qd_options q)) /\
  In (qd_correct q) LETTERS /\
  (keys (qd_explanations q) = LETTERS /\
   Forall (fun kv => stripped (snd kv)) (qd_explanations q)) /\
  stripped (qd_question q) /\ stripped (qd_correct_explanation q) /\
  qd_concept_name q = None.
Proof.
  unfold parse_quiz_response.
  destruct (parse_quiz_response_body_returns text) as [r Hr].
  rewrite Hr. cbn [try_except]. intros [= ->]. revert Hr.
  unfold parse_quiz_response_body.
  destruct (search QUESTION_RE text) as [m|]; [|discriminate].
  destruct (group1 m) as [g|]; cbn [bind]; [|discriminate].
  destruct (for_each (option_step text) LETTERS []) as [options|] eqn:Eo;
    cbn [bind]; [|discriminate].
  destruct (length options =? 4) eqn:L4; cbn [negb]; [|discriminate].
  apply Nat.eqb_eq in L4.
  destruct (search CORRECT_RE text) as [mc|] eqn:Ec; [|discriminate].
  destruct (correct_re_group _ Ec) as (l & -> & Hl). cbn [bind].
  destruct (search CORRECT_EXPLANATION_RE text) as [me|]; [|discriminate].
  destruct (group1 me) as [ge|]; cbn [bind]; [|discriminate].
  destruct (for_each (explanation_step text) LETTERS []) as [explanations|]
    eqn:Ee; cbn [bind]; [|discriminate].
  intros [= <-]. cbn.
  split; [exact (options_loop_full text Eo L4)|]. split; [exact Hl|].
  split; [exact (explanations_loop_full text Ee)|].
  split; [apply strip_stripped|]. split; [apply strip_stripped | reflexivity].
Qed.

(** X1: on any input, a reply that parses at all gives a question with
    exactly the option keys A, B, C, D (in this order), a correct letter
    among them, and an explanation entry for each of the four letters. *)
Theorem parse_success_shape (text : pystr) (q : quiz_data) :
  parse_quiz_response text = Returned (Some q) ->
  keys (qd_options q) = LETTERS /\
  In (qd_correct q) LETTERS /\
  keys (qd_explanations q) = LETTERS /\
  dict_get (qd_correct q) (qd_options q) <> None.
Proof.
  intros H. destruct (parse_some_inv text H) as ((Ko & _) & Hc & (Ke & _) & _).
  repeat split; trivial.
  destruct (qd_options q) as [|[k1 v1] [|[k2 v2] [|[k3 v3] [|[k4 v4] o]]]];
    try discriminate Ko.
  injection Ko as -> -> -> -> _.
  destruct Hc as [<-|[<-|[<-|[<-|[]]]]]; cbn; discriminate.
Qed.

Lemma parse_success_shape_witness :
  keys (qd_options sample_question) = LETTERS /\
  In (qd_correct sample_question) LETTERS /\
  keys (qd_explanations sample_question) = LETTERS /\
  dict_get (qd_correct sample_question) (qd_options sample_question) <> None.
Proof.
  apply (@parse_success_shape sample_reply sample_question).
  vm_compute. reflexivity.
Defined.

(** X2: every text of a parsed reply (the question, the four options, the
    correct explanation and the four explanations) comes without white
    space at its start or end. *)
Theorem parsed_fields_stripped (text : pystr) (q : quiz_data) :
  parse_quiz_response text = Returned (Some q) ->
  stripped (qd_question q) /\
  Forall (fun kv => stripped (snd kv)) (qd_options q) /\
  stripped (qd_correct_explanation q) /\
  Forall (fun kv => stripped (snd kv)) (qd_explanations q).
Proof.
  intros H.
  destruct (parse_some_inv text H)
    as ((_ & So) & _ & (_ & Se) & Sq & Sc & _).
  auto.
Qed.

Lemma parsed_fields_stripped_witness :
  stripped (qd_question sample_question) /\
  Forall (fun kv => stripped (snd kv)) (qd_options sample_question) /\
  stripped (qd_correct_explanation sample_question) /\
  Forall (fun kv => stripped (snd kv)) (qd_explanations sample_question).
Proof.
  apply (@parsed_fields_stripped sample_reply sample_question).
  vm_compute. reflexivity.
Defined.

Lemma option_step_unmatched text l :
  contains (l ++ lit ")") text = false ->
  forall options, option_step text options l = Returned options.
Proof.
  intros C options. unfold option_step.
  destruct (search (OPTION_RE l) text) as [m|] eqn:E.
  { apply search_literal in E. congruence. }
  destruct (search (OPTION_LAST_RE l) text) as [m|] eqn:E'; [|reflexivity].
  apply search_literal in E'. congruence.
Qed.

Lemma options_loop_missing text l options :
  In l LETTERS ->
  (forall o, option_step text o l = Returned o) ->
  for_each (option_step text) LETTERS [] = Returned options ->
  (length options =? 4) = false.
Proof.
  intros Hin Hno. unfold LETTERS in *. cbn [for_each].
  destruct Hin as [<-|[<-|[<-|[<-|[]]]]];
    repeat (first
      [ rewrite Hno
      | match goal with
        | |- context [option_step text ?o ?l'] =>
            destruct (option_step_cases text o l') as [-> | (? & ? & ->)]
        end ]; cbn [bind]);
    intros [= <-]; reflexivity.
Qed.

(** The four ways in which the body gives up. *)
Lemma parse_gives_up text :
  search QUESTION_RE text = None \/
  (forall options,
      for_each (option_step text) LETTERS [] = Returned options ->
      (length options =? 4) = false) \/
  search CORRECT_RE text = None \/
  search CORRECT_EXPLANATION_RE text = None ->
  parse_quiz_response text = Returned None.
Proof.
  intros H. unfold parse_quiz_response.
  destruct (parse_quiz_response_body_returns text) as [r Hr].
  rewrite Hr. cbn [try_except]. f_equal. revert Hr.
  unfold parse_quiz_response_body.
  destruct (search QUESTION_RE text) as [m|]; [|congruence].
  destruct (group1 m) as [g|]; cbn [bind]; [|discriminate].
  destruct (for_each (option_step text) LETTERS []) as [options|] eqn:Eo;
    cbn [bind]; [|discriminate].
  destruct (length options =? 4) eqn:L4; cbn [negb]; [|congruence].
  destruct (search CORRECT_RE text) as [mc|]; [|congruence].
  destruct (group1 mc) as [gc|]; cbn [bind]; [|discriminate].
  destruct (search CORRECT_EXPLANATION_RE text) as [me|]; [|congruence].
  exfalso. destruct H as [H|[H|[H|H]]]; try discriminate H.
  rewrite (H options eq_refl) in L4. discriminate.
Qed.

(** X3: a reply in which one of the markers QUESTION:, A), B), C), D),
    CORRECT: or CORRECT_EXPLANATION: occurs nowhere does not parse: the
    result is None. *)
Theorem parse_fails_without_marker (text marker : pystr) :
  In marker REQUIRED_MARKERS ->
  contains marker text = false ->
  parse_quiz_response text = Returned None.
Proof.
  intros Hin C. apply parse_gives_up.
  assert (forall l r, marker = l ->
                      search (Lit l +++ r) text = None) as no_match.
  { intros l r ->. destruct (search (Lit l +++ r) text) eqn:E; [|reflexivity].
    apply search_literal in E. congruence. }
  assert (forall l, In l LETTERS -> marker = l ++ lit ")" ->
            forall options,
              for_each (option_step text) LETTERS [] = Returned options ->
              (length options =? 4) = false) as no_option.
  { intros l Hl -> options. apply (@options_loop_missing text l options Hl).
    now apply option_step_unmatched. }
  unfold REQUIRED_MARKERS in Hin.
  destruct Hin as [M|[M|[M|[M|[M|[M|[M|[]]]]]]]]; symmetry in M.
  - left. now apply no_match.
  - right; left. apply (no_option (lit "A")); [cbn; tauto | exact M].
  - right; left. apply (no_option (lit "B")); [cbn; tauto | exact M].
  - right; left. apply (no_option (lit "C")); [cbn; tauto | exact M].
  - right; left. apply (no_option (lit "D")); [cbn; tauto | exact M].
  - right; right; left. now apply no_match.
  - right; right; right. now apply no_match.
Qed.

Lemma parse_fails_without_marker_witness :
  parse_quiz_response (lit "QUESTION: q? A) a B) b C) c CORRECT: A")
  = Returned None.
Proof.
  apply (@parse_fails_without_marker
           (lit "QUESTION: q? A) a B) b C) c CORRECT: A") (lit "D)")).
  - cbn. tauto.
  - reflexivity.
Defined.

(** ** More on concept extraction *)

Lemma extract_concepts_filter text :
  extract_concepts text = filter (mentioned text) (first_listed TABLE_PAIRS).
Proof.
  rewrite extract_concepts_eq, <- first_listed_table.
  apply (keep_first_filter (fun k => contains k (lower text))).
Qed.

Lemma startswith_split p : forall s,
  startswith p s = true <-> exists post, s = p ++ post.
Proof.
  induction p as [|a p IH]; intros s; simpl.
  - split; [intros _; now exists s | reflexivity].
  - destruct s as [|b s]; [split; [discriminate | intros [post H]; discriminate]|].
    rewrite andb_true_iff, Ascii.eqb_eq, IH. split.
    + intros [-> [post ->]]. now exists post.
    + intros [post H]. inversion H; subst. split; [reflexivity | now exists post].
Qed.

Lemma contains_split sub : forall s,
  contains sub s = true <-> exists pre post, s = pre ++ sub ++ post.
Proof.
  induction s as [|c s IH]; simpl.
  - rewrite orb_false_r, startswith_split. split.
    + intros [post H]. now exists [], post.
    + intros [[|x pre] [post H]]; [now exists post | discriminate].
  - rewrite orb_true_iff, startswith_split, IH. split.
    + intros [[post H] | (pre & post & H)].
      * now exists [], post.
      * exists (c :: pre), post. simpl. now f_equal.
    + intros [[|x pre] [post H]].
      * left. now exists post.
      * right. inversion H; subst. now exists pre, post.
Qed.

Lemma contains_trans a b c :
  contains a b = true -> contains b c = true -> contains a c = true.
Proof.
  rewrite !contains_split.
  intros (p1 & q1 & ->) (p2 & q2 & ->).
  exists (p2 ++ p1), (q1 ++ q2). now rewrite <- !app_assoc.
Qed.

Lemma contains_within sub s pre post :
  contains sub s = true -> contains sub (pre ++ s ++ post) = true.
Proof.
  intros H. eapply contains_trans; [exact H|]. apply contains_split.
  now exists pre, post.
Qed.

Lemma lower_char_twice c : lower_char (lower_char c) = lower_char c.
Proof. destruct c as [[] [] [] [] [] [] [] []]; reflexivity. Qed.

Lemma lower_twice s : lower (lower s) = lower s.
Proof.
  unfold lower. rewrite map_map. apply map_ext. apply lower_char_twice.
Qed.

Lemma FIRST_LISTED_eq : first_listed TABLE_PAIRS = FIRST_LISTED.
Proof. vm_compute. reflexivity. Qed.

(** Every keyword of the table is the name of a first-listed entry. *)
Lemma table_names_first_listed :
  forallb (fun item =>
             existsb (fun item' => eqb (fst item') (fst item)) FIRST_LISTED)
          TABLE_PAIRS = true.
Proof. vm_compute. reflexivity. Qed.

Lemma TABLE_PAIRS_of_table category keywords name :
  In (category, keywords) CONCEPT_KEYWORDS -> In name keywords ->
  In (name, category) TABLE_PAIRS.
Proof.
  intros Hc Hk. unfold TABLE_PAIRS. apply in_flat_map.
  exists (category, keywords). split; [exact Hc|].
  apply in_map_iff. now exists name.
Qed.

Lemma mentioned_keyword_extracted text name category :
  In (name, category) TABLE_PAIRS ->
  contains (lower name) (lower text) = true ->
  In name (map fst (extract_concepts text)).
Proof.
  intros Hin Hc.
  pose proof table_names_first_listed as T.
  rewrite forallb_forall in T. specialize (T _ Hin).
  apply existsb_exists in T. destruct T as [[name' category'] [Hfirst E]].
  apply pystr_eqb_eq in E. simpl in E. subst name'.
  rewrite extract_concepts_filter, FIRST_LISTED_eq. apply in_map_iff.
  exists (name, category'). split; [reflexivity|].
  apply filter_In. split; [exact Hfirst | exact Hc].
Qed.

Lemma extracted_is_mentioned text name :
  In name (map fst (extract_concepts text)) ->
  contains (lower name) (lower text) = true.
Proof.
  rewrite extract_concepts_filter. intros H. apply in_map_iff in H.
  destruct H as [[n c] [E H]]. simpl in E. subst n.
  apply filter_In in H. exact (proj2 H).
Qed.

(** X4: de-duplication loses no keyword: every keyword of the table that
    occurs in the text, compared in lower case, is among the returned
    names. *)
Theorem extract_concepts_complete
        (text category : pystr) (keywords : list pystr) (name : pystr) :
  In (category, keywords) CONCEPT_KEYWORDS ->
  In name keywords ->
  contains (lower name) (lower text) = true ->
  In name (map fst (extract_concepts text)).
Proof.
  intros Hc Hk Hm.
  apply (@mentioned_keyword_extracted text name category); [|exact Hm].
  now apply (@TABLE_PAIRS_of_table category keywords).
Qed.

Lemma extract_concepts_complete_witness :
  In (lit "TLS")
     (map fst (extract_concepts (lit "Always use tls for the login page."))).
Proof.
  apply (@extract_concepts_complete
           (lit "Always use tls for the login page.") (lit "Cryptography")
           (map lit ["hash"; "hashing"; "MD5"; "SHA"; "SHA-256"; "SHA-1";
                     "encryption"; "decryption"; "AES"; "RSA"; "symmetric";
                     "asymmetric"; "public key"; "private key"; "certificate";
                     "TLS"; "SSL"; "PKI"; "digital signature"; "cipher";
                     "plaintext"; "ciphertext"])
           (lit "TLS")).
  - vm_compute. tauto.
  - vm_compute. tauto.
  - reflexivity.
Defined.

(** X5: extraction grows with the text: whatever is extracted from a
    passage is also extracted, with the same category, from any text that
    contains the passage. *)
Theorem extract_concepts_monotone
        (before passage after : pystr) (item : pystr * pystr) :
  In item (extract_concepts passage) ->
  In item (extract_concepts (before ++ passage ++ after)).
Proof.
  rewrite !extract_concepts_filter, !filter_In. intros [Hin Hm].
  split; [exact Hin|]. unfold mentioned in *. unfold lower in *.
  rewrite !map_app. now apply contains_within.
Qed.

Lemma extract_concepts_monotone_witness :
  In (lit "phishing", lit "Social Engineering")
     (extract_concepts (lit "Beware: " ++ lit "Phishing mails" ++ lit " lure users.")).
Proof.
  apply (@extract_concepts_monotone (lit "Beware: ") (lit "Phishing mails")
           (lit " lure users.") (lit "phishing", lit "Social Engineering")).
  vm_compute. tauto.
Defined.

(** X6: extraction ignores the letter case of the text: lower-casing the
    text first changes nothing. *)
Theorem extract_concepts_ignores_case (text : pystr) :
  extract_concepts (lower text) = extract_concepts text.
Proof.
  rewrite !extract_concepts_filter. apply filter_ext.
  intros item. unfold mentioned. now rewrite lower_twice.
Qed.

(** X7: there is no word-boundary check: when a returned keyword contains
    another keyword of the table (compared in lower case), that one is
    returned as well; "firewall" always brings "IR" with it. *)
Theorem extract_concepts_nested_keyword
        (text category : pystr) (keywords : list pystr) (outer inner : pystr) :
  In (category, keywords) CONCEPT_KEYWORDS ->
  In inner keywords ->
  contains (lower inner) (lower outer) = true ->
  In outer (map fst (extract_concepts text)) ->
  In inner (map fst (extract_concepts text)).
Proof.
  intros Hc Hk Hnest Hout.
  apply (@mentioned_keyword_extracted text inner category).
  - now apply (@TABLE_PAIRS_of_table category keywords).
  - eapply contains_trans; [exact Hnest|]. now apply extracted_is_mentioned.
Qed.

Lemma extract_concepts_nested_keyword_witness :
  In (lit "IR") (map fst (extract_concepts (lit "Install a firewall."))).
Proof.
  apply (@extract_concepts_nested_keyword
           (lit "Install a firewall.") (lit "Incident Response")
           (map lit ["incident response"; "IR"; "forensics"; "DFIR"; "triage";
                     "containment"; "eradication"; "recovery";
                     "lessons learned"; "playbook"; "SIEM"; "SOC";
                     "security operations"; "alert"])
           (lit "firewall") (lit "IR")).
  - vm_compute. tauto.
  - vm_compute. tauto.
  - reflexivity.
  - vm_compute. tauto.
Defined.

(** ** More on the concept store *)

Section RowUpdates.

Variable f : concept_row -> concept_row.
Hypothesis f_id : forall row, c_id (f row) = c_id row.
Hypothesis f_name : forall row, c_name (f row) = c_name row.

Lemma update_where_id_ids id rows :
  map c_id (update_where_id id f rows) = map c_id rows.
Proof.
  unfold update_where_id. rewrite map_map. apply map_ext.
  intros row. destruct (c_id row =? id)%Z; [apply f_id | reflexivity].
Qed.

Lemma update_where_id_names id rows :
  map c_name (update_where_id id f rows) = map c_name rows.
Proof.
  unfold update_where_id. rewrite map_map. apply map_ext.
  intros row. destruct (c_id row =? id)%Z; [apply f_name | reflexivity].
Qed.

Lemma update_where_id_Forall (P : concept_row -> Prop) id rows :
  (forall row, P row -> P (f row)) ->
  Forall P rows -> Forall P (update_where_id id f rows).
Proof.
  intros Hf H. unfold update_where_id. apply Forall_map.
  eapply Forall_impl; [|exact H]. intros row Hrow.
  destruct (c_id row =? id)%Z; auto.
Qed.

End RowUpdates.

Lemma update_where_id_absent f id rows :
  find (fun row => (c_id row =? id)%Z) rows = None ->
  update_where_id id f rows = rows.
Proof.
  unfold update_where_id. induction rows as [|r rows IH]; simpl;
    [reflexivity|].
  destruct (c_id r =? id)%Z; [discriminate|]. intros H. now rewrite IH.
Qed.

Lemma NoDup_map_injective (A B : Type) (g : A -> B) l x y :
  NoDup (map g l) -> In x l -> In y l -> g x = g y -> x = y.
Proof.
  induction l as [|a l IH]; simpl; intros N Hx Hy E; [tauto|].
  inversion N as [|? ? Ha N']; subst.
  destruct Hx as [->|Hx], Hy as [->|Hy]; trivial.
  - exfalso. apply Ha. rewrite E. now apply in_map.
  - exfalso. apply Ha. rewrite <- E. now apply in_map.
  - now apply IH.
Qed.

Lemma find_by_name_some name rows row :
  find (fun r => eqb (c_name r) name) rows = Some row ->
  In row rows /\ c_name row = name.
Proof.
  intros H. apply find_some in H. destruct H as [Hin E].
  apply pystr_eqb_eq in E. auto.
Qed.

Lemma find_by_id_some id rows row :
  find (fun r => (c_id r =? id)%Z) rows = Some row ->
  In row rows /\ c_id row = id.
Proof.
  intros H. apply find_some in H. destruct H as [Hin E].
  apply Z.eqb_eq in E. auto.
Qed.

Lemma find_by_id_of_row rows row :
  NoDup (map c_id rows) -> In row rows ->
  find (fun r => (c_id r =? c_id row)%Z) rows = Some row.
Proof.
  intros N Hin.
  destruct (find (fun r => (c_id r =? c_id row)%Z) rows) as [r|] eqn:E.
  - destruct (find_by_id_some _ _ E) as [Hr Hid].
    f_equal. now apply (NoDup_map_injective c_id rows).
  - exfalso. pose proof (find_none _ _ E _ Hin) as H. cbn in H.
    now rewrite Z.eqb_refl in H.
Qed.

Lemma find_snoc (A : Type) (p : A -> bool) l x :
  find p (l ++ [x])
  = match find p l with
    | Some y => Some y
    | None => if p x then Some x else None
    end.
Proof.
  induction l as [|a l IH]; simpl; [reflexivity|].
  destruct (p a); [reflexivity | exact IH].
Qed.

Lemma store_ok_save_concept name category d :
  store_ok d -> store_ok (fst (save_concept name category d)).
Proof.
  intros (Nid & Nname & Hseq & Hlevel & Htimes). unfold save_concept.
  destruct (select_concept_by_name name d) as [row|] eqn:E;
    unfold store_ok; cbn [fst concepts concepts_seq with_concepts].
  - rewrite update_where_id_ids, update_where_id_names by reflexivity.
    repeat split; trivial.
    + apply update_where_id_Forall; auto.
    + apply update_where_id_Forall; auto.
    + apply update_where_id_Forall; [|exact Htimes].
      intros r _. cbn.
      destruct (find_by_name_some _ _ E) as [Hin _].
      rewrite Forall_forall in Htimes. specialize (Htimes _ Hin). lia.
  - rewrite !map_app. cbn [map c_id c_name].
    repeat split.
    + apply NoDup_app; [exact Nid | repeat constructor; tauto |].
      intros x Hx [<-|[]]. apply in_map_iff in Hx.
      destruct Hx as [r [Er Hr]]. rewrite Forall_forall in Hseq.
      specialize (Hseq _ Hr). lia.
    + apply NoDup_app; [exact Nname | repeat constructor; tauto |].
      intros x Hx [<-|[]]. apply in_map_iff in Hx.
      destruct Hx as [r [Er Hr]].
      pose proof (find_none _ _ E _ Hr) as H. cbn in H.
      rewrite Er, pystr_eqb_refl in H. discriminate.
    + apply Forall_app. split.
      * eapply Forall_impl; [|exact Hseq]. cbn. intros; lia.
      * repeat constructor. cbn. lia.
    + apply Forall_app. split; [exact Hlevel|]. repeat constructor; cbn; lia.
    + apply Forall_app. split; [exact Htimes|]. repeat constructor; cbn; lia.
Qed.

Lemma store_ok_update_understanding now id level d :
  store_ok d -> store_ok (update_concept_understanding now id level d).
Proof.
  intros (Nid & Nname & Hseq & Hlevel & Htimes).
  unfold store_ok, update_concept_understanding.
  cbn [concepts concepts_seq with_concepts].
  rewrite update_where_id_ids, update_where_id_names by reflexivity.
  repeat split; trivial; apply update_where_id_Forall; auto; intros; cbn; lia.
Qed.

(** Whatever the four writing operations of the store keep, [main]
    keeps: it reaches the store through them only. *)
Section StorePreserved.

Variable P : database -> Prop.
Hypothesis P_save_concept :
  forall name category d, P d -> P (fst (save_concept name category d)).
Hypothesis P_save_message :
  forall session role content d,
    P d -> P (fst (save_message session role content d)).
Hypothesis P_mention :
  forall c m s d, P d -> P (record_concept_mention c m s d).
Hypothesis P_understanding :
  forall now id level d, P d -> P (update_concept_understanding now id level d).

Lemma track_concepts_preserve message_id session items : forall d,
  P d -> P (fold_left (track_concept message_id session) items d).
Proof.
  induction items as [|[name category] items IH]; intros d Hd; simpl;
    [exact Hd|].
  apply IH. unfold track_concept.
  pose proof (P_save_concept name (Some category) Hd) as H.
  destruct (save_concept name (Some category) d) as [d1 concept_id].
  now apply P_mention.
Qed.

Lemma save_and_track_message_preserves role content w :
  P (db w) -> P (db (save_and_track_message role content w)).
Proof.
  intros Hd. unfold save_and_track_message.
  pose proof (P_save_message (session_id (ss w)) role content Hd) as H.
  destruct (save_message _ _ _ _) as [d1 message_id]. cbn [fst] in H.
  destruct (eqb role (lit "assistant")); cbn [db set_db]; [|exact H].
  now apply track_concepts_preserve.
Qed.

Lemma process_user_input_preserves e user_input w :
  P (db w) -> P (db (process_user_input e user_input w)).
Proof.
  intros Hd. unfold process_user_input.
  destruct (run_agent _ _ _) as [[response_text new_messages]|x].
  - apply save_and_track_message_preserves. cbn [db set_ss send].
    now apply save_and_track_message_preserves.
  - cbn [db send]. now apply save_and_track_message_preserves.
Qed.

Lemma update_each_preserves clock level batch : forall k d,
  P d -> P (update_each clock k batch level d).
Proof.
  induction batch as [|c rest IH]; intros k d Hd; simpl; [exact Hd|].
  apply IH. now apply P_understanding.
Qed.

Lemma main_preserves_store e w : P (db w) -> P (db (fst (main e w))).
Proof.
  intros Hd. unfold main.
  destruct (quiz_active (ss w) && negb (awaiting_rating (ss w))).
  - destruct (quiz_state (ss w)) as [q|] eqn:Q; [|exact Hd].
    destruct (render_quiz_header q); [|exact Hd].
    destruct (qs_answered q).
    + unfold render_quiz_result. rewrite Q.
      destruct (negb (qs_answered q)); [exact Hd|].
      destruct (result_lookups q); [|exact Hd].
      destruct (fired e); try exact Hd.
      destruct (negb _); exact Hd.
    + unfold render_quiz_question. rewrite Q.
      destruct (check_message_limit (ss w)); [exact Hd|].
      destruct (qs_loading q).
      * destruct (nth_error _ _); [|exact Hd].
        destruct (generate_quiz_question _ _) as [[d|]|[]]; exact Hd.
      * destruct (fired e); try exact Hd.
        cbn [set_answer qs_concepts qs_current_index].
        destruct (nth_error _ _); exact Hd.
  - destruct (quiz_mode (ss w) && awaiting_rating (ss w)).
    + unfold render_understanding_rating, update_quiz_understanding.
      destruct (fired e); try exact Hd;
        cbn [fst db set_db]; now apply update_each_preserves.
    + unfold chat_area.
      destruct (check_message_limit (ss w)); [exact Hd|].
      destruct (pending_concept_question (ss w)) as [[|c rest]|].
      * destruct (fired e) as [| | | | | | |[|c rest]]; try exact Hd.
        cbn [fst]. now apply process_user_input_preserves.
      * cbn [fst]. now apply process_user_input_preserves.
      * destruct (fired e) as [| | | | | | |[|c rest]]; try exact Hd.
        cbn [fst]. now apply process_user_input_preserves.
Qed.

Lemma runs_preserve_store es : forall w, P (db w) -> P (db (runs es w)).
Proof.
  induction es as [|e es IH]; intros w Hd; simpl; [exact Hd|].
  apply IH. now apply main_preserves_store.
Qed.

End StorePreserved.

(** X8: the constraints of the [concepts] table hold through any sequence
    of runs: ids and names stay unique (the UNIQUE constraint is never hit),
    every understanding_level stays within 1..5 and every times_discussed
    at least 1. *)
Theorem store_ok_through_runs (es : list env) (w : world) :
  store_ok (db w) -> store_ok (db (runs es w)).
Proof.
  apply runs_preserve_store.
  - intros. now apply store_ok_save_concept.
  - intros session role content d H. exact H.
  - intros c m s d H. exact H.
  - intros. now apply store_ok_update_understanding.
Qed.

(** Settles [store_ok] of a store that is written out. *)
Ltac store_ok_by_computation :=
  unfold store_ok; cbn; repeat split;
  first
    [ repeat (apply NoDup_cons; [cbn; intuition discriminate|]);
      apply NoDup_nil
    | repeat (apply Forall_cons; [cbn; lia|]); apply Forall_nil ].

Lemma store_ok_through_runs_witness :
  store_ok
    (db (runs [run_with (ChatInput (lit "What is a firewall?")) llm_teacher;
               run_with (ChatInput (lit "And a packet?")) llm_teacher]
              empty_world)).
Proof.
  apply (@store_ok_through_runs
           [run_with (ChatInput (lit "What is a firewall?")) llm_teacher;
            run_with (ChatInput (lit "And a packet?")) llm_teacher]
           empty_world).
  store_ok_by_computation.
Defined.

(** X9: under the table's constraints, the id that [save_concept] returns
    identifies the row now stored under the name: looking the id up and
    looking the name up give the same row, and that row carries both. *)
Theorem save_concept_returns_id_of_name
        (name : pystr) (category : option pystr) (d : database) :
  store_ok d ->
  exists row,
    get_concept_by_name name (fst (save_concept name category d)) = Some row /\
    concept_with_id (snd (save_concept name category d))
                    (fst (save_concept name category d)) = Some row /\
    c_name row = name /\
    c_id row = snd (save_concept name category d).
Proof.
  intros (Nid & Nname & Hseq & _).
  unfold get_concept_by_name, concept_with_id, save_concept,
    select_concept_by_name.
  destruct (find (fun row => eqb (c_name row) name) (concepts d))
    as [row|] eqn:E; cbn [fst snd concepts with_concepts].
  - destruct (@find_by_name_some _ _ _ E) as [Hin Hname].
    exists (set_times_discussed (c_times_discussed row + 1) row).
    rewrite find_name_update, find_id_update by reflexivity.
    rewrite E, Z.eqb_refl, (@find_by_id_of_row _ _ Nid Hin). cbn.
    rewrite Z.eqb_refl. auto.
  - eexists. rewrite !find_snoc, E. cbn. rewrite pystr_eqb_refl, Z.eqb_refl.
    destruct (find (fun row => (c_id row =? concepts_seq d + 1)%Z)
                   (concepts d)) as [r|] eqn:Ei.
    + exfalso. destruct (@find_by_id_some _ _ _ Ei) as [Hr Hid].
      rewrite Forall_forall in Hseq. specialize (Hseq _ Hr). lia.
    + repeat split.
Qed.

Lemma save_concept_returns_id_of_name_witness :
  exists row,
    get_concept_by_name (lit "phishing")
      (fst (save_concept (lit "phishing") None (db two_concept_world)))
    = Some row /\
    concept_with_id
      (snd (save_concept (lit "phishing") None (db two_concept_world)))
      (fst (save_concept (lit "phishing") None (db two_concept_world)))
    = Some row /\
    c_name row = lit "phishing" /\
    c_id row = snd (save_concept (lit "phishing") None (db two_concept_world)).
Proof.
  apply (@save_concept_returns_id_of_name (lit "phishing") None
           (db two_concept_world)).
  store_ok_by_computation.
Defined.

Lemma save_concept_other_name name category other d :
  store_ok d -> other <> name ->
  get_concept_by_name other (fst (save_concept name category d))
  = get_concept_by_name other d.
Proof.
  intros (Nid & _) Hne.
  unfold get_concept_by_name, save_concept, select_concept_by_name.
  destruct (find (fun row => eqb (c_name row) name) (concepts d))
    as [row|] eqn:E; cbn [fst concepts with_concepts].
  - rewrite find_name_update by reflexivity.
    destruct (find (fun r => eqb (c_name r) other) (concepts d))
      as [r|] eqn:Eo; [|reflexivity].
    cbn. f_equal.
    destruct (Z.eqb_spec (c_id r) (c_id row)) as [Eid|]; [|reflexivity].
    exfalso. destruct (@find_by_name_some _ _ _ E) as [Hin Hn].
    destruct (@find_by_name_some _ _ _ Eo) as [Hin' Hn'].
    pose proof (@NoDup_map_injective _ _ c_id _ _ _ Nid Hin' Hin Eid). congruence.
  - rewrite find_snoc. cbn.
    destruct (find (fun r => eqb (c_name r) other) (concepts d));
      [reflexivity|].
    destruct (eqb name other) eqn:Eq; [|reflexivity].
    apply pystr_eqb_eq in Eq. congruence.
Qed.

Lemma save_concept_count name category d :
  times_discussed_of name (fst (save_concept name category d))
  = (times_discussed_of name d + 1)%Z.
Proof.
  unfold times_discussed_of, get_concept_by_name, save_concept,
    select_concept_by_name.
  destruct (find (fun row => eqb (c_name row) name) (concepts d))
    as [row|] eqn:E; cbn [fst concepts with_concepts].
  - rewrite find_name_update by reflexivity. rewrite E. cbn.
    now rewrite Z.eqb_refl.
  - rewrite find_snoc, E. cbn. now rewrite pystr_eqb_refl.
Qed.

(** X10: under the table's constraints, [save_concept] touches nothing but
    the discussion count of the one name: every other name reads back as
    before, and the id, name, category, level and review time of every
    row already there are kept. *)
Theorem save_concept_frame
        (name : pystr) (category : option pystr) (d : database) :
  store_ok d ->
  let d' := fst (save_concept name category d) in
  (forall other, other <> name ->
     get_concept_by_name other d' = get_concept_by_name other d) /\
  map (fun r => (c_id r, c_name r, c_category r,
                 c_understanding_level r, c_last_reviewed_at r))
      (firstn (length (concepts d)) (concepts d'))
  = map (fun r => (c_id r, c_name r, c_category r,
                   c_understanding_level r, c_last_reviewed_at r))
        (concepts d).
Proof.
  intros Hok d'. split.
  - intros other Hne. now apply save_concept_other_name.
  - unfold d', save_concept.
    destruct (select_concept_by_name name d) as [row|];
      cbn [fst concepts with_concepts].
    + unfold update_where_id.
      rewrite firstn_all2 by (rewrite length_map; lia).
      rewrite map_map. apply map_ext.
      intros r. destruct (c_id r =? c_id row)%Z; reflexivity.
    + rewrite firstn_app, Nat.sub_diag, firstn_all. cbn.
      now rewrite app_nil_r.
Qed.

Lemma save_concept_frame_witness :
  let d := db two_concept_world in
  let d' := fst (save_concept (lit "firewall") None d) in
  (forall other, other <> lit "firewall" ->
     get_concept_by_name other d' = get_concept_by_name other d) /\
  map (fun r => (c_id r, c_name r, c_category r,
                 c_understanding_level r, c_last_reviewed_at r))
      (firstn (length (concepts d)) (concepts d'))
  = map (fun r => (c_id r, c_name r, c_category r,
                   c_understanding_level r, c_last_reviewed_at r))
        (concepts d).
Proof.
  intros d.
  apply (@save_concept_frame (lit "firewall") None (db two_concept_world)).
  store_ok_by_computation.
Defined.

(** ** Tracking the concepts of a message *)

Lemma record_concept_mention_concepts c m s d :
  concepts (record_concept_mention c m s d) = concepts d /\
  concepts_seq (record_concept_mention c m s d) = concepts_seq d.
Proof. split; reflexivity. Qed.

Lemma track_concept_spec message_id session d name category :
  concepts (track_concept message_id session d (name, category))
  = concepts (fst (save_concept name (Some category) d)) /\
  concepts_seq (track_concept message_id session d (name, category))
  = concepts_seq (fst (save_concept name (Some category) d)) /\
  length (concept_mentions (track_concept message_id session d (name, category)))
  = S (length (concept_mentions d)) /\
  messages (track_concept message_id session d (name, category)) = messages d.
Proof.
  unfold track_concept, save_concept.
  destruct (select_concept_by_name name d); cbn;
    rewrite length_app; cbn; repeat split; lia.
Qed.

Lemma times_discussed_of_ext name d d' :
  concepts d' = concepts d ->
  times_discussed_of name d' = times_discussed_of name d.
Proof.
  unfold times_discussed_of, get_concept_by_name, select_concept_by_name.
  now intros ->.
Qed.

Lemma store_ok_ext d d' :
  concepts d' = concepts d -> concepts_seq d' = concepts_seq d ->
  store_ok d -> store_ok d'.
Proof. unfold store_ok. now intros -> ->. Qed.

(** The loop over the extracted items: each name is counted once. *)
Lemma track_concepts_counts message_id session items : forall d,
  store_ok d -> NoDup (map fst items) ->
  let d' := fold_left (track_concept message_id session) items d in
  store_ok d' /\
  length (concept_mentions d')
  = length (concept_mentions d) + length items /\
  messages d' = messages d /\
  forall name,
    (In name (map fst items) ->
     times_discussed_of name d' = (times_discussed_of name d + 1)%Z) /\
    (~ In name (map fst items) ->
     get_concept_by_name name d' = get_concept_by_name name d).
Proof.
  induction items as [|[n c] items IH]; intros d Hok Hnd; cbn [fold_left].
  - cbn. split; [exact Hok|]. split; [lia|]. split; [reflexivity|].
    intros name. split; [intros [] | reflexivity].
  - cbn [map fst] in Hnd. inversion Hnd as [|? ? Hn Hnd']; subst.
    destruct (track_concept_spec message_id session d n c)
      as (Ec & Es & Em & Eg).
    set (d1 := track_concept message_id session d (n, c)) in *.
    assert (store_ok d1) as Hok1.
    { apply (@store_ok_ext _ _ Ec Es). now apply store_ok_save_concept. }
    destruct (IH d1 Hok1 Hnd') as (Hok' & Hm' & Hg' & Hnames).
    split; [exact Hok'|]. split; [cbn [length]; lia|].
    split; [congruence|].
    intros name. destruct (Hnames name) as [Hin Hout]. cbn [map fst]. split.
    + intros [<-|Hrest].
      * unfold times_discussed_of at 1. rewrite (Hout Hn).
        fold (times_discussed_of n d1).
        rewrite (@times_discussed_of_ext n _ _ Ec). apply save_concept_count.
      * rewrite (Hin Hrest). f_equal.
        unfold times_discussed_of.
        assert (get_concept_by_name name d1 = get_concept_by_name name d)
          as ->; [|reflexivity].
        unfold get_concept_by_name, select_concept_by_name. rewrite Ec.
        apply (@save_concept_other_name n (Some c) name _ Hok).
        intros E. apply Hn. now rewrite <- E.
    + intros Hno. rewrite Hout by (intros Hr; apply Hno; now right).
      unfold get_concept_by_name, select_concept_by_name. rewrite Ec.
      apply (@save_concept_other_name n (Some c) name _ Hok).
      intros E. apply Hno. left. now symmetry.
Qed.

Lemma extract_concepts_names_NoDup text :
  NoDup (map fst (extract_concepts text)).
Proof.
  apply (NoDup_map_inv lower). rewrite map_map, extract_concepts_eq.
  apply keep_first_NoDup.
Qed.

(** X11: saving an assistant message stores the message, records one
    mention per extracted concept and raises the discussion count of each
    extracted name by exactly one, however often the keyword occurs in the
    message; names not extracted read back as before. A message of any
    other role is stored without touching concepts or mentions. *)
Theorem message_counts_each_concept_once (role content : pystr) (w : world) :
  store_ok (db w) ->
  let w' := save_and_track_message role content w in
  length (messages (db w')) = S (length (messages (db w))) /\
  if eqb role (lit "assistant") then
    length (concept_mentions (db w'))
    = length (concept_mentions (db w)) + length (extract_concepts content) /\
    forall name,
      (In name (map fst (extract_concepts content)) ->
       times_discussed_of name (db w')
       = (times_discussed_of name (db w) + 1)%Z) /\
      (~ In name (map fst (extract_concepts content)) ->
       get_concept_by_name name (db w') = get_concept_by_name name (db w))
  else
    concepts (db w') = concepts (db w) /\
    concept_mentions (db w') = concept_mentions (db w).
Proof.
  intros Hok w'. unfold w', save_and_track_message, save_message.
  destruct (eqb role (lit "assistant")); cbn [db set_db].
  - set (d1 := {| concepts := concepts (db w);
                  concepts_seq := concepts_seq (db w);
                  messages := _; messages_seq := _;
                  concept_mentions := concept_mentions (db w);
                  concept_mentions_seq := concept_mentions_seq (db w) |}).
    assert (store_ok d1) as Hok1 by exact Hok.
    destruct (@track_concepts_counts (messages_seq (db w) + 1)%Z
                (session_id (ss w)) (extract_concepts content) d1 Hok1
                (extract_concepts_names_NoDup content))
      as (_ & Hm & Hg & Hn).
    split; [rewrite Hg; cbn; rewrite length_app; cbn; lia|].
    split; [exact Hm | exact Hn].
  - cbn. rewrite length_app. cbn. repeat split. lia.
Qed.

Lemma message_counts_each_concept_once_witness :
  let content := lit "A firewall is not a Firewall unless the firewall logs." in
  let w' := save_and_track_message (lit "assistant") content two_concept_world in
  length (messages (db w')) = S (length (messages (db two_concept_world))) /\
  (length (concept_mentions (db w'))
   = length (concept_mentions (db two_concept_world))
     + length (extract_concepts content) /\
   forall name,
     (In name (map fst (extract_concepts content)) ->
      times_discussed_of name (db w')
      = (times_discussed_of name (db two_concept_world) + 1)%Z) /\
     (~ In name (map fst (extract_concepts content)) ->
      get_concept_by_name name (db w')
      = get_concept_by_name name (db two_concept_world))).
Proof.
  intros content.
  apply (@message_counts_each_concept_once (lit "assistant") content
           two_concept_world).
  store_ok_by_computation.
Defined.

(** ** What a rating leaves alone *)

(** X12: [update_concept_understanding] writes the level and the review
    time of the one concept only: ids, names, categories and discussion
    counts of all rows are kept, every other id reads back as before, and
    for an id that is not in the table the store is left as it was. *)
Theorem update_concept_understanding_frame (now id level : Z) (d : database) :
  let d' := update_concept_understanding now id level d in
  map (fun r => (c_id r, c_name r, c_category r, c_times_discussed r))
      (concepts d')
  = map (fun r => (c_id r, c_name r, c_category r, c_times_discussed r))
        (concepts d) /\
  (forall other, other <> id ->
     concept_with_id other d' = concept_with_id other d) /\
  (concept_with_id id d = None -> d' = d).
Proof.
  intros d'. unfold d'. split; [|split].
  - unfold update_concept_understanding, update_where_id.
    cbn [concepts with_concepts]. rewrite map_map. apply map_ext.
    intros r. destruct (c_id r =? id)%Z; reflexivity.
  - intros other Hne. rewrite concept_with_id_update.
    destruct (Z.eqb_spec id other); [congruence | reflexivity].
  - unfold concept_with_id, update_concept_understanding. intros Hnone.
    rewrite (@update_where_id_absent _ _ _ Hnone). now destruct d.
Qed.

Lemma update_each_concepts_kept clock level batch : forall k d,
  map (fun r => (c_id r, c_name r, c_category r, c_times_discussed r))
      (concepts (update_each clock k batch level d))
  = map (fun r => (c_id r, c_name r, c_category r, c_times_discussed r))
        (concepts d) /\
  messages (update_each clock k batch level d) = messages d /\
  concept_mentions (update_each clock k batch level d) = concept_mentions d.
Proof.
  induction batch as [|c rest IH]; intros k d; simpl; [auto|].
  destruct (IH (S k) (update_concept_understanding (clock k) (c_id c) level d))
    as (E1 & E2 & E3).
  rewrite E1, E2, E3. split; [|split; reflexivity].
  unfold update_concept_understanding, update_where_id.
  cbn [concepts with_concepts]. rewrite map_map. apply map_ext.
  intros r. destruct (c_id r =? c_id c)%Z; reflexivity.
Qed.

(** X13: submitting a rating changes nothing outside the quiz batch: a
    concept that is not in the batch reads back as before, no row appears
    or disappears, names, categories and discussion counts are kept, the
    messages and mentions are untouched and nothing is sent to the LLM
    service. *)
Theorem rating_touches_only_the_batch
        (clock : nat -> Z) (level id : Z) (w : world) :
  ~ In id (map c_id (quiz_concepts (ss w))) ->
  let w' := update_quiz_understanding clock level w in
  concept_with_id id (db w') = concept_with_id id (db w) /\
  map (fun r => (c_id r, c_name r, c_category r, c_times_discussed r))
      (concepts (db w'))
  = map (fun r => (c_id r, c_name r, c_category r, c_times_discussed r))
        (concepts (db w)) /\
  messages (db w') = messages (db w) /\
  concept_mentions (db w') = concept_mentions (db w) /\
  requests w' = requests w /\
  ss_messages (ss w') = ss_messages (ss w).
Proof.
  intros Hout w'. unfold w', update_quiz_understanding.
  cbn [db set_db set_ss requests ss].
  destruct (update_each_row clock level id (quiz_concepts (ss w)) 0 (db w))
    as [_ H].
  destruct (update_each_concepts_kept clock level (quiz_concepts (ss w)) 0
                                      (db w)) as (E1 & E2 & E3).
  rewrite (H Hout). repeat split; trivial.
Qed.

Lemma rating_touches_only_the_batch_witness :
  let w := set_ss (set_quiz true [concept_A] true None (ss two_concept_world))
                  two_concept_world in
  let w' := update_quiz_understanding (fun k => Z.of_nat k) 5 w in
  concept_with_id 2 (db w') = concept_with_id 2 (db w) /\
  map (fun r => (c_id r, c_name r, c_category r, c_times_discussed r))
      (concepts (db w'))
  = map (fun r => (c_id r, c_name r, c_category r, c_times_discussed r))
        (concepts (db w)) /\
  messages (db w') = messages (db w) /\
  concept_mentions (db w') = concept_mentions (db w) /\
  requests w' = requests w /\
  ss_messages (ss w') = ss_messages (ss w).
Proof.
  intros w.
  apply (@rating_touches_only_the_batch (fun k => Z.of_nat k) 5 2 w).
  cbn. intros [H|[]]. discriminate H.
Defined.

(** ** The chat turn and the message budget *)

Lemma track_concepts_messages message_id session items : forall d,
  messages (fold_left (track_concept message_id session) items d)
  = messages d.
Proof.
  induction items as [|[n c] items IH]; intros d; simpl; [reflexivity|].
  rewrite IH. apply track_concept_spec.
Qed.

Lemma save_and_track_message_effect role content w :
  ss (save_and_track_message role content w) = ss w /\
  requests (save_and_track_message role content w) = requests w /\
  length (messages (db (save_and_track_message role content w)))
  = S (length (messages (db w))).
Proof.
  unfold save_and_track_message, save_message.
  destruct (eqb role (lit "assistant")); cbn [ss db requests set_db];
    rewrite ?track_concepts_messages; cbn; rewrite length_app; cbn;
    repeat split; lia.
Qed.

(** X14: a chat turn sends exactly one request, the user's input. When
    the LLM service replies, the count goes up by one, the transcript gains
    the user's and the assistant's message, the history gains the new turns
    and two messages are stored. When it raises, the count and the history
    stay as they were, but the user's message stays in the transcript and
    in the store, without a reply. *)
Theorem process_user_input_accounting (e : env) (user_input : pystr) (w : world) :
  let w' := process_user_input e user_input w in
  requests w' = requests w ++ [user_input] /\
  match llm e user_input (pydantic_messages (ss w)) with
  | Returned (response_text, new_messages) =>
      message_count (ss w') = (message_count (ss w) + 1)%Z /\
      ss_messages (ss w')
      = ss_messages (ss w) ++ [(lit "user", user_input);
                               (lit "assistant", response_text)] /\
      pydantic_messages (ss w') = pydantic_messages (ss w) ++ new_messages /\
      length (messages (db w')) = length (messages (db w)) + 2
  | Raised _ =>
      message_count (ss w') = message_count (ss w) /\
      ss_messages (ss w') = ss_messages (ss w) ++ [(lit "user", user_input)] /\
      pydantic_messages (ss w') = pydantic_messages (ss w) /\
      length (messages (db w')) = length (messages (db w)) + 1 /\
      concepts (db w') = concepts (db w)
  end.
Proof.
  intros w'. unfold w', process_user_input, run_agent.
  set (w1 := set_ss (append_message (lit "user") user_input (ss w)) w).
  destruct (save_and_track_message_effect (lit "user") user_input w1)
    as (Es & Er & Em).
  assert (concepts (db (save_and_track_message (lit "user") user_input w1))
          = concepts (db w)) as Ec by reflexivity.
  set (w2 := save_and_track_message (lit "user") user_input w1) in *.
  clearbody w2. cbn [ss send]. rewrite Es.
  cbn [pydantic_messages append_message set_chat w1 ss set_ss].
  destruct (llm e user_input (pydantic_messages (ss w)))
    as [[response_text new_messages]|x].
  - match goal with
    | |- context [save_and_track_message ?r ?c ?w0] =>
        destruct (save_and_track_message_effect r c w0) as (Es' & Er' & Em')
    end.
    rewrite Es', Er', Em'. cbn. rewrite ?Er, ?Es, ?Em. cbn.
    rewrite <- app_assoc. repeat split. lia.
  - cbn. rewrite ?Er, ?Es, ?Em. cbn. repeat split; trivial. lia.
Qed.

Lemma process_user_input_counts e user_input w :
  exists p,
    requests (process_user_input e user_input w) = requests w ++ [p] /\
    (message_count (ss w)
     <= message_count (ss (process_user_input e user_input w))
     <= message_count (ss w) + 1)%Z.
Proof.
  exists user_input. unfold process_user_input, run_agent.
  set (w1 := set_ss (append_message (lit "user") user_input (ss w)) w).
  destruct (save_and_track_message_effect (lit "user") user_input w1)
    as (Es & Er & _).
  set (w2 := save_and_track_message (lit "user") user_input w1) in *.
  clearbody w2. cbn [ss send]. rewrite Es.
  destruct (llm e user_input _) as [[response_text new_messages]|x].
  - match goal with
    | |- context [save_and_track_message ?r ?c ?w0] =>
        destruct (save_and_track_message_effect r c w0) as (Es' & Er' & _)
    end.
    rewrite Es', Er'. cbn. rewrite ?Er, ?Es. cbn. split; [reflexivity | lia].
  - cbn. rewrite ?Er, ?Es. cbn. split; [reflexivity | lia].
Qed.

(** One run: nothing is sent and the count stands, or one request is sent
    from below the cap and the count goes up by at most one. *)
Lemma main_accounting e w :
  (requests (fst (main e w)) = requests w /\
   message_count (ss (fst (main e w))) = message_count (ss w)) \/
  (exists p, requests (fst (main e w)) = requests w ++ [p]) /\
  (message_count (ss w) < MAX_MESSAGES_PER_SESSION)%Z /\
  (message_count (ss w) <= message_count (ss (fst (main e w)))
   <= message_count (ss w) + 1)%Z.
Proof.
  unfold main.
  destruct (quiz_active (ss w) && negb (awaiting_rating (ss w))).
  - destruct (quiz_state (ss w)) as [q|] eqn:Q; [|now left].
    destruct (render_quiz_header q); [|now left].
    destruct (qs_answered q); [left; apply render_quiz_result_quiet|].
    unfold render_quiz_question, advance_quiz. rewrite Q.
    destruct (check_message_limit (ss w)) eqn:L; [now left|].
    apply Z.leb_gt in L.
    destruct (qs_loading q).
    + destruct (nth_error _ _) as [c|]; [|now left].
      right. split; [|split; [exact L|]];
        destruct (generate_quiz_question _ _) as [[d|]|[]];
        cbn; rewrite ?Q; cbn; eauto; lia.
    + left. destruct (fired e); try (split; reflexivity).
      cbn [set_answer qs_concepts qs_current_index].
      destruct (nth_error _ _); split; reflexivity.
  - destruct (quiz_mode (ss w) && awaiting_rating (ss w)).
    + left. apply render_understanding_rating_quiet.
    + unfold chat_area.
      destruct (check_message_limit (ss w)) eqn:L; [now left|].
      apply Z.leb_gt in L.
      assert (forall u w0,
                 requests w0 = requests w ->
                 message_count (ss w0) = message_count (ss w) ->
                 (exists p, requests (process_user_input e u w0)
                            = requests w ++ [p]) /\
                 (message_count (ss w) < MAX_MESSAGES_PER_SESSION)%Z /\
                 (message_count (ss w)
                  <= message_count (ss (process_user_input e u w0))
                  <= message_count (ss w) + 1)%Z) as turn.
      { intros u w0 Hr Hm.
        destruct (process_user_input_counts e u w0) as (p & Ep & Hc).
        rewrite Hr in Ep. rewrite Hm in Hc. eauto. }
      destruct (pending_concept_question (ss w)) as [[|c rest]|].
      * destruct (fired e) as [| | | | | | |[|c rest]]; try now left.
        right. cbn [fst]. now apply turn.
      * right. cbn [fst]. now apply turn.
      * destruct (fired e) as [| | | | | | |[|c rest]]; try now left.
        right. cbn [fst]. now apply turn.
Qed.

(** X15: over any sequence of runs the request log only grows, by at most
    one request per run; the message count never decreases and rises by no
    more than the number of requests sent; and a count that is at most
    the cap of 25 never passes it. *)
Theorem budget_accounting (es : list env) (w : world) :
  exists sent,
    requests (runs es w) = requests w ++ sent /\
    length sent <= length es /\
    (message_count (ss w) <= message_count (ss (runs es w))
     <= message_count (ss w) + Z.of_nat (length sent))%Z /\
    ((message_count (ss w) <= MAX_MESSAGES_PER_SESSION)%Z ->
     (message_count (ss (runs es w)) <= MAX_MESSAGES_PER_SESSION)%Z).
Proof.
  revert w. induction es as [|e es IH]; intros w; cbn [runs length].
  - exists []. rewrite app_nil_r. cbn. repeat split; lia.
  - destruct (IH (fst (main e w))) as (sent & Er & Hl & Hc & Hcap).
    destruct (main_accounting e w) as [[Rq Mc] | ((p & Rq) & Hlt & Mc)].
    + exists sent. rewrite Er, Rq. rewrite Mc in Hc, Hcap.
      repeat split; try lia; try exact Hcap.
    + exists (p :: sent). rewrite Er, Rq, <- app_assoc. cbn [app length].
      repeat split; try lia; try (intros _; apply Hcap; lia).
Qed.

(** ** What can go wrong in the quiz flow *)

Lemma dict_item_letters (o : dict) k :
  keys o = LETTERS -> In k LETTERS -> exists v, dict_item k o = Returned v.
Proof.
  intros Ko Hk.
  destruct o as [|[k1 v1] [|[k2 v2] [|[k3 v3] [|[k4 v4] o]]]];
    try discriminate Ko.
  injection Ko as -> -> -> -> _.
  destruct Hk as [<-|[<-|[<-|[<-|[]]]]]; cbn; eauto.
Qed.

Lemma letter_str_in l : In (letter_str l) LETTERS.
Proof. destruct l; cbn; tauto. Qed.

Lemma result_lookups_ok q :
  quiz_shape q -> qs_answered q = true -> result_lookups q = Returned tt.
Proof.
  intros (_ & Hshown & Hans) A.
  destruct (Hans A) as (L & l & U). destruct (Hshown L) as (_ & Ko & Hc).
  unfold result_lookups. rewrite U.
  destruct (dict_item_letters _ Ko Hc) as [vc ->].
  destruct (dict_item_letters _ Ko (letter_str_in l)) as [vu ->].
  destruct (eqb (letter_str l) (qs_correct q)); reflexivity.
Qed.

Lemma generate_some_shape (a : agent) name d :
  generate_quiz_question a name = Returned (Some d) ->
  keys (qd_options d) = LETTERS /\ In (qd_correct d) LETTERS.
Proof.
  rewrite generate_quiz_question_cases.
  destruct (a (QUIZ_PROMPT_TEMPLATE name) []) as [[text msgs]|x];
    [|discriminate].
  destruct (parse_quiz_response text) as [[d0|]|x] eqn:E; try discriminate.
  cbn. intros [= <-]. cbn.
  destruct (parse_some_inv text E) as ((Ko & _) & Hc & _). auto.
Qed.

Lemma quiz_shape_advance q :
  qs_current_index q < length (qs_concepts q) -> quiz_shape (advance q).
Proof.
  intros H. unfold quiz_shape. cbn. repeat split; try lia; discriminate.
Qed.

(** A run of [main] keeps the shape of the quiz state. *)
Lemma main_keeps_shape e w :
  (forall q, quiz_state (ss w) = Some q -> quiz_shape q) ->
  forall q', quiz_state (ss (fst (main e w))) = Some q' -> quiz_shape q'.
Proof.
  intros Hshape q'. unfold main.
  destruct (quiz_active (ss w) && negb (awaiting_rating (ss w))).
  - destruct (quiz_state (ss w)) as [q|] eqn:Hq;
      [|cbn [fst]; rewrite Hq; discriminate].
    pose proof (Hshape q eq_refl) as Sq.
    unfold render_quiz_header.
    destruct (nth_error (qs_concepts q) (qs_current_index q)) as [c|] eqn:Hnth;
      [|cbn [fst]; rewrite Hq; now intros [= <-]].
    assert (qs_current_index q < length (qs_concepts q)) as Hlt
        by (apply nth_error_Some; congruence).
    destruct (qs_answered q) eqn:Hans.
    + unfold render_quiz_result, advance_quiz. rewrite Hq, Hans. cbn [negb].
      destruct (result_lookups q);
        [|cbn; rewrite Hq; now intros [= <-]].
      destruct (fired e);
        try destruct (negb (length (qs_concepts q) - 1
                            <=? qs_current_index q));
        cbn; rewrite ?Hq; cbn; intros [= <-];
        solve [exact Sq | now apply quiz_shape_advance].
    + unfold render_quiz_question, advance_quiz. rewrite Hq.
      destruct (check_message_limit (ss w)); [discriminate|].
      destruct (qs_loading q) eqn:Hload.
      * rewrite Hnth.
        destruct (generate_quiz_question _ _) as [[d|]|[]] eqn:G;
          cbn; rewrite ?Hq; cbn; try discriminate; intros [= <-];
          [|now apply quiz_shape_advance].
        destruct (generate_some_shape _ _ G) as [Ko Hc].
        unfold quiz_shape. cbn. rewrite Hans.
        repeat split; trivial; try lia; discriminate.
      * destruct Sq as (Hi & Hshown & _). destruct (Hshown Hload) as (_ & Ko & Hc).
        destruct (fired e) as [| l | | | | | |];
          try (cbn; rewrite ?Hq; intros [= <-];
               unfold quiz_shape; rewrite Hload, Hans;
               repeat split; trivial; discriminate).
        cbn [set_answer qs_concepts qs_current_index qs_correct].
        rewrite Hnth. cbn. intros [= <-].
        unfold quiz_shape. cbn. rewrite Hload.
        repeat split; trivial. now exists l.
  - destruct (quiz_mode (ss w) && awaiting_rating (ss w)).
    + unfold render_understanding_rating.
      destruct (fired e); try discriminate; cbn [fst]; apply Hshape.
    + rewrite chat_area_quiz. apply Hshape.
Qed.

(** With a well-shaped quiz state, the only exception that escapes [main]
    is the IndexError of an index just past the batch. *)
Lemma main_uncaught e w x :
  (forall q, quiz_state (ss w) = Some q -> quiz_shape q) ->
  snd (main e w) = Uncaught x ->
  x = IndexError /\ fst (main e w) = w /\
  exists q, quiz_state (ss w) = Some q /\
            qs_current_index q = length (qs_concepts q).
Proof.
  intros Hshape. unfold main.
  destruct (quiz_active (ss w) && negb (awaiting_rating (ss w))).
  - destruct (quiz_state (ss w)) as [q|] eqn:Hq; [|discriminate].
    pose proof (Hshape q eq_refl) as Sq.
    unfold render_quiz_header.
    destruct (nth_error (qs_concepts q) (qs_current_index q)) as [c|] eqn:Hnth.
    + destruct (qs_answered q) eqn:Hans.
      * unfold render_quiz_result. rewrite Hq, Hans. cbn [negb].
        rewrite (result_lookups_ok Sq Hans).
        destruct (fired e); try discriminate.
        destruct (negb _); discriminate.
      * unfold render_quiz_question. rewrite Hq.
        destruct (check_message_limit (ss w)); [discriminate|].
        destruct (qs_loading q).
        -- rewrite Hnth.
           destruct (generate_quiz_question _ _) as [[d|]|[]]; discriminate.
        -- destruct (fired e); try discriminate.
           cbn [set_answer qs_concepts qs_current_index].
           rewrite Hnth. discriminate.
    + cbn. intros [= <-]. split; [reflexivity|]. split; [reflexivity|].
      exists q. split; [reflexivity|].
      apply nth_error_None in Hnth. destruct Sq as (Hi & _). lia.
  - destruct (quiz_mode (ss w) && awaiting_rating (ss w)).
    + unfold render_understanding_rating. destruct (fired e); discriminate.
    + unfold chat_area. destruct (check_message_limit (ss w)); [discriminate|].
      destruct (pending_concept_question (ss w)) as [[|c rest]|];
        try discriminate;
        destruct (fired e) as [| | | | | | |[|c rest]]; discriminate.
Qed.

Lemma runs_keep_shape es : forall w,
  (forall q, quiz_state (ss w) = Some q -> quiz_shape q) ->
  forall q, quiz_state (ss (runs es w)) = Some q -> quiz_shape q.
Proof.
  induction es as [|e es IH]; intros w H; simpl; [exact H|].
  apply IH. now apply main_keeps_shape.
Qed.

Lemma start_quiz_mode_shape concepts s q :
  quiz_state (start_quiz_mode concepts s) = Some q -> quiz_shape q.
Proof.
  destruct concepts as [|c cs]; cbn; [discriminate|]. intros [= <-].
  unfold quiz_shape. cbn. repeat split; try lia; discriminate.
Qed.

(** X16: in a quiz begun by [start_quiz_mode], whatever runs follow, the
    only exception that escapes [main] is an IndexError, and only when the
    index stands just past the batch (a reply that did not parse at the last
    concept); no lookup of an option or of the correct letter ever fails.
    The run that raises leaves the state as it is. *)
Theorem quiz_fails_only_past_the_batch
        (concepts : list concept_row) (w : world) (es : list env)
        (e : env) (x : exn) :
  let w0 := set_ss (start_quiz_mode concepts (ss w)) w in
  snd (main e (runs es w0)) = Uncaught x ->
  x = IndexError /\
  fst (main e (runs es w0)) = runs es w0 /\
  exists q, quiz_state (ss (runs es w0)) = Some q /\
            qs_current_index q = length (qs_concepts q) /\
            qs_loading q = true /\ qs_answered q = false.
Proof.
  intros w0 H.
  assert (forall q, quiz_state (ss (runs es w0)) = Some q -> quiz_shape q)
    as Hshape.
  { apply runs_keep_shape. intros q. apply start_quiz_mode_shape. }
  destruct (main_uncaught e (runs es w0) Hshape H) as (Hx & Hw & q & Hq & Hi).
  split; [exact Hx|]. split; [exact Hw|]. exists q.
  destruct (Hshape q Hq) as (_ & Hshown & Hans).
  repeat split; trivial.
  - destruct (qs_loading q); [reflexivity|].
    destruct (Hshown eq_refl) as (Hlt & _). lia.
  - destruct (qs_answered q); [|reflexivity].
    destruct (Hans eq_refl) as (L & _). destruct (Hshown L) as (Hlt & _). lia.
Qed.

Lemma quiz_fails_only_past_the_batch_witness :
  let w0 := set_ss (start_quiz_mode [concept_A] (ss empty_world)) empty_world in
  let es := [run_with NoWidget llm_rambling] in
  let e := run_with NoWidget llm_quiz in
  IndexError = IndexError /\
  fst (main e (runs es w0)) = runs es w0 /\
  exists q, quiz_state (ss (runs es w0)) = Some q /\
            qs_current_index q = length (qs_concepts q) /\
            qs_loading q = true /\ qs_answered q = false.
Proof.
  intros w0 es e.
  apply (@quiz_fails_only_past_the_batch [concept_A] empty_world es e IndexError).
  vm_compute. reflexivity.
Defined.

(** ** The quiz flow as a state machine *)

Lemma process_user_input_fields e u w :
  quiz_mode (ss (process_user_input e u w)) = quiz_mode (ss w) /\
  awaiting_rating (ss (process_user_input e u w)) = awaiting_rating (ss w) /\
  quiz_state (ss (process_user_input e u w)) = quiz_state (ss w) /\
  quiz_concepts (ss (process_user_input e u w)) = quiz_concepts (ss w) /\
  session_id (ss (process_user_input e u w)) = session_id (ss w).
Proof.
  unfold process_user_input.
  destruct (run_agent _ _ _) as [[response_text new_messages]|x];
    cbn [ss send set_ss];
    rewrite !save_and_track_message_ss; repeat split; reflexivity.
Qed.

Lemma chat_area_fields e w :
  quiz_mode (ss (fst (chat_area e w))) = quiz_mode (ss w) /\
  awaiting_rating (ss (fst (chat_area e w))) = awaiting_rating (ss w) /\
  quiz_state (ss (fst (chat_area e w))) = quiz_state (ss w) /\
  quiz_concepts (ss (fst (chat_area e w))) = quiz_concepts (ss w) /\
  session_id (ss (fst (chat_area e w))) = session_id (ss w).
Proof.
  unfold chat_area.
  destruct (check_message_limit (ss w)); [repeat split; reflexivity|].
  destruct (pending_concept_question (ss w)) as [[|c rest]|].
  - destruct (fired e) as [| | | | | | |[|c rest]];
      try (repeat split; reflexivity).
    cbn [fst]. apply process_user_input_fields.
  - cbn [fst].
    apply (process_user_input_fields e (explain_request (c :: rest))
             (set_ss (clear_pending (ss w)) w)).
  - destruct (fired e) as [| | | | | | |[|c rest]];
      try (repeat split; reflexivity).
    cbn [fst]. apply process_user_input_fields.
Qed.

Lemma phase_of_ext s s' :
  quiz_mode s' = quiz_mode s -> awaiting_rating s' = awaiting_rating s ->
  quiz_state s' = quiz_state s -> phase_of s' = phase_of s.
Proof.
  intros M A Q. unfold phase_of, quiz_active. now rewrite M, A, Q.
Qed.

Lemma quiz_move_refl n p : quiz_move n p p = true.
Proof. destruct p; simpl; rewrite ?Nat.eqb_refl; reflexivity. Qed.

(** What [main] dispatches on when the quiz is on. *)
Lemma quiz_on s :
  quiz_active s && negb (awaiting_rating s) = true ->
  exists q, quiz_state s = Some q /\ quiz_mode s = true /\
            qs_active q = true /\ awaiting_rating s = false.
Proof.
  unfold quiz_active. intros H.
  apply andb_true_iff in H. destruct H as [H Haw].
  apply andb_true_iff in H. destruct H as [Hmode Hq].
  destruct (quiz_state s) as [q|]; [|discriminate].
  exists q. apply negb_true_iff in Haw. auto.
Qed.

Ltac phase_calc Hq Hmode Hactive Haw :=
  unfold phase_of, quiz_active, advance_quiz, leave_quiz, finish_quiz,
         set_quiz_state;
  cbn; rewrite ?Hq; cbn; rewrite ?Hmode, ?Hactive, ?Haw; cbn.

(** X17: from one run of [main] to the next the quiz flow makes only the
    moves of its state machine: outside a quiz it stays outside; a question
    asked for is shown, skipped (the index goes up by one) or the quiz is
    dropped; a question on display is answered or the quiz is dropped; from
    an answer on display the flow goes to the next question, only if there
    is one in the batch, or to the rating; the rating leads out of the
    quiz. The index never goes back, no question is answered twice and the
    rating is reached only from an answer on display. *)
Theorem quiz_flow_moves (e : env) (w : world) :
  quiz_move (batch_size (ss w))
            (phase_of (ss w)) (phase_of (ss (fst (main e w)))) = true.
Proof.
  unfold main, batch_size.
  destruct (quiz_active (ss w) && negb (awaiting_rating (ss w))) eqn:Hact.
  - destruct (quiz_on _ Hact) as (q & Hq & Hmode & Hactive & Haw).
    rewrite Hq. unfold render_quiz_header.
    destruct (nth_error (qs_concepts q) (qs_current_index q)) as [c|] eqn:Hnth;
      [|apply quiz_move_refl].
    assert (qs_current_index q < length (qs_concepts q)) as Hlt
        by (apply nth_error_Some; congruence).
    destruct (qs_answered q) eqn:Hans.
    + unfold render_quiz_result. rewrite Hq, Hans. cbn [negb].
      destruct (result_lookups q); [|apply quiz_move_refl].
      destruct (fired e); try apply quiz_move_refl.
      * destruct (negb (length (qs_concepts q) - 1 <=? qs_current_index q))
          eqn:Hlast; [|apply quiz_move_refl].
        apply negb_true_iff, Nat.leb_gt in Hlast.
        phase_calc Hq Hmode Hactive Haw. rewrite Hans. cbn.
        replace (qs_current_index q + 1) with (S (qs_current_index q)) by lia.
        rewrite Nat.eqb_refl. apply Nat.ltb_lt. lia.
      * phase_calc Hq Hmode Hactive Haw. rewrite Hans. reflexivity.
    + unfold render_quiz_question. rewrite Hq.
      assert (phase_of (ss w)
              = if qs_loading q then AwaitingQuestion (qs_current_index q)
                else ShowingQuestion (qs_current_index q)) as Hp.
      { unfold phase_of. rewrite Hact, Hq, Hans. reflexivity. }
      rewrite Hp.
      destruct (check_message_limit (ss w)).
      { phase_calc Hq Hmode Hactive Haw. destruct (qs_loading q); reflexivity. }
      destruct (qs_loading q) eqn:Hload.
      * rewrite Hnth.
        destruct (generate_quiz_question _ _) as [[d|]|[]];
          phase_calc Hq Hmode Hactive Haw; rewrite ?Hans; cbn;
          rewrite ?Nat.eqb_refl; try reflexivity.
        replace (qs_current_index q + 1) with (S (qs_current_index q)) by lia.
        rewrite Nat.eqb_refl. apply orb_true_r.
      * destruct (fired e) as [| l | | | | | |];
          try (cbn [fst]; rewrite Hp; apply quiz_move_refl).
        cbn [set_answer qs_concepts qs_current_index]. rewrite Hnth.
        phase_calc Hq Hmode Hactive Haw. apply Nat.eqb_refl.
  - destruct (quiz_mode (ss w) && awaiting_rating (ss w)) eqn:Hrate.
    + assert (phase_of (ss w) = AwaitingRating) as Hp
          by (unfold phase_of; now rewrite Hact, Hrate).
      rewrite Hp. unfold render_understanding_rating.
      destruct (fired e); cbn [fst]; rewrite ?Hp; reflexivity.
    + destruct (chat_area_fields e w) as (M & A & Q & _).
      rewrite (phase_of_ext _ _ M A Q). apply quiz_move_refl.
Qed.

(** X18: the question bought with the last message of the budget is never
    put to the user. When a question is asked for at a count of 24 and the
    reply parses, the request is spent and the count reaches 25; the next
    run, whatever fires, drops the quiz without an answer and without a
    rating, so the store is as it was before the question. *)
Theorem last_budget_question_is_dropped (e e' : env) (w : world) (i : nat) :
  phase_of (ss w) = AwaitingQuestion i ->
  message_count (ss w) = (MAX_MESSAGES_PER_SESSION - 1)%Z ->
  phase_of (ss (fst (main e w))) = ShowingQuestion i ->
  let w1 := fst (main e w) in
  let w2 := fst (main e' w1) in
  length (requests w1) = S (length (requests w)) /\
  message_count (ss w1) = MAX_MESSAGES_PER_SESSION /\
  snd (main e' w1) = Finished /\
  quiz_mode (ss w2) = false /\ quiz_state (ss w2) = None /\
  phase_of (ss w2) = Idle /\
  db w2 = db w /\ requests w2 = requests w1.
Proof.
  intros Hp Hcount.
  destruct (phase_awaiting_question _ Hp) as (Hact & q & Hq & Hans & Hload & Hi).
  destruct (quiz_on _ Hact) as (q0 & Hq0 & Hmode & Hactive & Haw).
  assert (q0 = q) by congruence. subst q0.
  assert (check_message_limit (ss w) = false) as Hlim.
  { unfold check_message_limit. rewrite Hcount. reflexivity. }
  intros Hshow. cbv zeta.
  remember (fst (main e w)) as w1 eqn:Ew1.
  assert (exists c d prompt,
             nth_error (qs_concepts q) (qs_current_index q) = Some c /\
             w1 = set_ss (set_quiz_state
                            (Some (populate d q))
                            (increment_message_count (ss (send prompt w))))
                         (send prompt w))
    as (c & d & prompt & Hnth & Hw1).
  { subst w1. revert Hshow. unfold main. rewrite Hact, Hq.
    unfold render_quiz_header.
    destruct (nth_error (qs_concepts q) (qs_current_index q)) as [c|] eqn:Hnth;
      [|cbn [fst]; rewrite Hp; discriminate].
    rewrite Hans. unfold render_quiz_question.
    rewrite Hq, Hlim, Hload, Hnth.
    generalize (QUIZ_PROMPT_TEMPLATE (c_name c)). intros prompt.
    destruct (generate_quiz_question _ _) as [[d|]|[]];
      try (phase_calc Hq Hmode Hactive Haw; rewrite ?Hans; discriminate).
    intros _. exists c, d, prompt. split; reflexivity. }
  clear Ew1 Hshow. subst w1.
  unfold main, render_quiz_header, render_quiz_question, check_message_limit.
  phase_calc Hq Hmode Hactive Haw. rewrite Hnth, Hans, Hcount.
  cbn. rewrite length_app. cbn.
  repeat split; trivial; lia.
Qed.

Lemma last_budget_question_is_dropped_witness :
  let w := quiz_started 24 in
  let e := run_with NoWidget llm_quiz in
  let e' := run_with (QuizOption LB) llm_quiz in
  let w1 := fst (main e w) in
  let w2 := fst (main e' w1) in
  length (requests w1) = S (length (requests w)) /\
  message_count (ss w1) = MAX_MESSAGES_PER_SESSION /\
  snd (main e' w1) = Finished /\
  quiz_mode (ss w2) = false /\ quiz_state (ss w2) = None /\
  phase_of (ss w2) = Idle /\
  db w2 = db w /\ requests w2 = requests w1.
Proof.
  apply (@last_budget_question_is_dropped
           (run_with NoWidget llm_quiz) (run_with (QuizOption LB) llm_quiz)
           (quiz_started 24) 0);
    vm_compute; reflexivity.
Defined.

(** X19: a run made while the quiz is on (a question asked for, a question
    or an answer on display) leaves the store, the transcript, the history
    and the batch as they are: questions, answers and results are never
    stored. The only request such a run can send is the quiz prompt for the
    current concept of the batch. *)
Theorem quiz_leaves_store_and_chat_alone (e : env) (w : world) :
  quiz_active (ss w) && negb (awaiting_rating (ss w)) = true ->
  let w' := fst (main e w) in
  db w' = db w /\
  ss_messages (ss w') = ss_messages (ss w) /\
  pydantic_messages (ss w') = pydantic_messages (ss w) /\
  quiz_concepts (ss w') = quiz_concepts (ss w) /\
  session_id (ss w') = session_id (ss w) /\
  (requests w' = requests w \/
   exists q c,
     quiz_state (ss w) = Some q /\
     nth_error (qs_concepts q) (qs_current_index q) = Some c /\
     requests w' = requests w ++ [QUIZ_PROMPT_TEMPLATE (c_name c)]).
Proof.
  intros Hact. destruct (quiz_on _ Hact) as (q & Hq & Hmode & Hactive & Haw).
  unfold main. rewrite Hact, Hq. unfold render_quiz_header.
  destruct (nth_error (qs_concepts q) (qs_current_index q)) as [c|] eqn:Hnth;
    [|cbn; tauto].
  destruct (qs_answered q) eqn:Hans.
  - unfold render_quiz_result, advance_quiz, finish_quiz.
    rewrite Hq, Hans. cbn [negb].
    destruct (result_lookups q); [|cbn; tauto].
    destruct (fired e);
      try destruct (negb (length (qs_concepts q) - 1 <=? qs_current_index q));
      cbn; rewrite ?Hq; cbn; tauto.
  - unfold render_quiz_question, advance_quiz, leave_quiz. rewrite Hq.
    destruct (check_message_limit (ss w)); [cbn; tauto|].
    destruct (qs_loading q).
    + rewrite Hnth.
      destruct (generate_quiz_question _ _) as [[d|]|[]];
        cbn; rewrite ?Hq; cbn; repeat (split; [reflexivity|]);
        right; exists q, c; auto.
    + destruct (fired e) as [| l | | | | | |]; try (cbn; tauto).
      cbn [set_answer qs_concepts qs_current_index]. rewrite Hnth.
      cbn. tauto.
Qed.

Lemma quiz_leaves_store_and_chat_alone_witness :
  let w := quiz_started 0 in
  let w' := fst (main (run_with NoWidget llm_quiz) w) in
  db w' = db w /\
  ss_messages (ss w') = ss_messages (ss w) /\
  pydantic_messages (ss w') = pydantic_messages (ss w) /\
  quiz_concepts (ss w') = quiz_concepts (ss w) /\
  session_id (ss w') = session_id (ss w) /\
  (requests w' = requests w \/
   exists q c,
     quiz_state (ss w) = Some q /\
     nth_error (qs_concepts q) (qs_current_index q) = Some c /\
     requests w' = requests w ++ [QUIZ_PROMPT_TEMPLATE (c_name c)]).
Proof.
  apply (@quiz_leaves_store_and_chat_alone
           (run_with NoWidget llm_quiz) (quiz_started 0)).
  vm_compute. reflexivity.
Defined.

(** ** The queries behind the quiz and the review list *)

Section SortedLists.

Variable A : Type.
Variable R : A -> A -> Prop.

Lemma sorted_app_cross (l1 l2 : list A) :
  StronglySorted R (l1 ++ l2) ->
  forall a b, In a l1 -> In b l2 -> R a b.
Proof.
  induction l1 as [|x l1 IH]; simpl; intros S a b Ha Hb; [contradiction|].
  inversion S as [|? ? S' F]; subst.
  destruct Ha as [<-|Ha].
  - rewrite Forall_forall in F. apply F, in_or_app. now right.
  - now apply IH.
Qed.

Lemma sorted_app_l (l1 l2 : list A) :
  StronglySorted R (l1 ++ l2) -> StronglySorted R l1.
Proof.
  induction l1 as [|x l1 IH]; simpl; intros S; [constructor|].
  inversion S as [|? ? S' F]; subst. constructor; [now apply IH|].
  apply Forall_app in F. tauto.
Qed.

Lemma sorted_firstn (n : nat) (l : list A) :
  StronglySorted R l -> StronglySorted R (firstn n l).
Proof.
  intros S. rewrite <- (firstn_skipn n l) in S. now apply sorted_app_l in S.
Qed.

Lemma sorted_weaken (R' : A -> A -> Prop) (l : list A) :
  (forall a b, R a b -> R' a b) ->
  StronglySorted R l -> StronglySorted R' l.
Proof.
  intros HR. induction 1 as [|x l S IH F]; constructor; [exact IH|].
  eapply Forall_impl; [|exact F]. intros b. apply HR.
Qed.

End SortedLists.

Section InsertionSort.

Variable A : Type.
Variable le : A -> A -> bool.
Hypothesis le_total : forall a b, le a b = true \/ le b a = true.
Hypothesis le_trans :
  forall a b c, le a b = true -> le b c = true -> le a c = true.

Lemma insert_by_perm x l : Permutation (insert_by le x l) (x :: l).
Proof.
  induction l as [|y l IH]; simpl; [reflexivity|].
  destruct (le x y); [reflexivity|].
  rewrite IH. apply perm_swap.
Qed.

Lemma sort_by_perm l : Permutation (sort_by le l) l.
Proof.
  induction l as [|x l IH]; simpl; [reflexivity|].
  rewrite insert_by_perm. now constructor.
Qed.

Lemma insert_by_sorted x l :
  StronglySorted (fun a b => le a b = true) l ->
  StronglySorted (fun a b => le a b = true) (insert_by le x l).
Proof.
  induction 1 as [|y l S IH F]; simpl; [repeat constructor|].
  destruct (le x y) eqn:E.
  - constructor; [now constructor|]. constructor; [exact E|].
    eapply Forall_impl; [|exact F]. intros b. now apply le_trans.
  - constructor; [exact IH|].
    assert (Forall (fun b => le y b = true) (x :: l)) as F'.
    { constructor; [|exact F]. destruct (le_total x y); congruence. }
    rewrite Forall_forall in *. intros b Hb. apply F'.
    eapply Permutation_in; [apply insert_by_perm | exact Hb].
Qed.

Lemma sort_by_sorted l :
  StronglySorted (fun a b => le a b = true) (sort_by le l).
Proof.
  induction l as [|x l IH]; simpl; [constructor|].
  now apply insert_by_sorted.
Qed.

End InsertionSort.

Ltac order_cases :=
  cbn in *;
  rewrite ?orb_true_iff, ?andb_true_iff, ?orb_false_r, ?andb_true_r,
          ?Z.ltb_lt, ?Z.eqb_eq, ?Z.leb_le in *;
  intuition (try discriminate; try lia).

Lemma quiz_order_total a b : quiz_order a b = true \/ quiz_order b a = true.
Proof.
  unfold quiz_order, reviewed_flag, reviewed_le.
  destruct (c_last_reviewed_at a), (c_last_reviewed_at b);
    order_cases.
Qed.

Lemma quiz_order_trans a b c :
  quiz_order a b = true -> quiz_order b c = true -> quiz_order a c = true.
Proof.
  unfold quiz_order, reviewed_flag, reviewed_le.
  destruct (c_last_reviewed_at a), (c_last_reviewed_at b),
           (c_last_reviewed_at c); intros H1 H2; order_cases.
Qed.

Lemma review_order_total a b :
  review_order a b = true \/ review_order b a = true.
Proof.
  unfold review_order, reviewed_flag, reviewed_le.
  destruct (c_last_reviewed_at a), (c_last_reviewed_at b);
    order_cases.
Qed.

Lemma review_order_trans a b c :
  review_order a b = true -> review_order b c = true ->
  review_order a c = true.
Proof.
  unfold review_order, reviewed_flag, reviewed_le.
  destruct (c_last_reviewed_at a), (c_last_reviewed_at b),
           (c_last_reviewed_at c); intros H1 H2; order_cases.
Qed.

Lemma quiz_order_level a b :
  quiz_order a b = true ->
  (c_understanding_level a <= c_understanding_level b)%Z.
Proof. unfold quiz_order. intros H. order_cases. Qed.

Lemma review_order_flag a b :
  review_order a b = true ->
  c_last_reviewed_at b = None -> c_last_reviewed_at a = None.
Proof.
  unfold review_order, reviewed_flag. intros H Hb. rewrite Hb in H.
  destruct (c_last_reviewed_at a); [|reflexivity]. order_cases.
Qed.

(** X20: the ORDER BY clauses of both queries compare any two rows and do
    so transitively, so each query has an answer for every store, every
    cutoff and every limit: the selected rows sorted by the clause, cut at
    the limit. *)
Theorem queries_have_an_answer (cutoff : Z) (limit : nat) (d : database) :
  get_concepts_for_quiz_returns cutoff limit d
    (firstn limit
       (sort_by quiz_order (filter (for_quiz_where cutoff) (concepts d)))) /\
  get_concepts_needing_review_returns cutoff d
    (sort_by review_order (filter (needs_review_where cutoff) (concepts d))).
Proof.
  split.
  - exists (sort_by quiz_order (filter (for_quiz_where cutoff) (concepts d))).
    split; [apply sort_by_perm|]. split; [|reflexivity].
    apply sort_by_sorted; [apply quiz_order_total | apply quiz_order_trans].
  - split; [apply sort_by_perm|].
    apply sort_by_sorted; [apply review_order_total | apply review_order_trans].
Qed.

(** X21: whatever order the database picks among equal rows, the batch
    that [get_concepts_for_quiz] returns has at most [limit] rows, all of
    them rows of the table that the WHERE clause selects; it is in
    ascending order of understanding level, and every selected row that
    was left out is understood at least as well as every row taken. Ids
    that are unique in the table are unique in the batch, and a batch
    shorter than the limit holds every selected row. *)
Theorem quiz_batch_takes_the_weakest
        (cutoff : Z) (limit : nat) (d : database) (result : list concept_row) :
  get_concepts_for_quiz_returns cutoff limit d result ->
  length result <= limit /\
  (forall row, In row result ->
     In row (concepts d) /\ for_quiz_where cutoff row = true) /\
  StronglySorted
    (fun a b => (c_understanding_level a <= c_understanding_level b)%Z)
    result /\
  (forall row other,
     In row result -> In other (concepts d) ->
     for_quiz_where cutoff other = true -> ~ In other result ->
     (c_understanding_level row <= c_understanding_level other)%Z) /\
  (NoDup (map c_id (concepts d)) -> NoDup (map c_id result)) /\
  (length result < limit ->
   Permutation result (filter (for_quiz_where cutoff) (concepts d))).
Proof.
  intros (ordered & Hperm & Hsorted & ->).
  split; [apply firstn_le_length|].
  split.
  { intros row Hin. apply filter_In.
    eapply Permutation_in; [exact Hperm|].
    rewrite <- (firstn_skipn limit ordered). apply in_or_app. now left. }
  split.
  { apply sorted_firstn.
    eapply sorted_weaken; [|exact Hsorted]. apply quiz_order_level. }
  split.
  { intros row other Hrow Hother Hwhere Hout.
    assert (In other ordered) as Hord.
    { eapply Permutation_in; [symmetry; exact Hperm|].
      apply filter_In. auto. }
    rewrite <- (firstn_skipn limit ordered) in Hord, Hsorted.
    apply in_app_or in Hord. destruct Hord as [Hord|Hord]; [contradiction|].
    apply quiz_order_level.
    exact (@sorted_app_cross _ (fun a b => quiz_order a b = true) _ _
             Hsorted row other Hrow Hord). }
  split.
  { intros N.
    assert (NoDup (map c_id ordered)) as No.
    { eapply Permutation_NoDup;
        [apply Permutation_map; symmetry; exact Hperm|].
      revert N. generalize (concepts d). intros l.
      induction l as [|r l IH]; simpl; intros N; [constructor|].
      inversion N as [|? ? Hr N']; subst.
      destruct (for_quiz_where cutoff r); simpl; [|now apply IH].
      constructor; [|now apply IH].
      intros Hin. apply Hr. apply in_map_iff in Hin.
      destruct Hin as (r' & E & Hin'). apply filter_In in Hin'.
      apply in_map_iff. exists r'. tauto. }
    rewrite <- (firstn_skipn limit ordered), map_app in No.
    now apply NoDup_app_remove_r in No. }
  intros Hshort.
  rewrite firstn_all2; [exact Hperm|].
  destruct (Nat.le_gt_cases (length ordered) limit) as [Hle|Hgt]; [exact Hle|].
  rewrite firstn_length_le in Hshort by lia. lia.
Qed.

Lemma quiz_batch_takes_the_weakest_witness :
  let result := [concept_A; concept_B] in
  length result <= 2 /\
  (forall row, In row result ->
     In row (concepts three_concepts) /\ for_quiz_where 200 row = true) /\
  StronglySorted
    (fun a b => (c_understanding_level a <= c_understanding_level b)%Z)
    result /\
  (forall row other,
     In row result -> In other (concepts three_concepts) ->
     for_quiz_where 200 other = true -> ~ In other result ->
     (c_understanding_level row <= c_understanding_level other)%Z) /\
  (NoDup (map c_id (concepts three_concepts)) -> NoDup (map c_id result)) /\
  (length result < 2 ->
   Permutation result (filter (for_quiz_where 200) (concepts three_concepts))).
Proof.
  apply (@quiz_batch_takes_the_weakest 200 2 three_concepts
           [concept_A; concept_B]).
  exists [concept_A; concept_B; concept_C].
  split; [vm_compute; reflexivity|].
  split; [|reflexivity].
  repeat (constructor; [|repeat (constructor; try reflexivity)]).
  constructor.
Defined.

(** X22: a rating decides whether the concept stays in the quiz pool and on
    the review list. Right after [update_concept_understanding] the row is
    selected by [get_concepts_for_quiz] exactly when the level given is
    below 4 or the cutoff lies after the time of the rating, and by
    [get_concepts_needing_review] exactly when the level is below 3 or the
    cutoff lies after the time of the rating. So as long as the cutoff
    does not lie after the time of the rating, of the ratings 1, 3 and 5
    that the page offers only 5 takes a concept out of the quiz pool, and
    3 takes it off the review list while it stays in the pool. *)
Theorem rating_decides_selection
        (now cutoff id level : Z) (d : database) (row : concept_row) :
  concept_with_id id d = Some row ->
  exists row',
    concept_with_id id (update_concept_understanding now id level d)
    = Some row' /\
    for_quiz_where cutoff row' = ((level <? 4) || (now <? cutoff))%Z /\
    needs_review_where cutoff row' = ((level <? 3) || (now <? cutoff))%Z.
Proof.
  intros H. rewrite concept_with_id_update, Z.eqb_refl, H. cbn [option_map].
  eexists. split; [reflexivity|].
  unfold for_quiz_where, needs_review_where, review_is_due.
  cbn [set_understanding c_understanding_level c_last_reviewed_at].
  split; f_equal; order_cases.
Qed.

Lemma rating_decides_selection_witness :
  exists row',
    concept_with_id 1 (update_concept_understanding 150 1 5 three_concepts)
    = Some row' /\
    for_quiz_where 143 row' = ((5 <? 4) || (150 <? 143))%Z /\
    needs_review_where 143 row' = ((5 <? 3) || (150 <? 143))%Z.
Proof.
  apply (@rating_decides_selection 150 143 1 5 three_concepts concept_A).
  reflexivity.
Defined.

(** X23: the review list holds exactly the rows of the table that are
    understood below level 3, were never reviewed or were last reviewed
    before the cutoff; the rows never reviewed come before all others; and
    every row on the list is also selected by [get_concepts_for_quiz]. *)
Theorem review_list_contents
        (cutoff : Z) (d : database) (result : list concept_row) :
  get_concepts_needing_review_returns cutoff d result ->
  (forall row,
     In row result <->
     In row (concepts d) /\
     ((c_understanding_level row < 3)%Z \/
      c_last_reviewed_at row = None \/
      exists t, c_last_reviewed_at row = Some t /\ (t < cutoff)%Z)) /\
  length result = length (filter (needs_review_where cutoff) (concepts d)) /\
  StronglySorted
    (fun a b => c_last_reviewed_at b = None -> c_last_reviewed_at a = None)
    result /\
  (forall row, In row result -> for_quiz_where cutoff row = true).
Proof.
  intros [Hperm Hsorted].
  assert (forall row,
             needs_review_where cutoff row = true <->
             ((c_understanding_level row < 3)%Z \/
              c_last_reviewed_at row = None \/
              exists t, c_last_reviewed_at row = Some t /\ (t < cutoff)%Z))
    as Hwhere.
  { intros row. unfold needs_review_where, review_is_due.
    rewrite orb_true_iff, Z.ltb_lt.
    destruct (c_last_reviewed_at row) as [t|].
    - rewrite Z.ltb_lt. split.
      + intros [H|H]; [now left | right; right; now exists t].
      + intros [H|[H|(t' & [= <-] & H)]]; auto. discriminate.
    - split; auto. }
  split.
  { intros row. rewrite <- Hwhere, <- filter_In. split; intros H.
    - eapply Permutation_in; [exact Hperm | exact H].
    - eapply Permutation_in; [symmetry; exact Hperm | exact H]. }
  split; [now apply Permutation_length|].
  split; [eapply sorted_weaken; [|exact Hsorted]; apply review_order_flag|].
  intros row Hin.
  assert (In row (filter (needs_review_where cutoff) (concepts d))) as Hf
      by (eapply Permutation_in; [exact Hperm | exact Hin]).
  apply filter_In in Hf. destruct Hf as [_ Hf].
  unfold needs_review_where in Hf. unfold for_quiz_where.
  apply orb_true_iff in Hf. apply orb_true_iff.
  destruct Hf as [Hf|Hf]; [left | now right].
  apply Z.ltb_lt in Hf. apply Z.ltb_lt. lia.
Qed.

Lemma review_list_contents_witness :
  let result := [concept_A; concept_B] in
  (forall row,
     In row result <->
     In row (concepts three_concepts) /\
     ((c_understanding_level row < 3)%Z \/
      c_last_reviewed_at row = None \/
      exists t, c_last_reviewed_at row = Some t /\ (t < 50)%Z)) /\
  length result
  = length (filter (needs_review_where 50) (concepts three_concepts)) /\
  StronglySorted
    (fun a b => c_last_reviewed_at b = None -> c_last_reviewed_at a = None)
    result /\
  (forall row, In row result -> for_quiz_where 50 row = true).
Proof.
  apply (@review_list_contents 50 three_concepts [concept_A; concept_B]).
  split; [vm_compute; reflexivity|].
  repeat (constructor; [|repeat (constructor; try reflexivity)]).
  constructor.
Defined.

(** ** Grouping by category *)

Lemma pystr_eqb_sym (a b : pystr) : eqb a b = eqb b a.
Proof.
  destruct (eqb a b) eqn:E, (eqb b a) eqn:E'; trivial.
  - apply pystr_eqb_eq in E. subst. rewrite pystr_eqb_refl in E'. discriminate.
  - apply pystr_eqb_eq in E'. subst. rewrite pystr_eqb_refl in E. discriminate.
Qed.

Lemma group_has_get category grouped :
  group_has category grouped
  = match group_get category grouped with Some _ => true | None => false end.
Proof.
  unfold group_has.
  induction grouped as [|[k rows] g IH]; simpl; [reflexivity|].
  destruct (eqb category k); simpl; [reflexivity | exact IH].
Qed.

Lemma group_get_keys category grouped :
  group_get category grouped = None -> ~ In category (map fst grouped).
Proof.
  induction grouped as [|[k rows] g IH]; simpl; [tauto|].
  destruct (eqb category k) eqn:E; [discriminate|].
  intros H [Hk|Hin]; [|now apply IH].
  subst. rewrite pystr_eqb_refl in E. discriminate.
Qed.

Lemma group_get_snoc category k grouped :
  group_get k (grouped ++ [(category, [])])
  = match group_get k grouped with
    | Some rows => Some rows
    | None => if eqb k category then Some [] else None
    end.
Proof.
  induction grouped as [|[k' rows] g IH]; simpl; [reflexivity|].
  destruct (eqb k k'); [reflexivity | exact IH].
Qed.

Lemma group_get_append category row k grouped :
  group_get k (group_append category row grouped)
  = match group_get k grouped with
    | Some rows => Some (if eqb category k then rows ++ [row] else rows)
    | None => None
    end.
Proof.
  induction grouped as [|[k' rows] g IH]; simpl; [reflexivity|].
  destruct (eqb category k') eqn:E; simpl.
  - apply pystr_eqb_eq in E. subst k'.
    rewrite (pystr_eqb_sym k category).
    destruct (eqb category k) eqn:E'; [reflexivity|].
    destruct (group_get k g); reflexivity.
  - destruct (eqb k k') eqn:E'; [|exact IH].
    apply pystr_eqb_eq in E'. subst k'. now rewrite E.
Qed.

Lemma group_append_keys category row grouped :
  map fst (group_append category row grouped) = map fst grouped.
Proof.
  induction grouped as [|[k rows] g IH]; simpl; [reflexivity|].
  destruct (eqb category k); simpl; [reflexivity | now rewrite IH].
Qed.

Lemma group_append_size category row grouped :
  length (flat_map snd (group_append category row grouped))
  = length (flat_map snd grouped)
    + (if group_has category grouped then 1 else 0).
Proof.
  unfold group_has.
  induction grouped as [|[k rows] g IH]; simpl; [reflexivity|].
  destruct (eqb category k); simpl; rewrite !length_app.
  - simpl. lia.
  - rewrite IH. lia.
Qed.

(** What the loop of [get_concepts_by_category] keeps true, [seen] being
    the concepts gone through so far. *)
Lemma group_step_keeps grouped seen concept :
  ((forall category,
      group_get category grouped
      = match filter (fun c => eqb (category_or_default c) category) seen with
        | [] => None
        | rows => Some rows
        end) /\
   NoDup (map fst grouped) /\
   length (flat_map snd grouped) = length seen) ->
  (forall category,
     group_get category (group_step grouped concept)
     = match filter (fun c => eqb (category_or_default c) category)
                    (seen ++ [concept]) with
       | [] => None
       | rows => Some rows
       end) /\
  NoDup (map fst (group_step grouped concept)) /\
  length (flat_map snd (group_step grouped concept))
  = length (seen ++ [concept]).
Proof.
  intros (Hget & Hkeys & Hsize). unfold group_step.
  set (cat := category_or_default concept).
  rewrite group_has_get.
  destruct (group_get cat grouped) as [rows0|] eqn:Hcat.
  - split; [|split].
    + intros category. rewrite group_get_append, Hget, filter_app. simpl.
      fold cat.
      destruct (eqb cat category) eqn:E.
      * destruct (filter _ seen) as [|r rs] eqn:F; simpl; [|reflexivity].
        apply pystr_eqb_eq in E. subst category.
        rewrite Hget, F in Hcat. discriminate.
      * rewrite app_nil_r. destruct (filter _ seen); reflexivity.
    + now rewrite group_append_keys.
    + rewrite group_append_size, group_has_get, Hcat, length_app, Hsize.
      reflexivity.
  - split; [|split].
    + intros category.
      rewrite group_get_append, group_get_snoc, Hget, filter_app. simpl.
      fold cat. rewrite (pystr_eqb_sym category cat).
      destruct (eqb cat category) eqn:E.
      * apply pystr_eqb_eq in E. subst category.
        rewrite Hget in Hcat.
        destruct (filter _ seen) as [|r rs]; [reflexivity | discriminate].
      * rewrite app_nil_r. destruct (filter _ seen); reflexivity.
    + rewrite group_append_keys, map_app. simpl.
      apply NoDup_app; [exact Hkeys | repeat constructor; simpl; tauto |].
      intros k Hk [<-|[]]. revert Hk. now apply group_get_keys.
    + rewrite group_append_size, group_has_get, group_get_snoc, Hcat.
      rewrite pystr_eqb_refl, flat_map_app, !length_app, Hsize. simpl. lia.
Qed.

(** X24: [get_concepts_by_category] files every concept under its category,
    or under Uncategorized when the category is NULL or empty: the group of
    a category is the list of the concepts of that category in the order of
    the input, a category without concepts has no group (no group is
    empty), each category is one key of the result, and the groups hold as
    many concepts as the input. *)
Theorem concepts_grouped_by_category (all_concepts : list concept_row) :
  let grouped := get_concepts_by_category all_concepts in
  (forall category,
     group_get category grouped
     = match filter (fun c => eqb (category_or_default c) category)
                    all_concepts with
       | [] => None
       | rows => Some rows
       end) /\
  NoDup (map fst grouped) /\
  length (flat_map snd grouped) = length all_concepts.
Proof.
  unfold get_concepts_by_category.
  induction all_concepts as [|concept seen IH] using rev_ind.
  - simpl. repeat split; constructor.
  - rewrite fold_left_app. simpl. apply group_step_keeps. exact IH.
Qed.

(** ** Session titles *)

Lemma lstrip_blank (s : pystr) :
  exists w, s = w ++ lstrip s /\ Forall (fun c => isspace c = true) w.
Proof.
  induction s as [|c s (w & IH & Hw)]; simpl; [now exists []|].
  destruct (isspace c) eqn:E.
  - exists (c :: w). simpl. split; [now f_equal | now constructor].
  - now exists [].
Qed.

Lemma lstrip_length (s : pystr) : length (lstrip s) <= length s.
Proof.
  destruct (lstrip_suffix s) as [w Hw].
  rewrite Hw at 2. rewrite length_app. lia.
Qed.

Lemma strip_length (s : pystr) : length (strip s) <= length s.
Proof.
  unfold strip, rstrip. rewrite length_rev.
  etransitivity; [apply lstrip_length|]. rewrite length_rev.
  apply lstrip_length.
Qed.

Lemma slice_to_firstn (n : Z) (s : pystr) :
  slice_to n s
  = firstn (Z.to_nat (if (0 <=? n)%Z then n
                      else (Z.of_nat (length s) + n)%Z)) s.
Proof. unfold slice_to. destruct (0 <=? n)%Z; reflexivity. Qed.

(** [strip] takes white space, and nothing else, off both ends. *)
Lemma strip_split (s : pystr) :
  exists pre post,
    s = pre ++ strip s ++ post /\
    Forall (fun c => isspace c = true) pre /\
    Forall (fun c => isspace c = true) post.
Proof.
  destruct (lstrip_blank s) as (pre & Hs & Hpre).
  destruct (lstrip_blank (rev (lstrip s))) as (w & Hr & Hw).
  exists pre, (rev w). split; [|split; [exact Hpre | now apply Forall_rev]].
  unfold strip, rstrip. rewrite <- rev_app_distr, <- Hr, rev_involutive.
  exact Hs.
Qed.

(** X25: the title of a session is "New session" when the session has no
    user message. Otherwise it is made from the first user message alone.
    A message of at most [max_length] characters is the title as it is. A
    longer one is cut to its first [max_length] characters (for a negative
    [max_length]: it loses its last [- max_length] characters, all of them
    when there are fewer); the cut loses the white space at its two ends,
    and nothing else, and three dots are put after it. So for a
    [max_length] that is not negative the title has at most
    [max_length + 3] characters. *)
Theorem get_session_title_bounded
        (session_messages : list message_row) (max_length : Z) :
  let title := get_session_title session_messages max_length in
  match find (fun msg => eqb (m_role msg) (lit "user")) session_messages with
  | None => title = lit "New session"
  | Some msg =>
      ((Z.of_nat (length (m_content msg)) <= max_length)%Z ->
       title = m_content msg) /\
      ((max_length < Z.of_nat (length (m_content msg)))%Z ->
       exists cut rest pre body post,
         m_content msg = cut ++ rest /\
         ((0 <= max_length)%Z -> Z.of_nat (length cut) = max_length) /\
         ((max_length < 0)%Z ->
          Z.of_nat (length rest)
          = Z.min (- max_length) (Z.of_nat (length (m_content msg)))) /\
         cut = pre ++ body ++ post /\
         Forall (fun c => isspace c = true) pre /\
         Forall (fun c => isspace c = true) post /\
         stripped body /\
         title = body ++ lit "...") /\
      ((0 <= max_length)%Z ->
       (Z.of_nat (length title) <= max_length + 3)%Z)
  end.
Proof.
  cbv zeta.
  induction session_messages as [|msg others IH]; [reflexivity|].
  cbn [get_session_title find].
  destruct (eqb (m_role msg) (lit "user")); [|exact IH].
  set (content := m_content msg).
  destruct (Z.ltb_spec max_length (Z.of_nat (length content)))
    as [Hlong|Hshort].
  - split; [lia|]. split.
    + intros _.
      destruct (strip_split (slice_to max_length content))
        as (pre & post & Hcut & Hpre & Hpost).
      rewrite slice_to_firstn in *.
      set (n := Z.to_nat (if (0 <=? max_length)%Z then max_length
                          else (Z.of_nat (length content) + max_length)%Z))
        in *.
      exists (firstn n content), (skipn n content), pre,
             (strip (firstn n content)), post.
      split; [symmetry; apply firstn_skipn|].
      split; [|split].
      * intros H. rewrite length_firstn. subst n.
        destruct (Z.leb_spec 0 max_length); lia.
      * intros H. rewrite length_skipn. subst n.
        destruct (Z.leb_spec 0 max_length); lia.
      * split; [exact Hcut|]. split; [exact Hpre|]. split; [exact Hpost|].
        split; [apply strip_stripped | reflexivity].
    + intros Hmax. rewrite length_app.
      pose proof (strip_length (slice_to max_length content)) as Hs.
      unfold slice_to in *.
      destruct (Z.leb_spec 0 max_length); [|lia].
      rewrite length_firstn in Hs. simpl length. lia.
  - split; [reflexivity|]. split; [lia|]. lia.
Qed.

Lemma get_session_title_bounded_witness :
  let session_messages :=
    [ {| m_id := 1; m_session_id := 1; m_role := lit "assistant";
         m_content := lit "Welcome back." |};
      {| m_id := 2; m_session_id := 1; m_role := lit "user";
         m_content := lit "What is a firewall and how does it work?" |} ] in
  get_session_title session_messages 10 = lit "What is a..." /\
  exists cut rest pre body post,
    lit "What is a firewall and how does it work?" = cut ++ rest /\
    Z.of_nat (length cut) = 10%Z /\
    cut = pre ++ body ++ post /\
    Forall (fun c => isspace c = true) pre /\
    Forall (fun c => isspace c = true) post /\
    stripped body /\
    get_session_title session_messages 10 = body ++ lit "...".
Proof.
  intros session_messages. split; [reflexivity|].
  destruct (get_session_title_bounded session_messages 10)
    as (_ & Hlong & _).
  destruct Hlong as (cut & rest & pre & body & post
                     & E & Hcut & _ & Hbody); [simpl; lia|].
  exists cut, rest, pre, body, post.
  split; [exact E|]. split; [apply Hcut; lia | exact Hbody].
Defined.

(** ** Marking a concept as reviewed *)

(** X26: under the table's constraints, [mark_concept_reviewed] does what
    a rating at the level the concept already has would do: both leave
    the same store. For an id that is not in the table it leaves the store
    as it is. *)
Theorem mark_reviewed_is_rating_at_same_level
        (now id : Z) (d : database) :
  store_ok d ->
  match concept_with_id id d with
  | Some row =>
      mark_concept_reviewed now id d
      = update_concept_understanding now id (c_understanding_level row) d
  | None => mark_concept_reviewed now id d = d
  end.
Proof.
  intros (Nid & _ & _ & Hlevel & _).
  unfold concept_with_id, mark_concept_reviewed, update_concept_understanding.
  destruct (find _ (concepts d)) as [row|] eqn:E.
  - f_equal. unfold update_where_id. apply map_ext_in. intros r Hin.
    destruct (c_id r =? id)%Z eqn:Eid; [|reflexivity].
    apply Z.eqb_eq in Eid.
    pose proof (@find_by_id_of_row _ _ Nid Hin) as Hr.
    rewrite Eid, E in Hr. injection Hr as ->.
    rewrite Forall_forall in Hlevel. specialize (Hlevel r Hin).
    unfold set_last_reviewed, set_understanding. f_equal. lia.
  - rewrite update_where_id_absent by exact E.
    destruct d; reflexivity.
Qed.

Lemma mark_reviewed_is_rating_at_same_level_witness :
  match concept_with_id 2 three_concepts with
  | Some row =>
      mark_concept_reviewed 150 2 three_concepts
      = update_concept_understanding 150 2 (c_understanding_level row)
                                     three_concepts
  | None => mark_concept_reviewed 150 2 three_concepts = three_concepts
  end.
Proof.
  apply (@mark_reviewed_is_rating_at_same_level 150 2 three_concepts).
  store_ok_by_computation.
Defined.

(** ** Loading a session *)

Lemma save_and_track_message_row role content w :
  messages (db (save_and_track_message role content w))
  = messages (db w)
    ++ [{| m_id := (messages_seq (db w) + 1)%Z;
           m_session_id := session_id (ss w);
           m_role := role; m_content := content |}].
Proof.
  unfold save_and_track_message, save_message.
  destruct (eqb role (lit "assistant")); cbn [db set_db];
    rewrite ?track_concepts_messages; reflexivity.
Qed.

(** X27: [load_session] gives a session its whole budget and an empty
    history, whatever the count and the quiz state were before, even at the
    cap and in the middle of a quiz: the flow is outside the quiz, and the
    next chat input is sent to the LLM service, with no earlier turn, and
    counted as the first message. *)
Theorem load_session_renews_budget
        (id : Z) (from_db : list message_row) (e : env) (w : world)
        (c : ascii) (rest : pystr) :
  fired e = ChatInput (c :: rest) ->
  pending_concept_question (ss w) = None ->
  let w1 := set_ss (load_session id from_db (ss w)) w in
  let w2 := fst (main e w1) in
  phase_of (ss w1) = Idle /\
  requests w2 = requests w ++ [c :: rest] /\
  match llm e (c :: rest) [] with
  | Returned (reply, turns) =>
      message_count (ss w2) = 1%Z /\ pydantic_messages (ss w2) = turns /\
      ss_messages (ss w2)
      = map (fun msg => (m_role msg, m_content msg)) from_db
        ++ [(lit "user", c :: rest); (lit "assistant", reply)]
  | Raised _ =>
      message_count (ss w2) = 0%Z /\ pydantic_messages (ss w2) = [] /\
      ss_messages (ss w2)
      = map (fun msg => (m_role msg, m_content msg)) from_db
        ++ [(lit "user", c :: rest)]
  end.
Proof.
  intros Hfired Hpending. cbv zeta. split; [reflexivity|].
  unfold main. cbn [ss set_ss load_session quiz_active quiz_mode andb].
  unfold chat_area, check_message_limit.
  cbn [ss set_ss load_session message_count pending_concept_question].
  rewrite Hpending, Hfired.
  replace (MAX_MESSAGES_PER_SESSION <=? 0)%Z with false by reflexivity.
  cbn [fst]. unfold process_user_input, run_agent.
  set (w1 := set_ss (append_message (lit "user") (c :: rest) _) _).
  destruct (save_and_track_message_effect (lit "user") (c :: rest) w1)
    as (Es & Er & _).
  set (w2 := save_and_track_message (lit "user") (c :: rest) w1) in *.
  clearbody w2. cbn [ss send]. rewrite Es. subst w1.
  cbn [ss set_ss append_message set_chat pydantic_messages load_session].
  destruct (llm e (c :: rest) []) as [[reply turns]|x].
  - match goal with
    | |- context [save_and_track_message (lit "assistant") ?u ?w0] =>
        destruct (save_and_track_message_effect (lit "assistant") u w0)
          as (Es' & Er' & _)
    end.
    rewrite Es', Er'. cbn. rewrite ?Er, ?Es. cbn.
    rewrite <- ?app_assoc. repeat split; reflexivity.
  - cbn. rewrite ?Er, ?Es. cbn. repeat split; reflexivity.
Qed.

Lemma load_session_renews_budget_witness :
  let w := quiz_started 25 in
  let e := run_with (ChatInput (lit "What is a VPN?")) llm_teacher in
  let w1 := set_ss (load_session 1 [] (ss w)) w in
  let w2 := fst (main e w1) in
  phase_of (ss w1) = Idle /\
  requests w2 = requests w ++ [lit "What is a VPN?"] /\
  match llm e (lit "What is a VPN?") [] with
  | Returned (reply, turns) =>
      message_count (ss w2) = 1%Z /\ pydantic_messages (ss w2) = turns /\
      ss_messages (ss w2)
      = map (fun msg => (m_role msg, m_content msg)) []
        ++ [(lit "user", lit "What is a VPN?"); (lit "assistant", reply)]
  | Raised _ =>
      message_count (ss w2) = 0%Z /\ pydantic_messages (ss w2) = [] /\
      ss_messages (ss w2)
      = map (fun msg => (m_role msg, m_content msg)) []
        ++ [(lit "user", lit "What is a VPN?")]
  end.
Proof.
  apply (@load_session_renews_budget 1 []
           (run_with (ChatInput (lit "What is a VPN?")) llm_teacher)
           (quiz_started 25) "W"%char (lit "hat is a VPN?"));
    reflexivity.
Defined.

(** ** The transcript and the stored messages *)

Lemma transcript_ok_ext w w' :
  ss_messages (ss w') = ss_messages (ss w) ->
  session_id (ss w') = session_id (ss w) ->
  messages (db w') = messages (db w) ->
  transcript_ok w -> transcript_ok w'.
Proof.
  unfold transcript_ok, session_rows. intros -> -> ->. trivial.
Qed.

Lemma transcript_ok_message role content w :
  transcript_ok w ->
  transcript_ok
    (save_and_track_message role content
       (set_ss (append_message role content (ss w)) w)).
Proof.
  unfold transcript_ok, session_rows. intros H.
  rewrite save_and_track_message_row, save_and_track_message_ss.
  cbn [ss db set_ss append_message set_chat ss_messages session_id].
  rewrite filter_app, map_app, <- H. cbn [filter m_session_id].
  rewrite Z.eqb_refl. reflexivity.
Qed.

Lemma process_user_input_transcript e user_input w :
  transcript_ok w -> transcript_ok (process_user_input e user_input w).
Proof.
  intros H. unfold process_user_input.
  pose proof (transcript_ok_message (lit "user") user_input H) as H2.
  set (w2 := save_and_track_message (lit "user") user_input _) in *.
  clearbody w2.
  assert (transcript_ok (send user_input w2)) as H3
      by (revert H2; apply transcript_ok_ext; reflexivity).
  destruct (run_agent _ _ _) as [[response_text new_messages]|x];
    [|exact H3].
  match goal with
  | |- transcript_ok (save_and_track_message ?r ?c (set_ss _ ?w5)) =>
      apply (@transcript_ok_message r c w5)
  end.
  revert H3. apply transcript_ok_ext; reflexivity.
Qed.

Lemma main_transcript e w :
  transcript_ok w ->
  transcript_ok (fst (main e w)) /\
  session_id (ss (fst (main e w))) = session_id (ss w).
Proof.
  intros H. unfold main.
  destruct (quiz_active (ss w) && negb (awaiting_rating (ss w))).
  - assert (forall w',
               ss_messages (ss w') = ss_messages (ss w) /\
               session_id (ss w') = session_id (ss w) /\
               messages (db w') = messages (db w) ->
               transcript_ok w' /\ session_id (ss w') = session_id (ss w))
      as same.
    { intros w' (E1 & E2 & E3). split; [|exact E2].
      revert H. now apply transcript_ok_ext. }
    destruct (quiz_state (ss w)) as [q|] eqn:Hq; [|apply same; auto].
    destruct (render_quiz_header q); [|apply same; auto].
    destruct (qs_answered q) eqn:Hans.
    + unfold render_quiz_result, advance_quiz, finish_quiz.
      rewrite Hq, Hans. cbn [negb].
      destruct (result_lookups q); [|apply same; auto].
      destruct (fired e);
        try destruct (negb (length (qs_concepts q) - 1
                            <=? qs_current_index q));
        apply same; cbn; rewrite ?Hq; cbn; auto.
    + unfold render_quiz_question, advance_quiz, leave_quiz. rewrite Hq.
      destruct (check_message_limit (ss w)); [apply same; cbn; auto|].
      destruct (qs_loading q).
      * destruct (nth_error _ _) as [c|]; [|apply same; auto].
        generalize (QUIZ_PROMPT_TEMPLATE (c_name c)). intros prompt.
        destruct (generate_quiz_question _ _) as [[d|]|[]];
          apply same; cbn; rewrite ?Hq; cbn; auto.
      * destruct (fired e) as [| l | | | | | |];
          try solve [apply same; cbn; auto].
        cbn [set_answer qs_concepts qs_current_index].
        destruct (nth_error _ _); apply same; cbn; auto.
  - destruct (quiz_mode (ss w) && awaiting_rating (ss w)).
    + unfold render_understanding_rating, update_quiz_understanding.
      destruct (fired e); (split; [|reflexivity]); trivial;
        revert H; apply transcript_ok_ext; try reflexivity;
        cbn [db set_db]; apply update_each_concepts_kept.
    + split; [|apply chat_area_fields].
      unfold chat_area.
      destruct (check_message_limit (ss w)); [exact H|].
      destruct (pending_concept_question (ss w)) as [[|c rest]|].
      * destruct (fired e) as [| | | | | | |[|c rest]]; try exact H.
        cbn [fst]. now apply process_user_input_transcript.
      * cbn [fst]. apply process_user_input_transcript.
        revert H. apply transcript_ok_ext; reflexivity.
      * destruct (fired e) as [| | | | | | |[|c rest]]; try exact H.
        cbn [fst]. now apply process_user_input_transcript.
Qed.

(** X28: the transcript on display stays the one the store holds for the
    session. When it is so at the start, then after any sequence of runs
    the messages on display are the stored messages of the session, read in
    the order of their insertion, with their roles and contents; the session
    id stands; and [load_session] on these rows puts the same transcript
    back. Quiz questions and answers are in neither. *)
Theorem transcript_matches_store (es : list env) (w : world) :
  transcript_ok w ->
  let w' := runs es w in
  transcript_ok w' /\
  session_id (ss w') = session_id (ss w) /\
  ss_messages
    (load_session (session_id (ss w))
       (session_rows (session_id (ss w)) (db w')) (ss w'))
  = ss_messages (ss w').
Proof.
  intros H. cbv zeta.
  assert (transcript_ok (runs es w) /\
          session_id (ss (runs es w)) = session_id (ss w)) as [Hok Hid].
  { revert w H. induction es as [|e es IH]; intros w H; simpl; [auto|].
    destruct (main_transcript e H) as [H1 Hid1].
    destruct (IH _ H1) as [H2 Hid2]. split; [exact H2 | congruence]. }
  split; [exact Hok|]. split; [exact Hid|].
  unfold transcript_ok in Hok. rewrite Hid in Hok. symmetry. exact Hok.
Qed.

Lemma transcript_matches_store_witness :
  let w' := runs [run_with (ChatInput (lit "What is a firewall?")) llm_teacher;
                  run_with (ChatInput (lit "And a VPN?")) llm_down]
                 empty_world in
  transcript_ok w' /\
  session_id (ss w') = session_id (ss empty_world) /\
  ss_messages
    (load_session (session_id (ss empty_world))
       (session_rows (session_id (ss empty_world)) (db w')) (ss w'))
  = ss_messages (ss w').
Proof.
  apply (@transcript_matches_store
           [run_with (ChatInput (lit "What is a firewall?")) llm_teacher;
            run_with (ChatInput (lit "And a VPN?")) llm_down]
           empty_world).
  reflexivity.
Defined.

(** ** The cost of a quiz *)

(** A run made while the quiz is on pays for each request out of the
    questions the quiz may still ask for; any other run leaves none. *)
Lemma main_quiz_left e w :
  (if in_quiz (ss w)
   then length (requests (fst (main e w))) - length (requests w)
   else 0)
  + quiz_left (ss (fst (main e w))) <= quiz_left (ss w).
Proof.
  unfold in_quiz.
  destruct (quiz_active (ss w) && negb (awaiting_rating (ss w))) eqn:Hact.
  - destruct (quiz_on _ Hact) as (q & Hq & Hmode & Hactive & Haw).
    assert (quiz_left (ss w)
            = if qs_answered q
              then length (qs_concepts q) - S (qs_current_index q)
              else if qs_loading q
                   then length (qs_concepts q) - qs_current_index q
                   else length (qs_concepts q) - S (qs_current_index q))
      as Hleft.
    { unfold quiz_left, phase_of, batch_size. rewrite Hact, Hq.
      destruct (qs_answered q), (qs_loading q); reflexivity. }
    assert (length (requests w) - length (requests w) + quiz_left (ss w)
            <= quiz_left (ss w)) as Hstay by lia.
    unfold main. rewrite Hact, Hq. unfold render_quiz_header.
    destruct (nth_error (qs_concepts q) (qs_current_index q)) as [c|] eqn:Hnth;
      [|exact Hstay].
    assert (qs_current_index q < length (qs_concepts q)) as Hlt
        by (apply nth_error_Some; congruence).
    destruct (qs_answered q) eqn:Hans.
    + unfold render_quiz_result. rewrite Hq, Hans. cbn [negb].
      destruct (result_lookups q); [|exact Hstay].
      destruct (fired e); try exact Hstay.
      * destruct (negb (length (qs_concepts q) - 1 <=? qs_current_index q))
          eqn:Hlast; [|exact Hstay].
        cbn [fst requests set_ss]. rewrite Nat.sub_diag, Hleft.
        unfold quiz_left, batch_size. phase_calc Hq Hmode Hactive Haw.
        lia.
      * cbn [fst requests set_ss]. rewrite Nat.sub_diag, Hleft.
        unfold quiz_left, batch_size. phase_calc Hq Hmode Hactive Haw. lia.
    + unfold render_quiz_question. rewrite Hq.
      destruct (check_message_limit (ss w)).
      { cbn [fst requests set_ss]. rewrite Nat.sub_diag.
        unfold quiz_left at 1. phase_calc Hq Hmode Hactive Haw. lia. }
      destruct (qs_loading q) eqn:Hload.
      * rewrite Hnth, Hleft.
        generalize (QUIZ_PROMPT_TEMPLATE (c_name c)). intros prompt.
        destruct (generate_quiz_question _ _) as [[d|]|[]];
          cbn [fst requests set_ss send]; rewrite length_app;
          unfold quiz_left, batch_size; phase_calc Hq Hmode Hactive Haw;
          rewrite ?Hans; cbn; lia.
      * destruct (fired e) as [| l | | | | | |]; try exact Hstay.
        cbn [set_answer qs_concepts qs_current_index]. rewrite Hnth.
        cbn [fst requests set_ss]. rewrite Nat.sub_diag, Hleft.
        unfold quiz_left, batch_size. phase_calc Hq Hmode Hactive Haw. lia.
  - assert (quiz_left (ss w) = 0) as Hzero.
    { unfold quiz_left, phase_of. rewrite Hact.
      destruct (quiz_mode (ss w) && awaiting_rating (ss w)); reflexivity. }
    rewrite Hzero. unfold main. rewrite Hact.
    destruct (quiz_mode (ss w) && awaiting_rating (ss w)) eqn:Hrate.
    + unfold render_understanding_rating.
      destruct (fired e); cbn [fst]; rewrite ?Hzero; try lia; reflexivity.
    + destruct (chat_area_fields e w) as (M & A & Q & _).
      unfold quiz_left, batch_size.
      rewrite (phase_of_ext _ _ M A Q), Q.
      fold (batch_size (ss w)). fold (quiz_left (ss w)). lia.
Qed.

Lemma quiz_requests_bound es : forall w,
  quiz_requests es w <= quiz_left (ss w).
Proof.
  induction es as [|e es IH]; intros w; simpl; [lia|].
  pose proof (main_quiz_left e w). pose proof (IH (fst (main e w))). lia.
Qed.

(** X29: a quiz costs at most its batch. Over any sequence of runs that
    follows [start_quiz_mode], the runs made while the quiz is on send at
    most one request per concept of the batch; and a batch that
    [get_concepts_for_quiz(limit=3)] returned has at most three concepts,
    so a quiz takes at most three messages of the budget. *)
Theorem quiz_asks_at_most_the_batch
        (cutoff : Z) (d : database) (concepts : list concept_row)
        (w : world) (es : list env) :
  get_concepts_for_quiz_returns cutoff 3 d concepts ->
  quiz_requests es (set_ss (start_quiz_mode concepts (ss w)) w)
  <= length concepts /\
  length concepts <= 3.
Proof.
  intros (ordered & _ & _ & ->). split; [|apply firstn_le_length].
  etransitivity; [apply quiz_requests_bound|].
  generalize (firstn 3 ordered). intros batch.
  destruct batch as [|c batch]; cbn; [lia|].
  unfold quiz_left, phase_of, batch_size. cbn. lia.
Qed.

Lemma quiz_asks_at_most_the_batch_witness :
  quiz_requests [run_with NoWidget llm_rambling; run_with NoWidget llm_quiz;
                 run_with (QuizOption LA) llm_quiz;
                 run_with DoneOrEndQuiz llm_quiz]
                (set_ss (start_quiz_mode [concept_A; concept_B]
                                         (ss empty_world)) empty_world)
  <= length [concept_A; concept_B] /\
  length [concept_A; concept_B] <= 3.
Proof.
  apply (@quiz_asks_at_most_the_batch 50 three_concepts
           [concept_A; concept_B] empty_world).
  exists [concept_A; concept_B].
  split; [vm_compute; reflexivity|].
  split; [|reflexivity].
  repeat (constructor; [|repeat (constructor; try reflexivity)]).
  constructor.
Defined.
